(** * network-analytics: collector and query service

    A shallow embedding of [net_analytics_collector.py] (the scheduler loop,
    the SQLite writer and the hourly CSV writer) and of
    [net_analytics_webui_standalone.py] (the four read queries and the HTTP
    handler), with the properties of the design document stated over them.
    The last part goes beyond the document: the command helpers of the
    collector ([do_traceroute], [do_ping], the choice of the speedtest tool
    and of its servers), which parse the text the tools print, over an [Os]
    of recorded answers; and the pure functions of the dashboard script.

    Conventions of the embedding:
    - SQLite INTEGER columns and Python ints are [Z]; a Python int bound to a
      statement parameter must fit 64 bits, otherwise the sqlite3 module
      raises OverflowError;
    - REAL columns and Python floats are exact rationals [Q]: no statement
      below depends on rounding;
    - a nullable column is an [option];
    - Python exceptions are values of [PyExn]; code that can raise returns an
      [outcome];
    - the external tools (traceroute, ping, speedtest), the clocks, the
      signal handler and the failures of storage calls are read from an
      explicit [World] of recorded answers. *)

From Stdlib Require Import ZArith QArith String Ascii Lia.
From stdpp Require Import base option list gmap strings sorting pretty.

Open Scope string_scope.
Open Scope list_scope.
Open Scope Z_scope.

(** ** Python side: exceptions and results *)

Inductive PyExn :=
| ValueError
| IndexError
| OverflowError
| TypeError
| OperationalError
| IntegrityError
| KeyError
| OSError.

Inductive outcome (A : Type) :=
| Val (a : A)
| Exn (e : PyExn).
Arguments Val {A} a.
Arguments Exn {A} e.

#[global] Instance outcome_ret : MRet outcome := λ A a, Val a.
#[global] Instance outcome_bind : MBind outcome :=
  λ A B f m, match m with Val a => f a | Exn e => Exn e end.

(** *** [int(s)] on a string of ASCII characters

    Surrounding white space is dropped, one sign is allowed, and the rest
    must be decimal digits, where single underscores may separate digits.
    Anything else raises ValueError. *)

Module PyInt.

Definition is_space (c : ascii) : bool :=
  let n := N_of_ascii c in
  ((9 <=? n) && (n <=? 13) || (28 <=? n) && (n <=? 32))%N.

Definition digit_of (c : ascii) : option Z :=
  let n := N_of_ascii c in
  if ((48 <=? n) && (n <=? 57))%N then Some (Z.of_N n - 48) else None.

Fixpoint lstrip (l : list ascii) : list ascii :=
  match l with
  | c :: rest => if is_space c then lstrip rest else l
  | [] => []
  end.

Definition strip (l : list ascii) : list ascii :=
  rev (lstrip (rev (lstrip l))).

(** [after_digit] tells whether the previous character was a digit: an
    underscore is accepted only there, and the literal must end there. *)
Fixpoint digits (acc : Z) (after_digit : bool) (l : list ascii) : option Z :=
  match l with
  | [] => if after_digit then Some acc else None
  | c :: rest =>
      match digit_of c with
      | Some d => digits (10 * acc + d) true rest
      | None =>
          if decide (c = "_"%char)
          then (if after_digit then digits acc false rest else None)
          else None
      end
  end.

Definition int (s : string) : outcome Z :=
  let body := strip (list_ascii_of_string s) in
  let parsed :=
    match body with
    | "-"%char :: rest => Z.opp <$> digits 0 false rest
    | "+"%char :: rest => digits 0 false rest
    | _ => digits 0 false body
    end in
  match parsed with
  | Some z => Val z
  | None => Exn ValueError
  end.

End PyInt.

(** ** The durable schema created by [init_db] *)

Module Pings.
(** pings(ts_ms INTEGER NOT NULL, target TEXT NOT NULL, tag TEXT NOT NULL,
    rtt_ms REAL, success INTEGER NOT NULL CHECK (success IN (0,1))) *)
Record row := mk {
  ts_ms : Z;
  target : string;
  tag : string;
  rtt_ms : option Q;
  success : Z
}.

(** The CHECK constraint of the table. *)
Definition check (r : row) : Prop := success r = 0 ∨ success r = 1.

#[global] Instance check_dec r : Decision (check r).
Proof. unfold check. apply _. Defined.
End Pings.

Module Traceroutes.
(** traceroutes(ts_ms INTEGER NOT NULL, dest TEXT NOT NULL,
    hop INTEGER NOT NULL, ip TEXT) *)
Record row := mk {
  ts_ms : Z;
  dest : string;
  hop : Z;
  ip : option string
}.
End Traceroutes.

Module Speedtests.
(** speedtests(ts_ms INTEGER NOT NULL, tool TEXT NOT NULL, server_id TEXT,
    server_name TEXT, ping_ms REAL, download_mbps REAL, upload_mbps REAL,
    jitter_ms REAL) *)
Record row := mk {
  ts_ms : Z;
  tool : string;
  server_id : option string;
  server_name : option string;
  ping_ms : option Q;
  download_mbps : option Q;
  upload_mbps : option Q;
  jitter_ms : option Q
}.
End Speedtests.

Record Tables := mkTables {
  pings : list Pings.row;
  traceroutes : list Traceroutes.row;
  speedtests : list Speedtests.row
}.

Definition empty_tables : Tables := mkTables [] [] [].

Definition add_ping (r : Pings.row) (t : Tables) : Tables :=
  mkTables (pings t ++ [r]) (traceroutes t) (speedtests t).
Definition add_trace (r : Traceroutes.row) (t : Tables) : Tables :=
  mkTables (pings t) (traceroutes t ++ [r]) (speedtests t).
Definition add_speedtest (r : Speedtests.row) (t : Tables) : Tables :=
  mkTables (pings t) (traceroutes t) (speedtests t ++ [r]).

(** ** SQL fragments used by the queries *)

Module Sql.

Definition INT64_MIN : Z := - 2 ^ 63.
Definition INT64_MAX : Z := 2 ^ 63 - 1.

Definition fits_int64 (z : Z) : bool := (INT64_MIN <=? z) && (z <=? INT64_MAX).

(** Binding a Python int to a [?] placeholder. *)
Definition bind_int (z : Z) : outcome Z :=
  if fits_int64 z then Val z else Exn OverflowError.

(** [x BETWEEN lo AND hi] on integers. *)
Definition between (lo hi x : Z) : Prop := lo ≤ x ∧ x ≤ hi.

#[global] Instance between_dec lo hi x : Decision (between lo hi x).
Proof. unfold between. apply _. Defined.

(** [ORDER BY key ASC] on a NOT NULL integer key.  SQL leaves the order of
    rows with equal keys open; the model fixes one admissible order. *)
Definition key_le {A} (key : A → Z) : relation A := λ x y, key x ≤ key y.

#[global] Instance key_le_dec {A} (key : A → Z) x y : Decision (key_le key x y).
Proof. unfold key_le. apply _. Defined.

Definition order_by {A} (key : A → Z) (l : list A) : list A :=
  merge_sort (key_le key) l.

(** Ascending order on a nullable integer: NULL sorts first. *)
Definition null_le (a b : option Z) : Prop :=
  match a, b with
  | None, _ => True
  | Some _, None => False
  | Some x, Some y => x ≤ y
  end.

#[global] Instance null_le_dec a b : Decision (null_le a b).
Proof. destruct a, b; simpl; apply _. Defined.

Definition nullable_key_le {A} (key : A → option Z) : relation A :=
  λ x y, null_le (key x) (key y).

#[global] Instance nullable_key_le_dec {A} (key : A → option Z) x y :
  Decision (nullable_key_le key x y).
Proof. unfold nullable_key_le. apply _. Defined.

Definition order_by_nullable {A} (key : A → option Z) (l : list A) : list A :=
  merge_sort (nullable_key_le key) l.

(** [MAX(col)]: NULL on the empty table. *)
Definition max_of (l : list Z) : option Z :=
  foldr (λ x acc, Some (match acc with None => x | Some m => Z.max x m end)) None l.

(** [SUM(col)] over a non-empty group of a NOT NULL integer column. *)
Definition sum_of (l : list Z) : Z := foldr Z.add 0 l.

(** [AVG(expr)]: the mean of the non-NULL values, NULL when there is none. *)
Definition avg_of (l : list (option Q)) : option Q :=
  match omap id l with
  | [] => None
  | v :: vs => Some (foldr Qplus 0%Q (v :: vs) / inject_Z (Z.of_nat (length (v :: vs))))%Q
  end.

(** Integer division [a / b] of SQLite: NULL when [b] is 0, otherwise the
    quotient truncated toward zero. *)
Definition int_div (a b : Z) : option Z :=
  if decide (b = 0) then None else Some (Z.quot a b).

End Sql.

(** ** net_analytics_webui_standalone.py *)

Module WebUI.

(** [get_conn]: [None] when the file at DB_PATH does not exist.  The
    argument is the content of that file, if any. *)
Definition get_conn (disk : option Tables) : option Tables := disk.

Definition query_pings_raw (disk : option Tables) (start_ms end_ms : Z)
  : outcome (list Pings.row) :=
  match get_conn disk with
  | None => Val []
  | Some conn =>
      match Sql.bind_int start_ms, Sql.bind_int end_ms with
      | Val lo, Val hi =>
          Val (Sql.order_by Pings.ts_ms
                 (filter (λ r, Sql.between lo hi (Pings.ts_ms r)) (pings conn)))
      | _, _ => Exn OverflowError
      end
  end.

(** One output row of the aggregated query:
    [bucket_ts, tag, avg_rtt, success_count, total_count]. *)
Record bucket_row := mkBucket {
  bucket_ts : option Z;
  b_tag : string;
  avg_rtt : option Q;
  success_count : Z;
  total_count : Z
}.

(** [((ts_ms / ?) * ?) AS bucket_ts] *)
Definition bucket_of (bucket_ms ts : Z) : option Z :=
  (λ q, q * bucket_ms) <$> Sql.int_div ts bucket_ms.

(** The GROUP BY key [(bucket_ts, tag)]. *)
Definition group_key (bucket_ms : Z) (r : Pings.row) : option Z * string :=
  (bucket_of bucket_ms (Pings.ts_ms r), Pings.tag r).

(** [CASE WHEN success=1 THEN rtt_ms END] *)
Definition rtt_if_success (r : Pings.row) : option Q :=
  if decide (Pings.success r = 1) then Pings.rtt_ms r else None.

Definition aggregate (k : option Z * string) (g : list Pings.row) : bucket_row :=
  {| bucket_ts := k.1;
     b_tag := k.2;
     avg_rtt := Sql.avg_of (rtt_if_success <$> g);
     success_count := Sql.sum_of (Pings.success <$> g);
     total_count := Z.of_nat (length g) |}.

(** The rows of one group. *)
Definition group_rows (bucket_ms : Z) (k : option Z * string) (sel : list Pings.row)
  : list Pings.row :=
  filter (λ r, group_key bucket_ms r = k) sel.

Definition query_pings_bucketed (disk : option Tables) (start_ms end_ms bucket_ms : Z)
  : outcome (list bucket_row) :=
  match get_conn disk with
  | None => Val []
  | Some conn =>
      match Sql.bind_int bucket_ms, Sql.bind_int start_ms, Sql.bind_int end_ms with
      | Val w, Val lo, Val hi =>
          let sel := filter (λ r, Sql.between lo hi (Pings.ts_ms r)) (pings conn) in
          let keys := remove_dups (group_key w <$> sel) in
          Val (Sql.order_by_nullable bucket_ts
                 ((λ k, aggregate k (group_rows w k sel)) <$> keys))
      | _, _, _ => Exn OverflowError
      end
  end.

Definition query_speedtests (disk : option Tables) (start_ms end_ms : Z)
  : outcome (list Speedtests.row) :=
  match get_conn disk with
  | None => Val []
  | Some conn =>
      match Sql.bind_int start_ms, Sql.bind_int end_ms with
      | Val lo, Val hi =>
          Val (Sql.order_by Speedtests.ts_ms
                 (filter (λ r, Sql.between lo hi (Speedtests.ts_ms r)) (speedtests conn)))
      | _, _ => Exn OverflowError
      end
  end.

Definition query_last_traces (disk : option Tables) : list Traceroutes.row :=
  match get_conn disk with
  | None => []
  | Some conn =>
      match Sql.max_of (Traceroutes.ts_ms <$> traceroutes conn) with
      | None => []
      | Some max_ts =>
          Sql.order_by Traceroutes.hop
            (filter (λ r, Traceroutes.ts_ms r = max_ts) (traceroutes conn))
      end
  end.

(** *** The HTTP handler *)

(** What [json.dumps] is given: tuples and lists become arrays, [None]
    becomes null. *)
#[warnings="-register-all"]
Inductive json :=
| JNull
| JInt (z : Z)
| JReal (q : Q)
| JStr (s : string)
| JArr (l : list json).

Definition j_opt {A} (f : A → json) (o : option A) : json :=
  match o with Some a => f a | None => JNull end.

Definition json_of_ping (r : Pings.row) : json :=
  JArr [JInt (Pings.ts_ms r); JStr (Pings.target r); JStr (Pings.tag r);
        j_opt JReal (Pings.rtt_ms r); JInt (Pings.success r)].

Definition json_of_bucket (b : bucket_row) : json :=
  JArr [j_opt JInt (bucket_ts b); JStr (b_tag b); j_opt JReal (avg_rtt b);
        JInt (success_count b); JInt (total_count b)].

Definition json_of_speedtest (r : Speedtests.row) : json :=
  JArr [JInt (Speedtests.ts_ms r); JStr (Speedtests.tool r);
        j_opt JStr (Speedtests.server_id r); j_opt JStr (Speedtests.server_name r);
        j_opt JReal (Speedtests.ping_ms r); j_opt JReal (Speedtests.download_mbps r);
        j_opt JReal (Speedtests.upload_mbps r); j_opt JReal (Speedtests.jitter_ms r)].

Definition json_of_trace (r : Traceroutes.row) : json :=
  JArr [JInt (Traceroutes.ts_ms r); JStr (Traceroutes.dest r);
        JInt (Traceroutes.hop r); j_opt JStr (Traceroutes.ip r)].

(** A request after [urlparse] and [parse_qs]: the path and the
    dictionary from parameter names to their values. *)
Record Request := mkRequest {
  path : string;
  qs : gmap string (list string)
}.

Inductive Body :=
| Html                (* INDEX_HTML *)
| Json (j : json)
| Plain (s : string).

Record Response := mkResponse {
  status : Z;
  content_type : option string;
  body : Body
}.

Definition _send_html : Response :=
  mkResponse 200 (Some "text/html; charset=utf-8") Html.

Definition _send_json (obj : json) : Response :=
  mkResponse 200 (Some "application/json") (Json obj).

(** [int(qs.get(key, [default])[0])] *)
Definition int_param (q : gmap string (list string)) (key : string) (default : Z)
  : outcome Z :=
  match q !! key with
  | None => Val default
  | Some [] => Exn IndexError
  | Some (s :: _) => PyInt.int s
  end.

(** [now_ms] is the clock reading taken for the default of [end]. *)
Definition do_GET (disk : option Tables) (now_ms : Z) (req : Request)
  : outcome Response :=
  if decide (path req = "/" ∨ path req = "/index.html") then Val _send_html
  else if decide (path req = "/api/pings") then
    start ← int_param (qs req) "start" 0;
    end_ ← int_param (qs req) "end" now_ms;
    bucket_ms ← int_param (qs req) "bucket_ms" 0;
    if decide (bucket_ms ≠ 0 ∧ bucket_ms > 0) then
      rows ← query_pings_bucketed disk start end_ bucket_ms;
      Val (_send_json (JArr (json_of_bucket <$> rows)))
    else
      rows ← query_pings_raw disk start end_;
      Val (_send_json (JArr (json_of_ping <$> rows)))
  else if decide (path req = "/api/speedtests") then
    start ← int_param (qs req) "start" 0;
    end_ ← int_param (qs req) "end" now_ms;
    rows ← query_speedtests disk start end_;
    Val (_send_json (JArr (json_of_speedtest <$> rows)))
  else if decide (path req = "/api/latest_traceroute") then
    Val (_send_json (JArr (json_of_trace <$> query_last_traces disk)))
  else Val (mkResponse 404 None (Plain "not found")).

End WebUI.

(** ** net_analytics_collector.py *)

Module Collector.

(** *** Configuration (module constants, read from the environment) *)

Inductive Tool := ookla | speedtest_cli.

Definition tool_name (t : Tool) : string :=
  match t with ookla => "ookla" | speedtest_cli => "speedtest-cli" end.

(** One entry of [servers]: a dict with keys "id" and "name". *)
Record Server := mkServer { id : string; name : string }.

Record Config := mkConfig {
  DEST_HOST : string;
  PING_INTERVAL_SEC : Z;
  TRACEROUTE_REFRESH_SEC : Z;
  SPEEDTEST_INTERVAL_SEC : Z;
  SPEEDTEST_SERVER_IDS : list string;
  AUTO_SELECT_SPEEDTEST_SERVERS : bool;
  AUTO_NUM_SERVERS : Z;
  VERBOSE : bool
}.

Definition CSV_PINGS_NAME : string := "pings.csv".
Definition CSV_TRACES_NAME : string := "traceroutes.csv".
Definition CSV_SPEEDTESTS_NAME : string := "speedtests.csv".

(** *** Results of the external tools *)

(** [do_ping] returns [(True, float)] or [(False, None)]. *)
Inductive PingResult := Reply (rtt : Q) | Lost.

Definition unpack (r : PingResult) : bool * option Q :=
  match r with
  | Reply t => (true, Some t)
  | Lost => (false, None)
  end.

(** [run_speedtest] returns a dict with the key "error", or a dict with
    the seven keys below; the four measurements may be [None]. *)
Record SpeedtestData := mkSpeedtestData {
  r_tool : string;
  r_server_id : string;
  r_server_name : string;
  r_ping_ms : option Q;
  r_jitter_ms : option Q;
  r_download_mbps : option Q;
  r_upload_mbps : option Q
}.

Inductive SpeedtestResult :=
| StError (error : string)
| StData (d : SpeedtestData).

(** *** The world the process runs in

    Each list holds the answers the process will get, in order, from one
    source; when a list is used up the source answers with a default. *)
Record World := mkWorld {
  w_time : list Q;                      (* time.time() *)
  w_epoch_ms : list Z;                  (* _epoch_ms() *)
  w_hour : list string;                 (* datetime.now().strftime(CSV_SUBDIR_FORMAT) *)
  w_traceroute : list (list string);    (* do_traceroute(dest) *)
  w_ping : list PingResult;             (* do_ping(ip) *)
  w_speedtest : list SpeedtestResult;   (* run_speedtest(tool, server_id) *)
  w_fault : list bool;                  (* does the next storage call raise? *)
  w_signal : list bool;                 (* did SIGINT/SIGTERM arrive before the next read of _shutdown? *)
  w_which_tool : option Tool;           (* which_speedtest_tool() *)
  w_auto_servers : list Server          (* auto_select_servers(tool, count) *)
}.

Definition with_w_time v (w : World) : World :=
  mkWorld v (w_epoch_ms w) (w_hour w) (w_traceroute w) (w_ping w) (w_speedtest w)
          (w_fault w) (w_signal w) (w_which_tool w) (w_auto_servers w).
Definition with_w_epoch_ms v (w : World) : World :=
  mkWorld (w_time w) v (w_hour w) (w_traceroute w) (w_ping w) (w_speedtest w)
          (w_fault w) (w_signal w) (w_which_tool w) (w_auto_servers w).
Definition with_w_hour v (w : World) : World :=
  mkWorld (w_time w) (w_epoch_ms w) v (w_traceroute w) (w_ping w) (w_speedtest w)
          (w_fault w) (w_signal w) (w_which_tool w) (w_auto_servers w).
Definition with_w_traceroute v (w : World) : World :=
  mkWorld (w_time w) (w_epoch_ms w) (w_hour w) v (w_ping w) (w_speedtest w)
          (w_fault w) (w_signal w) (w_which_tool w) (w_auto_servers w).
Definition with_w_ping v (w : World) : World :=
  mkWorld (w_time w) (w_epoch_ms w) (w_hour w) (w_traceroute w) v (w_speedtest w)
          (w_fault w) (w_signal w) (w_which_tool w) (w_auto_servers w).
Definition with_w_speedtest v (w : World) : World :=
  mkWorld (w_time w) (w_epoch_ms w) (w_hour w) (w_traceroute w) (w_ping w) v
          (w_fault w) (w_signal w) (w_which_tool w) (w_auto_servers w).
Definition with_w_fault v (w : World) : World :=
  mkWorld (w_time w) (w_epoch_ms w) (w_hour w) (w_traceroute w) (w_ping w) (w_speedtest w)
          v (w_signal w) (w_which_tool w) (w_auto_servers w).
Definition with_w_signal v (w : World) : World :=
  mkWorld (w_time w) (w_epoch_ms w) (w_hour w) (w_traceroute w) (w_ping w) (w_speedtest w)
          (w_fault w) v (w_which_tool w) (w_auto_servers w).

(** *** What the process leaves behind *)

(** A cell handed to [csv.writer.writerow]. *)
Inductive cell := CInt (z : Z) | CReal (q : Q) | CStr (s : string).

Abbreviation csv_row := (list cell).

(** A file below LOG_DIR: the hour directory and the file name. *)
Abbreviation fpath := (string * string)%type.

(** A line given to [_log]. *)
Inductive LogLine :=
| LogSignal
| LogNoTool
| LogNoAutoServers
| LogStart
| LogConfig
| LogSpeedtestConfig (t : Tool) (ids : list string)
| LogSequential
| LogHops (hops : list string)
| LogPing (tag ip : string) (rtt : Q)
| LogPingLost (tag ip : string)
| LogSpeedtestError (server : option string) (error : string)
| LogSpeedtest (server_id server_name : string) (down up ping : Q)
| LogExit.

(** A call of an external tool.  A discovery call carries the clock
    reading [now] of the cycle that makes it. *)
Inductive Call :=
| CallTraceroute (now : Q) (dest : string) (hops : list string)
| CallPing (ip : string)
| CallSpeedtest (t : Tool) (server_id : option string).

(** *** The state of the process and of its storage *)
Record State := mkState {
  world : World;
  (* the SQLite file: what the writer connection sees (with the inserts
     of the open transaction) and what is committed *)
  db_view : Tables;
  disk : Tables;
  (* the files below LOG_DIR, each with the rows written to it *)
  tree : gmap fpath (list csv_row);
  (* the HourlyCSV object: self.current_hour_dir and self.files, which
     maps a file name to the open handle, here the path it was opened on *)
  current_hour_dir : option string;
  files : gmap string fpath;
  (* locals of main and the global flag *)
  last_trace_ts : Q;
  last_speedtest_ts : Q;
  hop_ips : list string;
  _shutdown : bool;
  (* observations *)
  stdout : list LogLine;
  calls : list Call
}.

Definition with_world v (s : State) : State :=
  mkState v (db_view s) (disk s) (tree s) (current_hour_dir s) (files s)
          (last_trace_ts s) (last_speedtest_ts s) (hop_ips s) (_shutdown s) (stdout s) (calls s).
Definition with_db_view v (s : State) : State :=
  mkState (world s) v (disk s) (tree s) (current_hour_dir s) (files s)
          (last_trace_ts s) (last_speedtest_ts s) (hop_ips s) (_shutdown s) (stdout s) (calls s).
Definition with_disk v (s : State) : State :=
  mkState (world s) (db_view s) v (tree s) (current_hour_dir s) (files s)
          (last_trace_ts s) (last_speedtest_ts s) (hop_ips s) (_shutdown s) (stdout s) (calls s).
Definition with_tree v (s : State) : State :=
  mkState (world s) (db_view s) (disk s) v (current_hour_dir s) (files s)
          (last_trace_ts s) (last_speedtest_ts s) (hop_ips s) (_shutdown s) (stdout s) (calls s).
Definition with_current_hour_dir v (s : State) : State :=
  mkState (world s) (db_view s) (disk s) (tree s) v (files s)
          (last_trace_ts s) (last_speedtest_ts s) (hop_ips s) (_shutdown s) (stdout s) (calls s).
Definition with_files v (s : State) : State :=
  mkState (world s) (db_view s) (disk s) (tree s) (current_hour_dir s) v
          (last_trace_ts s) (last_speedtest_ts s) (hop_ips s) (_shutdown s) (stdout s) (calls s).
Definition with_last_trace_ts v (s : State) : State :=
  mkState (world s) (db_view s) (disk s) (tree s) (current_hour_dir s) (files s)
          v (last_speedtest_ts s) (hop_ips s) (_shutdown s) (stdout s) (calls s).
Definition with_last_speedtest_ts v (s : State) : State :=
  mkState (world s) (db_view s) (disk s) (tree s) (current_hour_dir s) (files s)
          (last_trace_ts s) v (hop_ips s) (_shutdown s) (stdout s) (calls s).
Definition with_hop_ips v (s : State) : State :=
  mkState (world s) (db_view s) (disk s) (tree s) (current_hour_dir s) (files s)
          (last_trace_ts s) (last_speedtest_ts s) v (_shutdown s) (stdout s) (calls s).
Definition with_shutdown v (s : State) : State :=
  mkState (world s) (db_view s) (disk s) (tree s) (current_hour_dir s) (files s)
          (last_trace_ts s) (last_speedtest_ts s) (hop_ips s) v (stdout s) (calls s).
Definition with_stdout v (s : State) : State :=
  mkState (world s) (db_view s) (disk s) (tree s) (current_hour_dir s) (files s)
          (last_trace_ts s) (last_speedtest_ts s) (hop_ips s) (_shutdown s) v (calls s).
Definition with_calls v (s : State) : State :=
  mkState (world s) (db_view s) (disk s) (tree s) (current_hour_dir s) (files s)
          (last_trace_ts s) (last_speedtest_ts s) (hop_ips s) (_shutdown s) (stdout s) v.

(** *** The monad of the process: state, and exceptions that stop it *)

Definition M (A : Type) : Type := State → outcome A * State.

#[global] Instance M_ret : MRet M := λ A a st, (Val a, st).
#[global] Instance M_bind : MBind M :=
  λ A B f m st,
    match m st with
    | (Val a, st') => f a st'
    | (Exn e, st') => (Exn e, st')
    end.

Definition get {A} (proj : State → A) : M A := λ st, (Val (proj st), st).
Definition modify (f : State → State) : M unit := λ st, (Val tt, f st).
Definition raise {A} (e : PyExn) : M A := λ st, (Exn e, st).

(** [try: m except Exception: pass] *)
Definition try_pass (m : M unit) : M unit :=
  λ st, match m st with
        | (Exn _, st') => (Val tt, st')
        | r => r
        end.

(** The next answer of one source of the world. *)
Definition ask {A} (default : A) (proj : World → list A)
           (upd : list A → World → World) : M A :=
  λ st, match proj (world st) with
        | [] => (Val default, st)
        | x :: rest => (Val x, with_world (upd rest (world st)) st)
        end.

(** A storage call: it raises [e] when the world says so. *)
Definition fallible (e : PyExn) : M unit :=
  fault ← ask false w_fault with_w_fault;
  if fault : bool then raise e else mret tt.

Fixpoint for_each {A} (l : list A) (body : A → M unit) : M unit :=
  match l with
  | [] => mret tt
  | x :: rest => body x;; for_each rest body
  end.

(** A [for] loop whose body ends with [if ...: break]: the body returns
    whether to break. *)
Fixpoint for_each_break {A} (l : list A) (body : A → M bool) : M unit :=
  match l with
  | [] => mret tt
  | x :: rest => stop ← body x; if stop : bool then mret tt else for_each_break rest body
  end.

(** [enumerate(l, start)] *)
Fixpoint enumerate {A} (start : Z) (l : list A) : list (Z * A) :=
  match l with
  | [] => []
  | x :: rest => (start, x) :: enumerate (start + 1) rest
  end.

(** *** Helpers *)

Section WithConfig.
Context (cfg : Config).

Definition _log (line : LogLine) : M unit :=
  if VERBOSE cfg then modify (λ st, with_stdout (stdout st ++ [line]) st) else mret tt.

Definition _sig_handler : M unit :=
  _log LogSignal;;
  modify (with_shutdown true).

(** Reading the global [_shutdown]: a signal that arrived since the last
    read has run the handler by now. *)
Definition read_shutdown : M bool :=
  arrived ← ask false w_signal with_w_signal;
  (if arrived : bool then _sig_handler else mret tt);;
  get _shutdown.

Definition time_time : M Q := ask 0%Q w_time with_w_time.
Definition _epoch_ms : M Z := ask 0 w_epoch_ms with_w_epoch_ms.

Definition record (c : Call) : M unit :=
  modify (λ st, with_calls (calls st ++ [c]) st).

Definition do_traceroute (now : Q) (dest : string) : M (list string) :=
  hops ← ask [] w_traceroute with_w_traceroute;
  record (CallTraceroute now dest hops);;
  mret hops.

Definition do_ping (ip : string) : M PingResult :=
  r ← ask Lost w_ping with_w_ping;
  record (CallPing ip);;
  mret r.

Definition run_speedtest (t : Tool) (server_id : option string) : M SpeedtestResult :=
  r ← ask (StError "") w_speedtest with_w_speedtest;
  record (CallSpeedtest t server_id);;
  mret r.

(** A float format such as [{x:.2f}]: [None] has no such format. *)
Definition format_float (x : option Q) : M Q :=
  match x with
  | Some q => mret q
  | None => raise TypeError
  end.

(** *** SQLite storage: [cur.execute("INSERT ...")] and [conn.commit()] *)

Definition insert_ping (r : Pings.row) : M unit :=
  fallible OperationalError;;
  if decide (Pings.check r)
  then modify (λ st, with_db_view (add_ping r (db_view st)) st)
  else raise IntegrityError.

Definition insert_trace (r : Traceroutes.row) : M unit :=
  fallible OperationalError;;
  modify (λ st, with_db_view (add_trace r (db_view st)) st).

Definition insert_speedtest (r : Speedtests.row) : M unit :=
  fallible OperationalError;;
  modify (λ st, with_db_view (add_speedtest r (db_view st)) st).

Definition conn_commit : M unit :=
  fallible OperationalError;;
  modify (λ st, with_disk (db_view st) st).

(** *** class HourlyCSV *)

Definition _hour_dir : M string := ask "" w_hour with_w_hour.

(** Flushing and closing a handle may fail; [_rotate] passes over it. *)
Definition _rotate : M unit :=
  modify (with_files ∅).

(** [hour_dir.mkdir(parents=True, exist_ok=True)] *)
Definition mkdir (hour_dir : string) : M unit :=
  fallible OSError.

(** [open(fpath, "a")]: creates the file when it does not exist. *)
Definition open_append (p : fpath) : M fpath :=
  fallible OSError;;
  modify (λ st, with_tree (match tree st !! p with
                           | Some _ => tree st
                           | None => <[p := []]> (tree st)
                           end) st);;
  mret p.

(** [f.tell()] just after [open(fpath, "a")] is the size of the file: it
    is 0 exactly when no row has been written to it. *)
Definition tell_is_zero (f : fpath) : M bool :=
  get (λ st, bool_decide (default [] (tree st !! f) = [])).

Definition writerow (f : fpath) (r : csv_row) : M unit :=
  fallible OSError;;
  modify (λ st, with_tree (<[f := default [] (tree st !! f) ++ [r]]> (tree st)) st).

Definition _ensure_open (name : string) (header : list string) : M fpath :=
  hour_dir ← _hour_dir;
  cur ← get current_hour_dir;
  (if decide (cur ≠ Some hour_dir) then
     _rotate;;
     mkdir hour_dir;;
     modify (with_current_hour_dir (Some hour_dir));;
     modify (with_files ∅)
   else mret tt);;
  opened ← get files;
  (if decide (opened !! name = None) then
     f ← open_append (hour_dir, name);
     empty ← tell_is_zero f;
     (if empty : bool then writerow f (CStr <$> header) else mret tt);;
     modify (λ st, with_files (<[name := f]> (files st)) st)
   else mret tt);;
  opened ← get files;
  match opened !! name with
  | Some f => mret f
  | None => raise KeyError
  end.

Definition pings_header : list string := ["ts_ms"; "target"; "tag"; "rtt_ms"; "success"].
Definition traces_header : list string := ["ts_ms"; "dest"; "hop"; "ip"].
Definition speedtests_header : list string :=
  ["ts_ms"; "tool"; "server_id"; "server_name"; "ping_ms"; "download_mbps";
   "upload_mbps"; "jitter_ms"].

(** [x or ""] on an optional float: [None] and [0.0] both give [""]. *)
Definition float_or_empty (x : option Q) : cell :=
  match x with
  | Some q => if Qeq_bool q 0 then CStr "" else CReal q
  | None => CStr ""
  end.

Definition write_ping (ts_ms : Z) (target tag : string) (rtt_ms : option Q) (success : Z)
  : M unit :=
  writer ← _ensure_open CSV_PINGS_NAME pings_header;
  writerow writer
    [CInt ts_ms; CStr target; CStr tag;
     match rtt_ms with None => CStr "" | Some q => CReal q end; CInt success].

Definition write_trace (ts_ms : Z) (dest : string) (hop : Z) (ip : string) : M unit :=
  writer ← _ensure_open CSV_TRACES_NAME traces_header;
  writerow writer [CInt ts_ms; CStr dest; CInt hop; CStr ip].

Definition write_speedtest (ts_ms : Z) (tool server_id server_name : string)
           (ping_ms download_mbps upload_mbps jitter_ms : option Q) : M unit :=
  writer ← _ensure_open CSV_SPEEDTESTS_NAME speedtests_header;
  writerow writer
    [CInt ts_ms; CStr tool; CStr server_id; CStr server_name;
     float_or_empty ping_ms; float_or_empty download_mbps;
     float_or_empty upload_mbps; float_or_empty jitter_ms].

Definition close : M unit := _rotate.

(** *** main *)

(** Lines 396-404: one path discovery. *)
Definition refresh_hops (now : Q) : M unit :=
  hops ← do_traceroute now (DEST_HOST cfg);
  ts_ms ← _epoch_ms;
  modify (with_hop_ips (take 3 hops));;
  hips ← get hop_ips;
  _log (LogHops hips);;
  for_each (enumerate 1 hips) (λ '(i, ip),
    insert_trace (Traceroutes.mk ts_ms (DEST_HOST cfg) i (Some ip));;
    write_trace ts_ms (DEST_HOST cfg) i ip);;
  conn_commit;;
  modify (with_last_trace_ts now).

(** [now - last_trace_ts >= TRACEROUTE_REFRESH_SEC or not hop_ips] *)
Definition trace_due (now : Q) (st : State) : bool :=
  Qle_bool (inject_Z (TRACEROUTE_REFRESH_SEC cfg)) (now - last_trace_ts st)
  || bool_decide (hop_ips st = []).

Definition refresh_if_due (now : Q) : M unit :=
  due ← get (trace_due now);
  if due : bool then refresh_hops now else mret tt.

(** Lines 406-409. *)
Definition targets (hips : list string) : list (string * string) :=
  ((λ '(idx, ip), (ip, "hop" +:+ pretty idx)) <$> enumerate 1 hips)
  ++ [(DEST_HOST cfg, "dest")].

(** Lines 412-422: the body of the loop over the targets; it returns the
    value of [_shutdown] read at its end. *)
Definition ping_target (ip tag : string) : M bool :=
  ts_ms ← _epoch_ms;
  r ← do_ping ip;
  let '(ok, rtt) := unpack r in
  insert_ping (Pings.mk ts_ms ip tag (if ok then rtt else None) (if ok then 1 else 0));;
  write_ping ts_ms ip tag (if ok then rtt else None) (if ok then 1 else 0);;
  (if ok then
     t ← format_float rtt;
     _log (LogPing tag ip t)
   else _log (LogPingLost tag ip));;
  read_shutdown.

Definition ping_loop (ts : list (string * string)) : M unit :=
  for_each_break ts (λ '(ip, tag), ping_target ip tag).

Definition ping_phase : M unit :=
  hips ← get hop_ips;
  ping_loop (targets hips);;
  conn_commit.

(** Lines 430-440 and 444-454: one speedtest, persisted or logged. *)
Definition speedtest_once (t : Tool) (server : option Server) : M unit :=
  ts_ms ← _epoch_ms;
  res ← run_speedtest t (id <$> server);
  match res with
  | StError error => _log (LogSpeedtestError (id <$> server) error)
  | StData d =>
      down ← format_float (r_download_mbps d);
      up ← format_float (r_upload_mbps d);
      ping ← format_float (r_ping_ms d);
      _log (LogSpeedtest (r_server_id d) (r_server_name d) down up ping);;
      insert_speedtest
        (Speedtests.mk ts_ms (r_tool d) (Some (r_server_id d)) (Some (r_server_name d))
           (r_ping_ms d) (r_download_mbps d) (r_upload_mbps d) (r_jitter_ms d));;
      write_speedtest ts_ms (r_tool d) (r_server_id d) (r_server_name d)
        (r_ping_ms d) (r_download_mbps d) (r_upload_mbps d) (r_jitter_ms d)
  end;;
  conn_commit.

Definition speedtest_batch (t : Tool) (servers : list Server) : M unit :=
  match servers with
  | [] => speedtest_once t None
  | _ :: _ =>
      for_each_break servers (λ s, speedtest_once t (Some s);; read_shutdown)
  end.

(** Lines 427-455. *)
Definition speedtest_phase (tool : option Tool) (servers : list Server) (now : Q)
  : M unit :=
  match tool with
  | None => mret tt
  | Some t =>
      last ← get last_speedtest_ts;
      if Qle_bool (inject_Z (SPEEDTEST_INTERVAL_SEC cfg)) (now - last) then
        speedtest_batch t servers;;
        modify (with_last_speedtest_ts now)
      else mret tt
  end.

(** Lines 457-460: [time.sleep(0.1)] until the interval is over or
    [_shutdown] is seen. *)
Definition idle_wait : M unit :=
  for_each_break (seq 0 (Z.to_nat (PING_INTERVAL_SEC cfg * 10))) (λ _, read_shutdown).

(** The body of [while not _shutdown]. *)
Definition loop_body (tool : option Tool) (servers : list Server) : M unit :=
  now ← time_time;
  refresh_if_due now;;
  ping_phase;;
  speedtest_phase tool servers now;;
  idle_wait.

(** [fuel] bounds the number of cycles; the result tells whether the loop
    was left because [_shutdown] was set. *)
Fixpoint main_loop (tool : option Tool) (servers : list Server) (fuel : nat) : M bool :=
  match fuel with
  | O => mret false
  | S fuel' =>
      stop ← read_shutdown;
      if stop : bool then mret true
      else loop_body tool servers;; main_loop tool servers fuel'
  end.

(** Lines 378-384. *)
Definition select_servers (tool : option Tool) : M (list Server) :=
  match tool with
  | None => mret []
  | Some t =>
      match SPEEDTEST_SERVER_IDS cfg with
      | _ :: _ =>
          mret ((λ sid, mkServer (string_of_list_ascii (PyInt.strip (list_ascii_of_string sid))) "")
                  <$> SPEEDTEST_SERVER_IDS cfg)
      | [] =>
          if AUTO_SELECT_SPEEDTEST_SERVERS cfg then
            servers ← get (λ st, w_auto_servers (world st));
            (if bool_decide (servers = []) then _log LogNoAutoServers else mret tt);;
            mret servers
          else mret []
      end
  end.

(** Lines 462-468. *)
Definition shut_down : M unit :=
  try_pass conn_commit;;
  close;;
  _log LogExit.

Definition main (fuel : nat) : M bool :=
  tool ← get (λ st, w_which_tool (world st));
  (if tool is None then _log LogNoTool else mret tt);;
  servers ← select_servers tool;
  _log LogStart;;
  _log LogConfig;;
  (match tool with
   | Some t => _log (LogSpeedtestConfig t (id <$> servers));; _log LogSequential
   | None => mret tt
   end);;
  left ← main_loop tool servers fuel;
  if left : bool then shut_down;; mret true else mret false.

End WithConfig.

(** The process at the start of [main]: [init_db] opens the database file,
    creating the tables when the file is new, and [HourlyCSV(LOG_DIR)]
    holds no handle. *)
Definition boot (w : World) (db_file : option Tables) (tr : gmap fpath (list csv_row))
  : State :=
  {| world := w;
     db_view := default empty_tables db_file;
     disk := default empty_tables db_file;
     tree := tr;
     current_hour_dir := None;
     files := ∅;
     last_trace_ts := 0%Q;
     last_speedtest_ts := 0%Q;
     hop_ips := [];
     _shutdown := false;
     stdout := [];
     calls := [] |}.

End Collector.

(** * Vocabulary of the statements about the query service *)

Section QueryVocabulary.
Import WebUI.

Definition c8_table : Tables :=
  mkTables [Pings.mk 3000 "8.8.8.8" "dest" (Some (9 # 1)%Q) 1;
            Pings.mk 1000 "1.1.1.1" "hop1" (Some (25 # 2)%Q) 1;
            Pings.mk 1000 "8.8.8.8" "dest" None 0] [] [].

Definition c4_table : Tables :=
  mkTables []
    [Traceroutes.mk 100 "8.8.8.8" 1 (Some "10.0.0.1");
     Traceroutes.mk 100 "8.8.8.8" 2 (Some "10.0.0.2");
     Traceroutes.mk 400 "8.8.8.8" 2 (Some "10.9.9.2");
     Traceroutes.mk 400 "8.8.8.8" 1 (Some "10.0.0.1")] [].

(** The rows of the stored table that the aggregated query puts in the
    group of the output row [b]. *)
Definition in_group (t : Tables) (start_ms end_ms bucket_ms : Z) (b : bucket_row)
           (r : Pings.row) : Prop :=
  r ∈ pings t ∧ Sql.between start_ms end_ms (Pings.ts_ms r) ∧
  group_key bucket_ms r = (bucket_ts b, b_tag b).

Definition c2_table : Tables :=
  mkTables [Pings.mk 0 "8.8.8.8" "dest" (Some (10 # 1)%Q) 1;
            Pings.mk 1000 "8.8.8.8" "dest" (Some (20 # 1)%Q) 1;
            Pings.mk 2000 "8.8.8.8" "dest" None 0;
            Pings.mk 3000 "8.8.8.8" "dest" None 0] [] [].

Definition c2_lost_bucket : bucket_row := mkBucket (Some 2000) "dest" None 0 2.

(** A table the schema accepts: one row with success = 1 and no
    round-trip time. *)
Definition c2_odd_table : Tables :=
  mkTables [Pings.mk 0 "8.8.8.8" "dest" None 1] [] [].

(** The conversions of the parameters of a request succeed. *)
Definition params_convert (req : Request) : Prop :=
  ∀ key default, ∃ z, int_param (qs req) key default = Val z.

Definition c9_request : Request :=
  mkRequest "/api/pings" (<["start" := ["1000"]]> (<["bucket_ms" := ["60000"]]> ∅)).

(** A request to /api/pings whose only parameter is [key], with the
    value "abc". *)
Definition malformed (key : string) : Request :=
  mkRequest "/api/pings" {[ key := ["abc"] ]}.

(** The two scenarios of the design document. *)
Definition scenario_raw : Tables :=
  mkTables [Pings.mk 1000 "1.1.1.1" "hop1" (Some (25 # 2)%Q) 1;
            Pings.mk 1000 "8.8.8.8" "dest" None 0] [] [].

Definition scenario_bucketed : Tables :=
  mkTables [Pings.mk 0 "8.8.8.8" "dest" (Some (10 # 1)%Q) 1;
            Pings.mk 1000 "8.8.8.8" "dest" (Some (20 # 1)%Q) 1;
            Pings.mk 2000 "8.8.8.8" "dest" (Some (30 # 1)%Q) 1;
            Pings.mk 3000 "8.8.8.8" "dest" (Some (50 # 1)%Q) 1] [] [].

End QueryVocabulary.


(** * A program logic for the process monad *)

Section LogicVocabulary.
Import Collector.

(** [triple P m Q E]: started in a state satisfying [P], [m] ends in a
    state satisfying [Q] when it returns and [E] when it raises. *)
Definition triple {A} (P : State → Prop) (m : M A)
           (Q : A → State → Prop) (E : PyExn → State → Prop) : Prop :=
  ∀ st, P st →
        match m st with
        | (Val a, st') => Q a st'
        | (Exn e, st') => E e st'
        end.

(** [m] keeps [I], whether it returns or raises. *)
Definition preserves {A} (I : State → Prop) (m : M A) : Prop :=
  triple I m (λ _, I) (λ _, I).

(** No storage call of the rest of the run fails. *)
Definition fault_free (st : State) : Prop :=
  Forall (λ b, b = false) (w_fault (world st)).

End LogicVocabulary.


(** * Vocabulary of the statements about the collector *)

Section CollectorVocabulary.
Import Collector.

#[global] Instance Q_eq_dec : EqDecision Q.
Proof. solve_decision. Defined.

#[global] Instance cell_eq_dec : EqDecision cell.
Proof. solve_decision. Defined.

(** *** The flat files *)

(** The header row of the file called [name]. *)
Definition header_row (name : string) : csv_row :=
  CStr <$> (if decide (name = CSV_PINGS_NAME) then pings_header
            else if decide (name = CSV_TRACES_NAME) then traces_header
            else speedtests_header).

Definition is_header_row (r : csv_row) : Prop :=
  r ∈ [CStr <$> pings_header; CStr <$> traces_header; CStr <$> speedtests_header].

(** The number of header rows of a file. *)
Definition header_count (rows : list csv_row) : nat :=
  length (filter is_header_row rows).

(** A row for one event starts with its timestamp. *)
Definition is_data_row (r : csv_row) : Prop :=
  ∃ z rest, r = CInt z :: rest.

(** A file is empty, or holds its header row followed by data rows. *)
Definition file_ok (p : fpath) (rows : list csv_row) : Prop :=
  rows = [] ∨ ∃ data, rows = header_row p.2 :: data ∧ Forall is_data_row data.

Definition files_ok (tr : gmap fpath (list csv_row)) : Prop :=
  ∀ p rows, tr !! p = Some rows → file_ok p rows.

Definition no_empty_file (tr : gmap fpath (list csv_row)) : Prop :=
  ∀ p rows, tr !! p = Some rows → rows ≠ [].

(** Every open handle was opened on a file of its own name, which by now
    holds a row. *)
Definition handles_ok (st : State) : Prop :=
  ∀ n f, files st !! n = Some f →
         f.2 = n ∧ ∃ rows, tree st !! f = Some rows ∧ rows ≠ [].

Definition tree_ok (st : State) : Prop :=
  files_ok (tree st) ∧ handles_ok st.

Definition full_files (st : State) : Prop :=
  no_empty_file (tree st) ∧ fault_free st.

(** All files but [f] hold a row, [f] exists, and no storage call fails. *)
Definition full_but (f : fpath) (st : State) : Prop :=
  (∀ p rows, tree st !! p = Some rows → p ≠ f → rows ≠ []) ∧
  is_Some (tree st !! f) ∧ fault_free st.

(** One life of the process: [main] run for at most [fuel] cycles in the
    world [w], on the database file and the tree left by the life
    before; what it leaves is the committed tables and the tree. *)
Definition lifetime (run : Config * World * nat)
           (s : option Tables * gmap fpath (list csv_row))
  : option Tables * gmap fpath (list csv_row) :=
  let '(cfg, w, fuel) := run in
  let st' := (main cfg fuel (boot w s.1 s.2)).2 in
  (Some (disk st'), tree st').

Definition lifetimes (runs : list (Config * World * nat))
           (s : option Tables * gmap fpath (list csv_row))
  : option Tables * gmap fpath (list csv_row) :=
  foldl (λ s run, lifetime run s) s runs.

End CollectorVocabulary.

Section DiscoveryVocabulary.
Import Collector.

(** The rows one discovery inserts for the hops it keeps. *)
Definition trace_rows (cfg : Config) (ts_ms : Z) (hips : list string)
  : list Traceroutes.row :=
  (λ '(i, ip), Traceroutes.mk ts_ms (DEST_HOST cfg) i (Some ip)) <$> enumerate 1 hips.

(** The traceroutes table, as the connection sees it, is [base] followed
    by [rows]. *)
Definition added (base rows : list Traceroutes.row) (st : State) : Prop :=
  traceroutes (db_view st) = base ++ rows.

(** What is known before a discovery: the table and the next answers of
    the tool and of the clock. *)
Definition before_discovery (base : list Traceroutes.row) (hops : list string) (ts : Z)
           (st : State) : Prop :=
  traceroutes (db_view st) = base ∧
  hd [] (w_traceroute (world st)) = hops ∧
  hd 0 (w_epoch_ms (world st)) = ts.

End DiscoveryVocabulary.

Section SchedulingVocabulary.
Import Collector.

(** The discoveries among the calls: the clock reading of the cycle and
    the addresses the tool resolved. *)
Definition discovery_of (c : Call) : option (Q * list string) :=
  match c with
  | CallTraceroute now _ hops => Some (now, hops)
  | _ => None
  end.

Definition discoveries (cs : list Call) : list (Q * list string) :=
  omap discovery_of cs.

(** After a discovery that resolved a hop, the next discovery comes no
    sooner than [refresh] seconds later. *)
Definition spaced (refresh : Z) (ds : list (Q * list string)) : Prop :=
  ∀ i a b, ds !! i = Some a → ds !! S i = Some b → a.2 ≠ [] →
           (inject_Z refresh <= b.1 - a.1)%Q.

Definition spaced_calls (cfg : Config) (st : State) : Prop :=
  spaced (TRACEROUTE_REFRESH_SEC cfg) (discoveries (calls st)).

(** The locals of [main] hold the clock reading and the kept hops of the
    last discovery. *)
Definition linked (st : State) : Prop :=
  match last (discoveries (calls st)) with
  | Some (t, hops) => last_trace_ts st = t ∧ hop_ips st = take 3 hops
  | None => True
  end.

Definition discovery_inv (cfg : Config) (st : State) : Prop :=
  spaced_calls cfg st ∧ linked st.

(** The state in the middle of a discovery made at [now]. *)
Definition discovering (cfg : Config) (now : Q) (hops : list string) (st : State) : Prop :=
  spaced_calls cfg st ∧ last (discoveries (calls st)) = Some (now, hops).

(** [calls] has grown from [base] by the call [c] and maybe more. *)
Definition called_after (base : list Call) (c : Call) (st : State) : Prop :=
  ∃ rest, calls st = base ++ c :: rest.

Definition c1_config : Config :=
  mkConfig "8.8.8.8" 3 300 1800 [] false 2 true.

(** Two cycles three seconds apart; the tool resolves nothing. *)
Definition c1_world : World :=
  mkWorld [1000%Q; 1003%Q] [] [] [[]; []] [] [] [] [] None [].

(** Two cycles 300 seconds apart; the tool resolves one hop. *)
Definition c1_world_resolved : World :=
  mkWorld [1000%Q; 1300%Q] [] [] [["10.0.0.1"]; ["10.0.0.1"]] [] [] [] [] None [].

End SchedulingVocabulary.

Section StorageFailureVocabulary.
Import Collector.

(** The files, the committed tables and the log are those of [st0]. *)
Definition storage_as (st0 st : State) : Prop :=
  tree st = tree st0 ∧ disk st = disk st0 ∧ stdout st = stdout st0.

(** What is left when the INSERT of the record of [ip] has raised. *)
Definition insert_failed (st0 : State) (ip : string) (e : PyExn) (st : State) : Prop :=
  e = OperationalError ∧ storage_as st0 st ∧ db_view st = db_view st0 ∧
  calls st = calls st0 ++ [CallPing ip].

(** What is left when the CSV write of the record of [ip] has raised. *)
Definition csv_failed (st0 : State) (ip tag : string) (e : PyExn) (st : State) : Prop :=
  e = OSError ∧ storage_as st0 st ∧
  (∃ row, db_view st = add_ping row (db_view st0) ∧
          Pings.target row = ip ∧ Pings.tag row = tag) ∧
  calls st = calls st0 ++ [CallPing ip].

(** The state while the CSV write of the record is under way: the next
    storage call will raise, and only the handles may have changed. *)
Definition csv_pending (st0 : State) (ip tag : string) (st : State) : Prop :=
  hd false (w_fault (world st)) = true ∧ storage_as st0 st ∧
  (∃ row, db_view st = add_ping row (db_view st0) ∧
          Pings.target row = ip ∧ Pings.tag row = tag) ∧
  calls st = calls st0 ++ [CallPing ip].

Definition c3_config : Config :=
  mkConfig "8.8.8.8" 3 300 1800 [] false 2 true.

(** One cycle: the discovery resolves one hop and its six storage calls
    succeed; then the INSERT of the first ping raises. *)
Definition c3_world_insert : World :=
  mkWorld [1000%Q] [10; 11; 12] ["20250820_11"; "20250820_11"; "20250820_11"]
          [["10.0.0.1"]] [Reply (7 # 2); Reply (9 # 1)] []
          [false; false; false; false; false; false; true] [] None [].

(** The same cycle, but the INSERT of the first ping succeeds and the
    [open] of pings.csv raises. *)
Definition c3_world_csv : World :=
  mkWorld [1000%Q] [10; 11; 12] ["20250820_11"; "20250820_11"; "20250820_11"]
          [["10.0.0.1"]] [Reply (7 # 2); Reply (9 # 1)] []
          [false; false; false; false; false; false; false; true] [] None [].

(** A process about to probe its targets, in a world where the next
    storage call raises. *)
Definition c3_state : State :=
  boot (mkWorld [] [10] [] [] [Reply (7 # 2)] [] [true] [] None []) None ∅.

(** The same process with one hop known, at the start of a cycle. *)
Definition c3_state_hop : State := with_hop_ips ["10.0.0.1"] c3_state.

(** A process in a world where the second storage call to come raises. *)
Definition c3_state_csv : State :=
  boot (mkWorld [] [10] [] [] [Reply (7 # 2)] [] [false; true] [] None []) None ∅.

End StorageFailureVocabulary.

Section ThroughputVocabulary.
Import Collector.

(** No storage fault and no signal is to come, and none has come. *)
Definition quiet (st : State) : Prop :=
  w_fault (world st) = [] ∧ w_signal (world st) = [] ∧ _shutdown st = false.

(** What a batch of speedtests reads and writes. *)
Definition batch_view (answers : list SpeedtestResult) (epochs : list Z)
           (rows : list Speedtests.row) (cs : list Call) (st : State) : Prop :=
  w_speedtest (world st) = answers ∧ w_epoch_ms (world st) = epochs ∧
  speedtests (db_view st) = rows ∧ calls st = cs ∧ quiet st.

(** The row inserted for a result. *)
Definition speedtest_row (ts_ms : Z) (d : SpeedtestData) : Speedtests.row :=
  Speedtests.mk ts_ms (r_tool d) (Some (r_server_id d)) (Some (r_server_name d))
                (r_ping_ms d) (r_download_mbps d) (r_upload_mbps d) (r_jitter_ms d).

Definition c7_config : Config :=
  mkConfig "8.8.8.8" 3 300 1800 ["A"; "B"] true 2 true.

(** The probe of server B returns a result without a download rate: the
    dict [run_speedtest] builds when the bandwidth is missing or 0. *)
Definition c7_partial : SpeedtestData :=
  mkSpeedtestData "ookla" "B" "Server B" (Some (23 # 2)%Q) (Some (1 # 2)%Q)
                  None (Some (17 # 1)%Q).

Definition c7_complete : SpeedtestData :=
  mkSpeedtestData "ookla" "B" "Server B" (Some (23 # 2)%Q) (Some (1 # 2)%Q)
                  (Some (93 # 1)%Q) (Some (17 # 1)%Q).

(** One cycle in which the speedtests are due: the probe of server A
    returns an error, the probe of server B returns [b]. *)
Definition c7_world (b : SpeedtestData) : World :=
  mkWorld [2000%Q] [10; 11; 12; 13] ["20250820_11"; "20250820_11"] [[]] [Lost]
          [StError "rc=1 err=timeout"; StData b] [] [] (Some ookla) [].

End ThroughputVocabulary.

Section ExampleVocabulary.
Import Collector.

(** A row as [main] writes it: it passes the CHECK of the table, and a
    successful ping has its round-trip time. *)
Definition written_row (r : Pings.row) : Prop :=
  Pings.check r ∧ (Pings.success r = 1 → Pings.rtt_ms r ≠ None).

Definition pings_written (st : State) : Prop :=
  Forall written_row (pings (db_view st)) ∧
  Forall written_row (pings (disk st)).

Definition c5_config : Config :=
  mkConfig "8.8.8.8" 3 300 1800 [] false 2 true.

(** A process at its first cycle; the tool resolves four addresses. *)
Definition c5_state : State :=
  boot (mkWorld [1000%Q] [10; 11; 12; 13; 14] ["20250820_11"]
                [["10.0.0.1"; "10.0.0.2"; "10.0.0.3"; "10.0.0.4"]]
                [Lost; Lost; Lost; Lost] [] [] [] None [])
       None ∅.

(** Two lives of the process without storage faults.  The first writes
    traceroutes.csv and pings.csv in hour 11.  The second starts in the
    same hour, appends to that traceroutes.csv, and then the hour
    changes. *)
Definition c6_runs : list (Config * World * nat) :=
  [ (c5_config,
     mkWorld [1000%Q] [10; 11; 12] ["20250820_11"; "20250820_11"; "20250820_11"]
             [["10.0.0.1"]] [Reply (7 # 2); Lost] [] [] [] None [],
     1%nat);
    (c5_config,
     mkWorld [2000%Q] [20; 21; 22] ["20250820_11"; "20250820_12"; "20250820_12"]
             [["10.0.0.9"]] [Lost; Reply (5 # 1)] [] [] [] None [],
     1%nat) ].

(** A process started on a tree that holds one file, with its header. *)
Definition c6_state : State :=
  boot (mkWorld [] [] ["20250820_11"] [] [] [] [] [] None []) None
       {[ ("20250820_11", "pings.csv") := [CStr <$> pings_header] ]}.

Definition c6_traceroutes_csv : list csv_row :=
  [ CStr <$> traces_header;
    [CInt 10; CStr "8.8.8.8"; CInt 1; CStr "10.0.0.1"];
    [CInt 20; CStr "8.8.8.8"; CInt 1; CStr "10.0.0.9"] ].

End ExampleVocabulary.


(** * Vocabulary of further statements about the query service *)

Section ResponseVocabulary.
Import WebUI.

Definition api_paths : list string :=
  ["/api/pings"; "/api/speedtests"; "/api/latest_traceroute"].

Definition is_array (j : json) : Prop := ∃ l, j = JArr l.

(** A request whose parameters are written in decimal, as the dashboard
    writes them. *)
Definition decimal_request (p : string) (params : list (string * Z)) : Request :=
  mkRequest p (list_to_map ((λ '(k, z), (k, [pretty z])) <$> params)).

(** The output rows of the aggregated query with the tag [tag]. *)
Definition with_tag (tag : string) (rows : list bucket_row) : list bucket_row :=
  filter (λ b, b_tag b = tag) rows.

Definition speedtests_table : Tables :=
  mkTables [] []
    [Speedtests.mk 7000 "ookla" (Some "42") (Some "ISP - City") (Some (12 # 1)%Q)
                   (Some (93 # 1)%Q) (Some (17 # 1)%Q) (Some (1 # 2)%Q);
     Speedtests.mk 1000 "ookla" (Some "42") (Some "ISP - City") None
                   (Some (90 # 1)%Q) (Some (18 # 1)%Q) None;
     Speedtests.mk 9000 "speedtest-cli" (Some "7") (Some "Other") (Some (30 # 1)%Q)
                   (Some (50 # 1)%Q) (Some (5 # 1)%Q) None].

Definition mixed_table : Tables :=
  mkTables [Pings.mk 0 "10.0.0.1" "hop1" (Some (2 # 1)%Q) 1;
            Pings.mk 500 "8.8.8.8" "dest" (Some (10 # 1)%Q) 1;
            Pings.mk 1500 "8.8.8.8" "dest" None 0;
            Pings.mk 2500 "8.8.8.8" "dest" (Some (20 # 1)%Q) 1] [] [].

End ResponseVocabulary.

(** * Vocabulary of further statements about the collector *)

Section StorageVocabulary.
Import Collector.

(** The tags of the schema comment: hop1/hop2/hop3/dest. *)
Definition ping_tags : list string := ["hop1"; "hop2"; "hop3"; "dest"].

(** A pings row as the collector builds it. *)
Definition collector_row (r : Pings.row) : Prop :=
  Pings.tag r ∈ ping_tags ∧ Pings.check r ∧
  (Pings.success r = 1 ↔ Pings.rtt_ms r ≠ None).

Definition rows_tagged (st : State) : Prop :=
  Forall collector_row (pings (db_view st)) ∧
  Forall collector_row (pings (disk st)) ∧
  (length (hop_ips st) ≤ 3)%nat.

(** Every table of [t] starts with the rows of the same table of [t0],
    in the same order. *)
Definition tables_prefix (t0 t : Tables) : Prop :=
  pings t0 `prefix_of` pings t ∧
  traceroutes t0 `prefix_of` traceroutes t ∧
  speedtests t0 `prefix_of` speedtests t.

(** The committed tables extend [t0], and the tables the connection sees
    extend the committed ones. *)
Definition db_grows (t0 : Tables) (st : State) : Prop :=
  tables_prefix t0 (disk st) ∧ tables_prefix (disk st) (db_view st).

(** Every file of [tr0] is still there and starts with the rows it had. *)
Definition tree_extends (tr0 tr : gmap fpath (list csv_row)) : Prop :=
  ∀ p rows, tr0 !! p = Some rows → ∃ more, tr !! p = Some (rows ++ more).

Definition is_speedtest_call (c : Call) : bool :=
  match c with CallSpeedtest _ _ => true | _ => false end.

(** The speedtest probes among the calls. *)
Definition speedtest_calls (cs : list Call) : list Call :=
  filter (λ c, is_speedtest_call c = true) cs.

(** No probe was made and the speedtests table is that of [rows]. *)
Definition no_speedtest (rows : list Speedtests.row) (st : State) : Prop :=
  speedtest_calls (calls st) = [] ∧ speedtests (db_view st) = rows ∧
  speedtests (disk st) = rows.

(** The probes made so far and the time of the last batch. *)
Definition speedtests_at (cs : list Call) (last : Q) (st : State) : Prop :=
  speedtest_calls (calls st) = cs ∧ last_speedtest_ts st = last.

(** Every open handle is on the file of its name in the current hour
    directory. *)
Definition handles_current (st : State) : Prop :=
  ∀ n f, files st !! n = Some f → current_hour_dir st = Some f.1 ∧ f.2 = n.

(** The CSV row of a pings row. *)
Definition csv_of_ping (r : Pings.row) : csv_row :=
  [CInt (Pings.ts_ms r); CStr (Pings.target r); CStr (Pings.tag r);
   match Pings.rtt_ms r with None => CStr "" | Some q => CReal q end;
   CInt (Pings.success r)].

(** What a file that held [before] holds once it has been opened for
    writing: a header when it was missing or empty. *)
Definition held_rows (header : list string) (before : list csv_row) : list csv_row :=
  if decide (before = []) then [CStr <$> header] else before.

(** What it holds after [row] has then been written to it. *)
Definition appended (header : list string) (before : list csv_row) (row : csv_row)
  : list csv_row :=
  held_rows header before ++ [row].

(** The files and the tables are those given. *)
Definition kept (tr0 : gmap fpath (list csv_row)) (dv dk : Tables) (st : State) : Prop :=
  tree st = tr0 ∧ db_view st = dv ∧ disk st = dk.

(** The file [p] holds [rows]; the other files are those of [tr0] and the
    tables are those given. *)
Definition holds_at (p : fpath) (rows : list csv_row)
           (tr0 : gmap fpath (list csv_row)) (dv dk : Tables) (st : State) : Prop :=
  tree st !! p = Some rows ∧ (∀ q, q ≠ p → tree st !! q = tr0 !! q) ∧
  db_view st = dv ∧ disk st = dk.

End StorageVocabulary.

Section ShutdownVocabulary.
Import Collector.

(** Between [st0] and [st] no tool was called and nothing was stored. *)
Definition idle_as (st0 st : State) : Prop :=
  calls st = calls st0 ∧ db_view st = db_view st0 ∧ disk st = disk st0 ∧
  tree st = tree st0.

(** A process that has been asked to stop, with the calls [cs] made. *)
Definition stopping (cs : list Call) (st : State) : Prop :=
  _shutdown st = true ∧ calls st = cs.

Definition x_config : Config :=
  mkConfig "8.8.8.8" 3 300 1800 ["7"; "9"] true 2 true.

(** A process that has just been asked to stop; its speedtests are due. *)
Definition x_stopping_state : State :=
  with_shutdown true
    (boot (mkWorld [] [10; 11] ["20250820_11"] [] []
                   [StData c7_complete; StData c7_complete] [] [] (Some ookla) [])
          None ∅).

End ShutdownVocabulary.

Section SpeedtestDueVocabulary.
Import Collector.

(** A process whose last batch of speedtests was read at 1000 s, at the
    start of a cycle read at 1500 s. *)
Definition x_not_due_state : State :=
  with_last_speedtest_ts 1000
    (boot (mkWorld [1500%Q] [10; 11] ["20250820_11"] [[]] [Lost]
                   [StData c7_complete] [] [] (Some ookla) [])
          None ∅).

(** A world in which the signal arrives during the first cycle. *)
Definition x_signal_world : World :=
  mkWorld [1000%Q] [10; 11] ["20250820_11"] [[]] [Reply (7 # 2)] []
          [] [false; true] None [].

End SpeedtestDueVocabulary.

Section HourFilesVocabulary.
Import Collector.

(** The handles of the HourlyCSV object are sound: each is on a file that
    holds a row, under its own name, in the current hour directory. *)
Definition handles_sound (st : State) : Prop :=
  handles_ok st ∧ handles_current st.

(** What [m] does when it returns, started with sound handles: it appends
    [row] to the file [name] of the hour directory read from the clock,
    after the header when that file was missing or empty, and leaves
    every other file and the database as they are. *)
Definition writes_row (m : M unit) (name : string) (header : list string) (row : csv_row)
  : Prop :=
  ∀ st st', handles_sound st → m st = (Val tt, st') →
    let p := (hd "" (w_hour (world st)), name) in
    tree st' !! p = Some (appended header (default [] (tree st !! p)) row) ∧
    (∀ q, q ≠ p → tree st' !! q = tree st !! q) ∧
    db_view st' = db_view st ∧ disk st' = disk st ∧ handles_sound st'.

(** A process started in hour 11 on a tree that holds pings.csv of hour
    10; the clock reads hour 11. *)
Definition x_hour_state : State :=
  boot (mkWorld [] [] ["20250820_11"] [] [] [] [] [] None []) None
       {[ ("20250820_10", "pings.csv") :=
            [CStr <$> pings_header; [CInt 5; CStr "8.8.8.8"; CStr "dest"; CStr ""; CInt 0]] ]}.

End HourFilesVocabulary.

Section SinksVocabulary.
Import Collector.

(** The pings row built from the clock reading [ts_ms] and the answer
    [r] of the probe. *)
Definition ping_row (ts_ms : Z) (ip tag : string) (r : PingResult) : Pings.row :=
  Pings.mk ts_ms ip tag (unpack r).2 (if (unpack r).1 then 1 else 0).

(** What a probe of a target starts from: the hour the clock reads, the
    files, the table and the calls made. *)
Definition probe_view (h : string) (tr : gmap fpath (list csv_row)) (dv : Tables)
           (cs : list Call) (st : State) : Prop :=
  hd "" (w_hour (world st)) = h ∧ tree st = tr ∧ db_view st = dv ∧ calls st = cs ∧
  handles_sound st.

(** What a probe leaves: the row in the table and in the file [p], and
    the call. *)
Definition probe_stored (p : fpath) (rows : list csv_row) (dv : Tables) (cs : list Call)
           (st : State) : Prop :=
  tree st !! p = Some rows ∧ db_view st = dv ∧ calls st = cs.

(** A process at its first probe: the clock reads 10 ms and hour 11, and
    the target answers in 3.5 ms. *)
Definition x_probe_state : State :=
  boot (mkWorld [] [10] ["20250820_11"] [] [Reply (7 # 2)] [] [] [] None []) None ∅.

End SinksVocabulary.

(** * The command helpers of the collector and what they parse

    The outputs of the external commands are read as ASCII text. *)

Module Text.

(** The line boundaries of [str.splitlines] among the ASCII characters:
    \n, \v, \f, \r, \x1c, \x1d, \x1e; \r\n counts as one. *)
Definition is_linebreak (c : ascii) : bool :=
  let n := N_of_ascii c in
  ((10 <=? n) && (n <=? 13) || (28 <=? n) && (n <=? 30))%N.

(** [cur] holds the characters of the line being read, last first. *)
Fixpoint splitlines_from (cur : list ascii) (l : list ascii) : list (list ascii) :=
  match l with
  | [] => match cur with [] => [] | _ => [rev cur] end
  | c :: rest =>
      if is_linebreak c then
        rev cur ::
        match rest with
        | c' :: rest' =>
            if bool_decide (c = "013"%char ∧ c' = "010"%char)
            then splitlines_from [] rest'
            else splitlines_from [] rest
        | [] => splitlines_from [] rest
        end
      else splitlines_from (c :: cur) rest
  end.

Definition splitlines (s : list ascii) : list (list ascii) := splitlines_from [] s.

(** [sub in s] *)
Fixpoint contains (sub s : list ascii) : bool :=
  bool_decide (sub `prefix_of` s) ||
  match s with
  | [] => false
  | _ :: rest => contains sub rest
  end.

(** [s.split(sep)] for a separator of one character. *)
Fixpoint split_from (sep : ascii) (cur : list ascii) (l : list ascii) : list (list ascii) :=
  match l with
  | [] => [rev cur]
  | c :: rest =>
      if bool_decide (c = sep) then rev cur :: split_from sep [] rest
      else split_from sep (c :: cur) rest
  end.

Definition split (sep : ascii) (s : list ascii) : list (list ascii) := split_from sep [] s.

(** [sep.join(parts)] *)
Fixpoint join (sep : string) (parts : list string) : string :=
  match parts with
  | [] => ""
  | [x] => x
  | x :: rest => x +:+ sep +:+ join sep rest
  end.

Definition is_digit (c : ascii) : bool :=
  let n := N_of_ascii c in ((48 <=? n) && (n <=? 57))%N.

End Text.

(** The regular expressions of the collector are sequences of character
    classes, each repeated between [rmin] and [rmax] times, greedily. *)
Module Re.

Record item := mkItem {
  cls : ascii → bool;
  rmin : nat;
  rmax : option nat       (* [None]: no upper bound *)
}.

Definition lit (c : ascii) : item := mkItem (λ x, bool_decide (x = c)) 1%nat (Some 1%nat).

(** The length of the longest prefix of [s] in the class, up to the
    bound. *)
Fixpoint span (p : ascii → bool) (bound : option nat) (s : list ascii) : nat :=
  match s with
  | [] => 0%nat
  | c :: rest =>
      if p c then
        match bound with
        | Some 0%nat => 0%nat
        | Some (S b) => S (span p (Some b) rest)
        | None => S (span p None rest)
        end
      else 0%nat
  end.

(** Backtracking: the counts [n], [n - 1], ... down to [lo], in that
    order, until one lets the rest match. *)
Fixpoint backtrack {R} (f : nat → option R) (lo n : nat) : option R :=
  if (n <? lo)%nat then None
  else match f n with
       | Some r => Some r
       | None => match n with
                 | O => None
                 | S n' => backtrack f lo n'
                 end
       end.

(** A match of the items at the start of [s]: the text each item took,
    and what is left. *)
Fixpoint match_items (items : list item) (s : list ascii)
  : option (list (list ascii) * list ascii) :=
  match items with
  | [] => Some ([], s)
  | it :: rest =>
      backtrack
        (λ n, match match_items rest (drop n s) with
              | Some (segs, tl) => Some (take n s :: segs, tl)
              | None => None
              end)
        (rmin it) (span (cls it) (rmax it) s)
  end.

(** [re.match]: at the start of the text. *)
Definition match_ (items : list item) (s : list ascii) : option (list (list ascii)) :=
  fst <$> match_items items s.

(** [re.search]: at the first position where the items match. *)
Fixpoint search (items : list item) (s : list ascii) : option (list (list ascii)) :=
  match match_items items s with
  | Some (segs, _) => Some segs
  | None => match s with
            | [] => None
            | _ :: rest => search items rest
            end
  end.

Definition digit : ascii → bool := Text.is_digit.
Definition space : ascii → bool := PyInt.is_space.
Definition digit_or_dot (c : ascii) : bool := Text.is_digit c || bool_decide (c = "."%char).
Definition not_newline (c : ascii) : bool := negb (bool_decide (c = "010"%char)).

(** IP_RE = (\d{1,3}(?:\.\d{1,3}){3}) *)
Definition IP_RE : list item :=
  [mkItem digit 1%nat (Some 3%nat); lit "."; mkItem digit 1%nat (Some 3%nat); lit ".";
   mkItem digit 1%nat (Some 3%nat); lit "."; mkItem digit 1%nat (Some 3%nat)].

(** time[=<]\s*([\d\.]+)\s*ms *)
Definition TIME_RE : list item :=
  [lit "t"; lit "i"; lit "m"; lit "e";
   mkItem (λ c, bool_decide (c = "="%char) || bool_decide (c = "<"%char)) 1%nat (Some 1%nat);
   mkItem space 0%nat None; mkItem digit_or_dot 1%nat None; mkItem space 0%nat None;
   lit "m"; lit "s"].

(** \s*(\d+)\)\s*(.+) *)
Definition SERVER_RE : list item :=
  [mkItem space 0%nat None; mkItem digit 1%nat None; lit ")"; mkItem space 0%nat None;
   mkItem not_newline 1%nat None].

End Re.

(** [float(s)] for a text of digits and dots, which is all the group of
    TIME_RE can hold: digits with at most one dot among them. *)
Module PyFloat.

Definition digits_value (l : list ascii) : Z :=
  foldl (λ a c, 10 * a + default 0 (PyInt.digit_of c)) 0 l.

Fixpoint split_dot (cur : list ascii) (l : list ascii) : list ascii * option (list ascii) :=
  match l with
  | [] => (rev cur, None)
  | c :: rest =>
      if bool_decide (c = "."%char) then (rev cur, Some rest)
      else split_dot (c :: cur) rest
  end.

Definition float (s : list ascii) : outcome Q :=
  let '(whole, rest) := split_dot [] s in
  let frac := default [] rest in
  if forallb Text.is_digit whole && forallb Text.is_digit frac
     && negb (bool_decide (whole = [] ∧ frac = []))
  then Val (Qmake (digits_value whole * 10 ^ Z.of_nat (length frac) + digits_value frac)
                  (Z.to_pos (10 ^ Z.of_nat (length frac))))
  else Exn ValueError.

End PyFloat.

Module Tools.
Import Collector.

(** What [subprocess.run] gives: the return code and the two outputs, the
    TimeoutExpired exception, or another exception (OSError when the
    command cannot be started). *)
Inductive CmdResult :=
| Done (rc : Z) (out err : list ascii)
| TimedOut
| Raised (e : PyExn).

(** The system the commands run on. *)
Record Os := mkOs {
  (* the return code of [which cmd]; [None] when running it raises *)
  os_which : string → option Z;
  (* [subprocess.run(cmd, timeout=...)] *)
  os_run : list string → Z → CmdResult
}.

Definition which (os : Os) (cmd : string) : bool :=
  match os_which os cmd with
  | Some rc => bool_decide (rc = 0)
  | None => false
  end.

(** Only the timeout is caught. *)
Definition run_cmd (os : Os) (cmd : list string) (timeout_sec : Z)
  : outcome (Z * list ascii * list ascii) :=
  match os_run os cmd timeout_sec with
  | Done rc out err => Val (rc, out, err)
  | TimedOut => Val (124, [], list_ascii_of_string "timeout")
  | Raised e => Exn e
  end.

(** The loop over the lines of the output: the first group of IP_RE in
    each line that has one, until three are found. *)
Fixpoint collect_hops (hops : list string) (lines : list (list ascii)) : list string :=
  match lines with
  | [] => hops
  | line :: rest =>
      let hops' :=
        match Re.search Re.IP_RE line with
        | Some segs => hops ++ [string_of_list_ascii (concat segs)]
        | None => hops
        end in
      if (3 <=? length hops')%nat then hops' else collect_hops hops' rest
  end.

(** [do_traceroute]: the lines given to [_log], and the hops or the
    exception of the command. *)
Definition do_traceroute (os : Os) (dest : string) : list string * outcome (list string) :=
  if which os "traceroute" then
    let cmd := ["traceroute"; "-n"; "-w"; "2"; "-q"; "1"; dest] in
    (["[TRACE] " +:+ Text.join " " cmd],
     '(rc, out, err) ← run_cmd os cmd 30;
     Val (if bool_decide (rc = 0) && negb (bool_decide (out = []))
          then collect_hops [] (tail (Text.splitlines out))
          else []))
  else if which os "mtr" then
    let cmd := ["mtr"; "-n"; "-r"; "-c"; "1"; dest] in
    (["[TRACE] " +:+ Text.join " " cmd],
     '(rc, out, err) ← run_cmd os cmd 30;
     Val (if bool_decide (rc = 0) && negb (bool_decide (out = []))
          then collect_hops [] (Text.splitlines out)
          else []))
  else
    (["[WARN] Neither 'traceroute' nor 'mtr' found. Install one of them."], Val []).

(** [do_ping]: [float] may raise ValueError. *)
Definition do_ping (os : Os) (ip : string) : outcome PingResult :=
  let cmd := ["ping"; "-n"; "-c"; "1"; "-W"; "1"; ip] in
  '(rc, out, err) ← run_cmd os cmd 5;
  if bool_decide (rc = 0) && Text.contains (list_ascii_of_string "time=") out then
    match Re.search Re.TIME_RE out with
    | Some segs =>
        t ← PyFloat.float (default [] (segs !! 6%nat));
        Val (Reply t)
    | None => Val Lost
    end
  else Val Lost.

(** [which_speedtest_tool], for the value [tool] of SPEEDTEST_TOOL. *)
Definition which_speedtest_tool (os : Os) (tool : string) : option string :=
  if decide (tool = "auto") then
    if which os "speedtest" then Some "ookla"
    else if which os "speedtest-cli" then Some "speedtest-cli"
    else None
  else if decide (tool = "ookla") then
    (if which os "speedtest" then Some "ookla" else None)
  else if decide (tool = "speedtest-cli") then
    (if which os "speedtest-cli" then Some "speedtest-cli" else None)
  else None.

(** The loop over the lines of a server list: a line that matches
    SERVER_RE, once stripped, adds a server, and the loop ends when the
    list has reached [count]. *)
Fixpoint collect_servers (count : Z) (servers : list Server) (lines : list (list ascii))
  : list Server :=
  match lines with
  | [] => servers
  | line :: rest =>
      match Re.match_ Re.SERVER_RE (PyInt.strip line) with
      | Some segs =>
          let servers' :=
            servers ++ [mkServer (string_of_list_ascii (default [] (segs !! 1%nat)))
                                 (string_of_list_ascii (default [] (segs !! 4%nat)))] in
          if bool_decide (count ≤ Z.of_nat (length servers')) then servers'
          else collect_servers count servers' rest
      | None => collect_servers count servers rest
      end
  end.

Definition auto_select_servers (os : Os) (tool : string) (count : Z)
  : outcome (list Server) :=
  if decide (tool = "ookla") then
    '(rc, out, err) ← run_cmd os ["speedtest"; "-L"] 20;
    Val (if bool_decide (rc = 0) then collect_servers count [] (Text.splitlines out)
         else [])
  else if decide (tool = "speedtest-cli") then
    '(rc, out, err) ← run_cmd os ["speedtest-cli"; "--list"] 25;
    Val (if bool_decide (rc = 0)
         then collect_servers count [] (take 200 (Text.splitlines out))
         else [])
  else Val [].

(** SPEEDTEST_SERVER_IDS, from the value of the environment variable:
    [[s for s in value.split(",") if s.strip()]]. *)
Definition server_ids (value : string) : list string :=
  string_of_list_ascii <$>
    filter (λ s, PyInt.strip s ≠ []) (Text.split ","%char (list_ascii_of_string value)).

End Tools.

(** * Vocabulary of the statements about the command helpers *)

Section ToolsVocabulary.
Import Collector.

(** The text [seg] is what the item [it] may take. *)
Definition taken_by (it : Re.item) (seg : list ascii) : Prop :=
  Forall (λ c, Re.cls it c = true) seg ∧ (Re.rmin it ≤ length seg)%nat ∧
  ∀ b, Re.rmax it = Some b → (length seg ≤ b)%nat.

(** One to three digits. *)
Definition octet (l : list ascii) : Prop :=
  Forall (λ c, Text.is_digit c = true) l ∧ (1 ≤ length l ≤ 3)%nat.

(** Four groups of one to three digits, with dots between them. *)
Definition dotted_quad (s : string) : Prop :=
  ∃ a b c d, octet a ∧ octet b ∧ octet c ∧ octet d ∧
    s = string_of_list_ascii (a ++ "."%char :: b ++ "."%char :: c ++ "."%char :: d).

(** The first address of a line, if it has one. *)
Definition first_address (line : list ascii) : option string :=
  (λ segs, string_of_list_ascii (concat segs)) <$> Re.search Re.IP_RE line.

(** The server a line of a server list names, if it names one. *)
Definition server_of_line (line : list ascii) : option Server :=
  (λ segs, mkServer (string_of_list_ascii (default [] (segs !! 1%nat)))
                    (string_of_list_ascii (default [] (segs !! 4%nat))))
    <$> Re.match_ Re.SERVER_RE (PyInt.strip line).

(** A non-empty text of digits. *)
Definition numeral (s : string) : Prop :=
  s ≠ "" ∧ Forall (λ c, Text.is_digit c = true) (list_ascii_of_string s).

Definition ping_cmd (ip : string) : list string :=
  ["ping"; "-n"; "-c"; "1"; "-W"; "1"; ip].

Definition traceroute_cmd (dest : string) : list string :=
  ["traceroute"; "-n"; "-w"; "2"; "-q"; "1"; dest].

Definition mtr_cmd (dest : string) : list string :=
  ["mtr"; "-n"; "-r"; "-c"; "1"; dest].

End ToolsVocabulary.

Section ToolsExamples.
Import Collector Tools.

(** What a helper makes of the result of its command: [read] on the
    return code and the output, or the exception that is not caught. *)
Definition on_result {A} (r : CmdResult) (read : Z → list ascii → A) : outcome A :=
  match r with
  | Done rc out _ => Val (read rc out)
  | TimedOut => Val (read 124 [])
  | Raised e => Exn e
  end.

(** The command gave nothing to parse: it timed out, failed, or printed
    nothing. *)
Definition nothing_to_parse (r : CmdResult) : Prop :=
  r = TimedOut ∨ ∃ rc out err, r = Done rc out err ∧ (rc ≠ 0 ∨ out = []).

Definition newline : string := String "010"%char "".

Definition x_traceroute_out : list ascii :=
  list_ascii_of_string
    ("traceroute to 8.8.8.8 (8.8.8.8), 30 hops max" +:+ newline +:+
     " 1  192.168.1.1  1.2 ms" +:+ newline +:+
     " 2  *" +:+ newline +:+
     " 3  10.0.0.1  5 ms" +:+ newline).

Definition x_ping_out : list ascii :=
  list_ascii_of_string "64 bytes from 8.8.8.8: icmp_seq=1 ttl=117 time=12.3 ms".

Definition x_servers_out : list ascii :=
  list_ascii_of_string
    ("Closest servers:" +:+ newline +:+
     "  1234) ISP One (City, Country)" +:+ newline +:+
     "  5678) ISP Two (Town, Country)" +:+ newline).

(** A system with traceroute, ping and the Ookla speedtest, each with a
    typical output. *)
Definition x_os : Os :=
  mkOs (λ cmd, if decide (cmd = "speedtest-cli") then Some 1 else Some 0)
       (λ cmd _,
          match cmd with
          | "traceroute" :: _ => Done 0 x_traceroute_out []
          | "ping" :: _ => Done 0 x_ping_out []
          | "speedtest" :: _ => Done 0 x_servers_out []
          | _ => TimedOut
          end).

End ToolsExamples.

Section PingVocabulary.
Import Collector Tools.

(** The number written [whole.frac]. *)
Definition decimal (whole frac : list ascii) : Q :=
  Qmake (PyFloat.digits_value whole * 10 ^ Z.of_nat (length frac)
         + PyFloat.digits_value frac)
        (Z.to_pos (10 ^ Z.of_nat (length frac))).

(** The command failed: it timed out or returned a code other than 0. *)
Definition failed (r : CmdResult) : Prop :=
  r = TimedOut ∨ ∃ rc out err, r = Done rc out err ∧ rc ≠ 0.

(** A system whose ping answers below the resolution of its clock. *)
Definition x_os_fast : Os :=
  mkOs (λ _, Some 0)
       (λ _ _, Done 0 (list_ascii_of_string
                         "64 bytes from 127.0.0.1: icmp_seq=1 ttl=64 time<1 ms") []).

End PingVocabulary.

Section ServerIdVocabulary.
Import Collector Tools.

(** A server id as [main] keeps it: not empty, without a comma, and with
    no white space at either end. *)
Definition clean_id (s : string) : Prop :=
  s ≠ "" ∧ (","%char ∉ list_ascii_of_string s) ∧
  (∀ c, head (list_ascii_of_string s) = Some c → PyInt.is_space c = false) ∧
  (∀ c, last (list_ascii_of_string s) = Some c → PyInt.is_space c = false).

(** The fields of a comma-separated value that are not blank, each
    stripped. *)
Definition stripped_fields (value : string) : list string :=
  (λ f, string_of_list_ascii (PyInt.strip f))
    <$> filter (λ f, PyInt.strip f ≠ []) (Text.split ","%char (list_ascii_of_string value)).

(** A configuration whose server ids come from the value " 12 , ,34,". *)
Definition x_ids_config : Config :=
  mkConfig "8.8.8.8" 3 300 1800 (server_ids " 12 , ,34,") true 2 true.

End ServerIdVocabulary.

(** * The dashboard script

    The page served at [/] carries its script inline (the [<script>] block
    of [INDEX_HTML]).  Two of its functions are pure and decide how much
    data the charts hold: [pickBucketMs], which turns the selected time
    window into the bucket width sent to [/api/pings], and [thin], which
    caps the points of a series.  A third, [destStatsFromBucketed],
    computes the two figures shown for the destination from the rows of
    the aggregated query.  Numbers are exact rationals, as in the queries. *)

Module Dashboard.
Import WebUI.

Definition MAX_POINTS_PER_SERIES : nat := 3000.

(** A JavaScript number: the input field's text goes through [Number],
    which can give NaN or an infinity as well as a finite value. *)
Inductive number :=
| NaN
| NegInf
| PosInf
| Fin (q : Q).

(** [x <= k] against a finite literal; every comparison with NaN is
    false. *)
Definition le_lit (x : number) (k : Q) : bool :=
  match x with
  | NaN => false
  | NegInf => true
  | PosInf => false
  | Fin q => Qle_bool q k
  end.

Definition pickBucketMs (hours : number) : Z :=
  if le_lit hours 6 then 15000
  else if le_lit hours 24 then 30000
  else if le_lit hours 72 then 60000
  else if le_lit hours 168 then 120000
  else if le_lit hours 504 then 300000
  else 600000.

(** [Math.ceil(n / m)] on a count [n] and a positive count [m]. *)
Definition ceil_div (n m : nat) : nat :=
  (n / m + (if n mod m =? 0 then 0 else 1))%nat.

(** [for (let i = ...; i < points.length; i += stride) out.push(points[i])],
    with a bound on the number of rounds. *)
Fixpoint thin_loop {A} (points : list A) (stride fuel i : nat) (out : list A) : list A :=
  match fuel with
  | O => out
  | S fuel' =>
      match points !! i with
      | Some p => thin_loop points stride fuel' (i + stride) (out ++ [p])
      | None => out
      end
  end.

(** [points] is an array and [maxPoints] a count at every call (the
    constant 3000).  With [maxPoints] zero and a non-empty array the
    stride is [Infinity] and the loop makes one round. *)
Definition thin {A} (points : list A) (maxPoints : nat) : list A :=
  if (length points <=? maxPoints)%nat then points
  else
    match maxPoints with
    | O => take 1 points
    | S _ => thin_loop points (ceil_div (length points) maxPoints) (length points) 0 []
    end.

(** The object [{avg: avgrtt, lossPct}]. *)
Record DestStats := mkDestStats {
  avg : option Q;
  lossPct : Q
}.

(** One round of [dest.forEach]: the totals [(succ, total, wsum)] after
    the row [r].  A row arrives as the array
    [[bucket_ts, tag, avg_rtt, success_count, total_count]]; the two counts
    are integers, for which [r[3]||0] is the count itself. *)
Definition dest_round (acc : Z * Z * Q) (r : bucket_row) : Z * Z * Q :=
  let '(succ, total, wsum) := acc in
  let sc := success_count r in
  let tc := total_count r in
  (succ + sc, total + tc,
   match avg_rtt r with
   | Some a => if bool_decide (sc > 0) then (wsum + a * inject_Z sc)%Q else wsum
   | None => wsum
   end).

Definition destStatsFromBucketed (rows : list bucket_row) : DestStats :=
  let dest := filter (λ r, b_tag r = "dest") rows in
  let '(succ, total, wsum) := foldl dest_round (0, 0, 0%Q) dest in
  let lossPct :=
    if bool_decide (total ≠ 0) then (100 * inject_Z (total - succ) / inject_Z total)%Q
    else 0%Q in
  let avgrtt :=
    if bool_decide (succ ≠ 0) then Some (wsum / inject_Z succ)%Q else None in
  {| avg := avgrtt; lossPct := lossPct |}.

End Dashboard.

Section DashboardVocabulary.
Import Dashboard.

Definition bucket_widths : list Z := [15000; 30000; 60000; 120000; 300000; 600000].

(** The milliseconds of a window of [h] hours, as [msAgo] subtracts
    them. *)
Definition window_ms (h : Q) : Q := (h * 3600 * 1000)%Q.

Definition x_points : list Z := [10; 11; 12; 13; 14; 15; 16].

(** The destination's rows among [raw], and those of them that failed. *)
Definition dest_pings (raw : list Pings.row) : list Pings.row :=
  filter (λ r, Pings.tag r = "dest") raw.

Definition lost_pings (raw : list Pings.row) : list Pings.row :=
  filter (λ r, Pings.success r = 0) (dest_pings raw).

(** The success column holds 0 or 1, as the collector writes it. *)
Definition success_flags (raw : list Pings.row) : Prop :=
  ∀ r, r ∈ raw → Pings.success r = 0 ∨ Pings.success r = 1.

(** Four destination pings in two 30 s buckets, one of them lost, and a
    hop ping. *)
Definition x_stats_table : Tables :=
  mkTables [Pings.mk 1000 "8.8.8.8" "dest" (Some (10 # 1)) 1;
            Pings.mk 2000 "8.8.8.8" "dest" None 0;
            Pings.mk 2500 "10.0.0.1" "hop1" None 0;
            Pings.mk 31000 "8.8.8.8" "dest" (Some (12 # 1)) 1;
            Pings.mk 32000 "8.8.8.8" "dest" (Some (14 # 1)) 1] [] [].

End DashboardVocabulary.

Section LatestPathVocabulary.
Import Collector.

(** Every stored hop is older than [ts]. *)
Definition older_than (ts : Z) (rows : list Traceroutes.row) : Prop :=
  ∀ row, row ∈ rows → Traceroutes.ts_ms row < ts.

(** A restarted process whose database file holds the two hops of an
    earlier discovery; the tool now resolves four addresses. *)
Definition x_path_state : State :=
  boot (mkWorld [5000%Q] [10; 11; 12; 13; 14] ["20250820_11"]
                [["10.0.0.1"; "10.0.0.2"; "10.0.0.3"; "10.0.0.4"]]
                [Lost; Lost; Lost; Lost] [] [] [] None [])
       (Some (mkTables [] [Traceroutes.mk 3 "8.8.8.8" 1 (Some "10.9.9.1");
                           Traceroutes.mk 3 "8.8.8.8" 2 (Some "10.9.9.2")] []))
       ∅.

End LatestPathVocabulary.

(** * Properties of the query service *)

Section QueryFacts.
Import WebUI.

#[local] Instance key_le_trans {A} (key : A → Z) : Transitive (Sql.key_le key).
Proof. unfold Sql.key_le. intros x y z ? ?. lia. Qed.

#[local] Instance key_le_total {A} (key : A → Z) : Total (Sql.key_le key).
Proof. unfold Sql.key_le. intros x y. lia. Qed.

Lemma order_by_sorted {A} (key : A → Z) (l : list A) :
  StronglySorted (Sql.key_le key) (Sql.order_by key l).
Proof. apply StronglySorted_merge_sort; apply _. Qed.

Lemma order_by_perm {A} (key : A → Z) (l : list A) : Sql.order_by key l ≡ₚ l.
Proof. apply merge_sort_Permutation. Qed.

Lemma order_by_nullable_perm {A} (key : A → option Z) (l : list A) :
  Sql.order_by_nullable key l ≡ₚ l.
Proof. apply merge_sort_Permutation. Qed.

Lemma bind_int_val z v : Sql.bind_int z = Val v → v = z.
Proof. unfold Sql.bind_int. destruct (Sql.fits_int64 z); congruence. Qed.

Lemma bind_int_fits z : Sql.fits_int64 z = true → Sql.bind_int z = Val z.
Proof. unfold Sql.bind_int. intros ->. reflexivity. Qed.

Lemma query_pings_raw_val disk start_ms end_ms rows :
  query_pings_raw disk start_ms end_ms = Val rows →
  rows = Sql.order_by Pings.ts_ms
           (filter (λ r, Sql.between start_ms end_ms (Pings.ts_ms r))
                   (from_option pings [] disk)).
Proof.
  unfold query_pings_raw, get_conn. destruct disk as [t|]; simpl.
  - destruct (Sql.bind_int start_ms) as [lo|] eqn:Hlo;
      [|destruct (Sql.bind_int end_ms); discriminate].
    destruct (Sql.bind_int end_ms) as [hi|] eqn:Hhi; [|discriminate].
    apply bind_int_val in Hlo, Hhi. subst. congruence.
  - intros [= <-]. reflexivity.
Qed.

Lemma max_of_spec (l : list Z) :
  l ≠ [] → ∃ m, Sql.max_of l = Some m ∧ m ∈ l ∧ ∀ x, x ∈ l → x ≤ m.
Proof.
  induction l as [|a l IH]; [congruence|]. intros _.
  destruct l as [|b l'].
  - exists a. simpl. split; [reflexivity|]. split; [left|].
    intros x Hx. apply list_elem_of_singleton in Hx. lia.
  - destruct IH as (m & Hm & Hin & Hmax); [congruence|].
    exists (Z.max a m). split.
    + change (Sql.max_of (a :: b :: l')) with
        (Some (match Sql.max_of (b :: l') with None => a | Some m0 => Z.max a m0 end)).
      rewrite Hm. reflexivity.
    + split.
      * destruct (Z.max_spec a m) as [[? ->]|[? ->]]; [right; exact Hin|left].
      * intros x Hx. apply elem_of_cons in Hx as [->|Hx]; [lia|].
        specialize (Hmax x Hx). lia.
Qed.

Lemma sum_of_bounds (l : list Z) :
  Forall (λ z, z = 0 ∨ z = 1) l → 0 ≤ Sql.sum_of l ≤ Z.of_nat (length l).
Proof.
  induction 1 as [|z l Hz _ IH]; simpl; [lia|].
  unfold Sql.sum_of in *. simpl. lia.
Qed.

Lemma sum_of_zero (l : list Z) :
  Forall (λ z, z = 0 ∨ z = 1) l → (Sql.sum_of l = 0 ↔ Forall (λ z, z = 0) l).
Proof.
  induction 1 as [|z l Hz Hl IH]; simpl.
  - split; [constructor|reflexivity].
  - pose proof (sum_of_bounds l Hl) as Hb.
    unfold Sql.sum_of in *. simpl. split.
    + intros Hs. constructor; [lia|]. apply IH. lia.
    + intros Hall. apply Forall_cons in Hall as [-> Hall]. apply IH in Hall. lia.
Qed.

Lemma avg_of_none (l : list (option Q)) :
  Sql.avg_of l = None ↔ Forall (λ v, v = None) l.
Proof.
  unfold Sql.avg_of. split.
  - intros H. destruct (omap id l) as [|v vs] eqn:Hom; [|discriminate].
    clear H. induction l as [|[q|] l IH]; simpl in *; [constructor|discriminate|].
    constructor; [reflexivity|]. apply IH, Hom.
  - intros H. replace (omap id l) with (@nil Q); [reflexivity|].
    induction H as [|v l -> _ IH]; simpl; [reflexivity|exact IH].
Qed.

Lemma query_pings_bucketed_val t start_ms end_ms bucket_ms rows :
  query_pings_bucketed (Some t) start_ms end_ms bucket_ms = Val rows →
  let sel := filter (λ r, Sql.between start_ms end_ms (Pings.ts_ms r)) (pings t) in
  rows = Sql.order_by_nullable bucket_ts
           ((λ k, aggregate k (group_rows bucket_ms k sel))
              <$> remove_dups (group_key bucket_ms <$> sel)).
Proof.
  unfold query_pings_bucketed, get_conn.
  destruct (Sql.bind_int bucket_ms) as [w|] eqn:Hw; [|discriminate].
  destruct (Sql.bind_int start_ms) as [lo|] eqn:Hlo;
    [|destruct (Sql.bind_int end_ms); discriminate].
  destruct (Sql.bind_int end_ms) as [hi|] eqn:Hhi; [|discriminate].
  apply bind_int_val in Hw, Hlo, Hhi. subst. simpl. congruence.
Qed.

(** Every output row of the aggregated query is the aggregate of a
    non-empty group of selected rows. *)
Lemma bucketed_row_group t start_ms end_ms bucket_ms rows b :
  query_pings_bucketed (Some t) start_ms end_ms bucket_ms = Val rows →
  b ∈ rows →
  let sel := filter (λ r, Sql.between start_ms end_ms (Pings.ts_ms r)) (pings t) in
  ∃ r0, r0 ∈ sel ∧
        b = aggregate (group_key bucket_ms r0)
              (group_rows bucket_ms (group_key bucket_ms r0) sel).
Proof.
  intros Hq Hb. apply query_pings_bucketed_val in Hq. simpl in *. subst rows.
  rewrite order_by_nullable_perm in Hb.
  apply list_elem_of_fmap in Hb as (k & -> & Hk).
  apply elem_of_remove_dups, list_elem_of_fmap in Hk as (r0 & -> & Hr0).
  exists r0. split; [exact Hr0|reflexivity].
Qed.

(** The scenarios of the design document, run on the model. *)
Example raw_scenario :
  query_pings_raw (Some scenario_raw) 0 2000 = Val (pings scenario_raw).
Proof. vm_compute. reflexivity. Qed.

Example bucketed_scenario :
  query_pings_bucketed (Some scenario_bucketed) 0 3999 2000
  = Val [mkBucket (Some 0) "dest" (Some (30 # 2)%Q) 2 2;
         mkBucket (Some 2000) "dest" (Some (80 # 2)%Q) 2 2].
Proof. vm_compute. reflexivity. Qed.

End QueryFacts.

Section QueryClaims.
Import WebUI.

(** C8.  The raw latency query answers for every range whose bounds fit a
    64-bit integer, and whatever it answers (in particular for
    start ≤ end) is sorted by ascending timestamp, holds only rows of the
    stored table with a timestamp in [start, end], and holds each such
    row: nothing that was not written is returned. *)
Theorem C8_raw_query_sorted_in_range (disk : option Tables) (start_ms end_ms : Z) :
  (Sql.fits_int64 start_ms = true → Sql.fits_int64 end_ms = true →
   ∃ rows, query_pings_raw disk start_ms end_ms = Val rows) ∧
  (∀ rows, query_pings_raw disk start_ms end_ms = Val rows →
     StronglySorted (λ a b, Pings.ts_ms a ≤ Pings.ts_ms b) rows ∧
     (∀ r, r ∈ rows →
           start_ms ≤ Pings.ts_ms r ≤ end_ms ∧ ∃ t, disk = Some t ∧ r ∈ pings t) ∧
     rows ≡ₚ filter (λ r, Sql.between start_ms end_ms (Pings.ts_ms r))
               (from_option pings [] disk)).
Proof.
  split.
  - intros Hs He. unfold query_pings_raw, get_conn.
    destruct disk as [t|]; [|eexists; reflexivity].
    rewrite (bind_int_fits _ Hs), (bind_int_fits _ He). eexists; reflexivity.
  - intros rows Hq. apply query_pings_raw_val in Hq. subst rows.
    split; [apply order_by_sorted|]. split; [|apply order_by_perm].
    intros r Hr. rewrite order_by_perm in Hr.
    apply list_elem_of_filter in Hr as [Hin Hr]. split; [exact Hin|].
    destruct disk as [t|]; simpl in Hr; [|by apply elem_of_nil in Hr].
    exists t. split; [reflexivity|exact Hr].
Qed.

Lemma C8_raw_query_witness :
  (∃ rows, query_pings_raw (Some c8_table) 0 2000 = Val rows) ∧
  StronglySorted (λ a b, Pings.ts_ms a ≤ Pings.ts_ms b)
    [Pings.mk 1000 "1.1.1.1" "hop1" (Some (25 # 2)%Q) 1;
     Pings.mk 1000 "8.8.8.8" "dest" None 0] ∧
  (0 ≤ 1000 ≤ 2000 ∧
   ∃ t, Some c8_table = Some t ∧ Pings.mk 1000 "8.8.8.8" "dest" None 0 ∈ pings t).
Proof.
  destruct (C8_raw_query_sorted_in_range (Some c8_table) 0 2000) as [Htotal Hrows].
  split; [apply Htotal; reflexivity|].
  destruct (Hrows [Pings.mk 1000 "1.1.1.1" "hop1" (Some (25 # 2)%Q) 1;
                   Pings.mk 1000 "8.8.8.8" "dest" None 0])
    as (Hsorted & Hin & _); [vm_compute; reflexivity|].
  split; [exact Hsorted|].
  apply (Hin (Pings.mk 1000 "8.8.8.8" "dest" None 0)). right. left.
Defined.

(** C4.  On a non-empty traceroutes table the latest-path query returns
    exactly the rows that carry the greatest timestamp of the table, in
    ascending order of the hop index, whatever other timestamps are
    stored. *)
Theorem C4_latest_path_snapshot (t : Tables) :
  traceroutes t ≠ [] →
  ∃ max_ts,
    (∀ r, r ∈ traceroutes t → Traceroutes.ts_ms r ≤ max_ts) ∧
    (∃ r, r ∈ traceroutes t ∧ Traceroutes.ts_ms r = max_ts) ∧
    query_last_traces (Some t)
      ≡ₚ filter (λ r, Traceroutes.ts_ms r = max_ts) (traceroutes t) ∧
    StronglySorted (λ a b, Traceroutes.hop a ≤ Traceroutes.hop b)
      (query_last_traces (Some t)).
Proof.
  intros Hne.
  destruct (max_of_spec (Traceroutes.ts_ms <$> traceroutes t)) as (m & Hm & Hin & Hmax).
  { destruct (traceroutes t); [congruence|discriminate]. }
  exists m. split; [|split].
  - intros r Hr. apply Hmax, list_elem_of_fmap. exists r. split; [reflexivity|exact Hr].
  - apply list_elem_of_fmap in Hin as (r & -> & Hr). exists r. split; [exact Hr|reflexivity].
  - unfold query_last_traces, get_conn. rewrite Hm.
    split; [apply order_by_perm|apply order_by_sorted].
Qed.

Lemma C4_latest_path_witness :
  ∃ max_ts,
    (∀ r, r ∈ traceroutes c4_table → Traceroutes.ts_ms r ≤ max_ts) ∧
    (∃ r, r ∈ traceroutes c4_table ∧ Traceroutes.ts_ms r = max_ts) ∧
    query_last_traces (Some c4_table)
      ≡ₚ filter (λ r, Traceroutes.ts_ms r = max_ts) (traceroutes c4_table) ∧
    StronglySorted (λ a b, Traceroutes.hop a ≤ Traceroutes.hop b)
      (query_last_traces (Some c4_table)).
Proof. apply (C4_latest_path_snapshot c4_table). discriminate. Defined.






Lemma c9_request_converts : params_convert c9_request.
Proof.
  intros key default. unfold int_param, c9_request. simpl.
  destruct (decide (key = "start")) as [->|Hstart].
  { rewrite lookup_insert_eq. eexists. vm_compute. reflexivity. }
  rewrite lookup_insert_ne by congruence.
  destruct (decide (key = "bucket_ms")) as [->|Hbucket].
  { rewrite lookup_insert_eq. eexists. vm_compute. reflexivity. }
  rewrite lookup_insert_ne by congruence.
  rewrite lookup_empty. eexists. reflexivity.
Defined.


(** C10.  There are requests to /api/pings, one for each of start, end and
    bucket_ms, in which that parameter is not an integer literal and for
    which the handler raises ValueError instead of answering, whatever the
    store holds and even when the store is missing: the conversion comes
    before any query. *)
Theorem C10_malformed_parameter_raises :
  PyInt.int "abc" = Exn ValueError ∧
  ∀ key, key ∈ ["start"; "end"; "bucket_ms"] →
    path (malformed key) = "/api/pings" ∧
    qs (malformed key) !! key = Some ["abc"] ∧
    ∀ disk now_ms, do_GET disk now_ms (malformed key) = Exn ValueError.
Proof.
  split; [reflexivity|]. intros key Hkey.
  split; [reflexivity|]. split; [apply lookup_singleton_eq|].
  intros disk now_ms.
  repeat (apply elem_of_cons in Hkey as [->|Hkey]); [| | |by apply elem_of_nil in Hkey];
    reflexivity.
Qed.

Lemma C10_malformed_parameter_witness :
  do_GET None 0 (malformed "bucket_ms") = Exn ValueError.
Proof.
  apply (proj2 C10_malformed_parameter_raises "bucket_ms").
  right. right. left.
Defined.

End QueryClaims.

(** * A program logic for the process monad *)

Section Logic.
Import Collector.

Lemma triple_conseq {A} (P P' : State → Prop) (m : M A)
      (Q Q' : A → State → Prop) (E E' : PyExn → State → Prop) :
  triple P' m Q' E' →
  (∀ st, P st → P' st) → (∀ a st, Q' a st → Q a st) → (∀ e st, E' e st → E e st) →
  triple P m Q E.
Proof.
  intros Hm HP HQ HE st Hst. specialize (Hm st (HP st Hst)).
  destruct (m st) as [[a|e] st']; auto.
Qed.

Lemma triple_ret {A} (P : State → Prop) (a : A) (Q : A → State → Prop) E :
  (∀ st, P st → Q a st) → triple P (mret a) Q E.
Proof. intros H st Hst. apply H, Hst. Qed.

Lemma triple_bind {A B} (P : State → Prop) (m : M A) (f : A → M B)
      (Q : A → State → Prop) (R : B → State → Prop) E :
  triple P m Q E → (∀ a, triple (Q a) (f a) R E) → triple P (m ≫= f) R E.
Proof.
  intros Hm Hf st Hst. specialize (Hm st Hst).
  unfold mbind, M_bind. destruct (m st) as [[a|e] st']; [|exact Hm].
  apply Hf, Hm.
Qed.

Lemma triple_get {A} (P : State → Prop) (proj : State → A) (Q : A → State → Prop) E :
  (∀ st, P st → Q (proj st) st) → triple P (get proj) Q E.
Proof. intros H st Hst. apply H, Hst. Qed.

Lemma triple_modify (P : State → Prop) (f : State → State) (Q : unit → State → Prop) E :
  (∀ st, P st → Q tt (f st)) → triple P (modify f) Q E.
Proof. intros H st Hst. apply H, Hst. Qed.

Lemma triple_raise {A} (P : State → Prop) e (Q : A → State → Prop)
      (E : PyExn → State → Prop) :
  (∀ st, P st → E e st) → triple P (raise e) Q E.
Proof. intros H st Hst. apply H, Hst. Qed.

Lemma triple_ask {A} (P : State → Prop) (d : A) proj upd (Q : A → State → Prop) E :
  (∀ st, P st → proj (world st) = [] → Q d st) →
  (∀ st x rest, P st → proj (world st) = x :: rest →
                Q x (with_world (upd rest (world st)) st)) →
  triple P (ask d proj upd) Q E.
Proof.
  intros Hnil Hcons st Hst. unfold ask.
  destruct (proj (world st)) as [|x rest] eqn:Hw; [apply Hnil|apply Hcons]; assumption.
Qed.

Lemma triple_try_pass (P : State → Prop) (m : M unit) (Q : unit → State → Prop)
      (E : PyExn → State → Prop) :
  triple P m Q (λ _, Q tt) → triple P (try_pass m) Q E.
Proof.
  intros Hm st Hst. specialize (Hm st Hst). unfold try_pass.
  destruct (m st) as [[u|e] st']; exact Hm.
Qed.

Lemma triple_for_each {A} (I : State → Prop) (l : list A) (body : A → M unit) E :
  (∀ x, x ∈ l → triple I (body x) (λ _, I) E) →
  triple I (for_each l body) (λ _, I) E.
Proof.
  induction l as [|x l IH]; intros Hbody; simpl.
  - apply triple_ret. auto.
  - eapply triple_bind; [apply Hbody; left|].
    intros ?. apply IH. intros y Hy. apply Hbody. right. exact Hy.
Qed.

Lemma triple_for_each_break {A} (I : State → Prop) (l : list A) (body : A → M bool) E :
  (∀ x, x ∈ l → triple I (body x) (λ _, I) E) →
  triple I (for_each_break l body) (λ _, I) E.
Proof.
  induction l as [|x l IH]; intros Hbody; simpl.
  - apply triple_ret. auto.
  - eapply triple_bind; [apply Hbody; left|].
    intros [|]; [apply triple_ret; auto|].
    apply IH. intros y Hy. apply Hbody. right. exact Hy.
Qed.

(** *** Keeping an invariant *)

Lemma preserves_ret {A} I (a : A) : preserves I (mret a).
Proof. apply triple_ret. auto. Qed.

Lemma preserves_bind {A B} I (m : M A) (f : A → M B) :
  preserves I m → (∀ a, preserves I (f a)) → preserves I (m ≫= f).
Proof. intros Hm Hf. eapply triple_bind; [exact Hm|exact Hf]. Qed.

Lemma preserves_get {A} I (proj : State → A) : preserves I (get proj).
Proof. apply triple_get. auto. Qed.

Lemma preserves_raise {A} I e : preserves I (raise (A := A) e).
Proof. apply triple_raise. auto. Qed.

Lemma preserves_modify I (f : State → State) :
  (∀ st, I st → I (f st)) → preserves I (modify f).
Proof. intros H. apply triple_modify. exact H. Qed.

Lemma preserves_ask {A} I (d : A) proj upd :
  (∀ st x rest, I st → proj (world st) = x :: rest →
                I (with_world (upd rest (world st)) st)) →
  preserves I (ask d proj upd).
Proof. intros H. apply triple_ask; auto. Qed.

Lemma preserves_try_pass I (m : M unit) : preserves I m → preserves I (try_pass m).
Proof. intros H. apply triple_try_pass. exact H. Qed.

Lemma preserves_for_each {A} I (l : list A) (body : A → M unit) :
  (∀ x, preserves I (body x)) → preserves I (for_each l body).
Proof. intros H. apply triple_for_each. intros x _. apply H. Qed.

Lemma preserves_for_each_break {A} I (l : list A) (body : A → M bool) :
  (∀ x, preserves I (body x)) → preserves I (for_each_break l body).
Proof. intros H. apply triple_for_each_break. intros x _. apply H. Qed.

Lemma triple_pure {A} (φ : Prop) (P : State → Prop) (m : M A) Q E :
  (φ → triple P m Q E) → triple (λ st, φ ∧ P st) m Q E.
Proof. intros H st [Hφ Hst]. exact (H Hφ st Hst). Qed.

(** An invariant kept by [m] gives a triple with any weaker exceptional
    postcondition. *)
Lemma preserves_triple {A} (I : State → Prop) (m : M A) (E : PyExn → State → Prop) :
  preserves I m → (∀ e st, I st → E e st) → triple I m (λ _, I) E.
Proof. intros Hm HE. eapply triple_conseq; [exact Hm| | |]; auto. Qed.

Lemma preserves_final {A} I (m : M A) st : preserves I m → I st → I (m st).2.
Proof.
  intros Hm Hst. specialize (Hm st Hst). destruct (m st) as [[a|e] st']; exact Hm.
Qed.

End Logic.

(** Decomposes a goal [preserves I m] along the structure of [m], down to
    the updates of the state.  [known] is tried first on every
    sub-program (lemmas for the operations that need an argument of their
    own); [side] closes the goal [I (f st)] of an update from [I st]. *)
Ltac preserves_by known side :=
  repeat first
    [ known
    | progress unfold preserves
    | apply preserves_ret
    | apply preserves_get
    | apply preserves_raise
    | apply preserves_bind; [|intros ?]
    | apply preserves_try_pass
    | apply preserves_for_each; intros ?
    | apply preserves_for_each_break; intros ?
    | apply preserves_modify; intros ? ?; side
    | apply preserves_ask; intros ? ? ? ? ?; side
    | match goal with
      | |- triple _ (let '(_, _) := Collector.unpack ?r in _) _ _ => destruct r; simpl
      | |- triple _ (if ?b then _ else _) _ _ => destruct b
      | |- triple _ (match ?x with _ => _ end) _ _ => destruct x
      end
    | progress unfold
        Collector._log, Collector._sig_handler, Collector.read_shutdown,
        Collector.time_time, Collector._epoch_ms, Collector.record,
        Collector.do_traceroute, Collector.do_ping, Collector.run_speedtest,
        Collector.format_float, Collector.fallible,
        Collector.insert_ping, Collector.insert_trace, Collector.insert_speedtest,
        Collector.conn_commit, Collector._hour_dir, Collector._rotate, Collector.mkdir,
        Collector.open_append, Collector.tell_is_zero, Collector.writerow,
        Collector._ensure_open, Collector.write_ping, Collector.write_trace,
        Collector.write_speedtest, Collector.close,
        Collector.refresh_hops, Collector.refresh_if_due, Collector.ping_target,
        Collector.ping_loop, Collector.ping_phase, Collector.speedtest_once,
        Collector.speedtest_batch, Collector.speedtest_phase, Collector.idle_wait,
        Collector.loop_body, Collector.select_servers, Collector.shut_down,
        Collector.main ].

Ltac preserves_with side := preserves_by fail side.

(** * The hourly CSV files *)

Section CsvFacts.
Import Collector.

Lemma header_row_is_header name : is_header_row (header_row name).
Proof.
  unfold is_header_row, header_row.
  repeat case_decide; [left|right; left|right; right; left].
Qed.

Lemma data_row_not_header r : is_data_row r → ¬ is_header_row r.
Proof.
  intros (z & rest & ->) Hh. unfold is_header_row in Hh.
  repeat (apply elem_of_cons in Hh as [Hh|Hh]; [discriminate Hh|]).
  by apply elem_of_nil in Hh.
Qed.

Lemma header_count_data data : Forall is_data_row data → header_count data = 0%nat.
Proof.
  unfold header_count. induction 1 as [|r data Hr _ IH]; [reflexivity|].
  rewrite filter_cons_False by (apply data_row_not_header, Hr). exact IH.
Qed.

Lemma file_ok_header_count p rows :
  file_ok p rows →
  (header_count rows ≤ 1)%nat ∧
  (rows ≠ [] → header_count rows = 1%nat ∧ head rows = Some (header_row p.2)).
Proof.
  intros [->|(data & -> & Hdata)].
  - split; [unfold header_count; rewrite filter_nil; simpl; lia|congruence].
  - assert (header_count (header_row p.2 :: data) = 1%nat) as Hc.
    { unfold header_count. rewrite filter_cons_True by apply header_row_is_header.
      simpl. f_equal. apply header_count_data, Hdata. }
    split; [lia|]. intros _. split; [exact Hc|reflexivity].
Qed.

Lemma tree_ok_no_files st : tree_ok st → tree_ok (with_files ∅ st).
Proof.
  intros [Hf _]. split; [exact Hf|]. intros n f Hn. simpl in Hn.
  rewrite lookup_empty in Hn. discriminate.
Qed.

Lemma fault_free_pop st x rest :
  fault_free st → w_fault (world st) = x :: rest →
  x = false ∧ fault_free (with_world (with_w_fault rest (world st)) st).
Proof.
  unfold fault_free. intros H Hw. rewrite Hw in H.
  apply Forall_cons in H as [-> H]. split; [reflexivity|exact H].
Qed.

End CsvFacts.

(** Closes the side conditions of the updates that do not touch what an
    invariant talks about, and those of the world's answers. *)
Ltac frame_side :=
  first
    [ assumption
    | apply tree_ok_no_files; assumption
    | match goal with
      | H : fault_free ?st, Hw : Collector.w_fault (Collector.world ?st) = _ :: _
        |- fault_free _ =>
          exact (proj2 (fault_free_pop _ _ _ H Hw))
      | H : full_files ?st, Hw : Collector.w_fault (Collector.world ?st) = _ :: _
        |- full_files _ =>
          split; [exact (proj1 H)|exact (proj2 (fault_free_pop _ _ _ (proj2 H) Hw))]
      end ].

Section CsvInvariants.
Import Collector.

Lemma fallible_tree_ok e : preserves tree_ok (fallible e).
Proof. preserves_with idtac. all: frame_side. Qed.

(** Under [fault_free] a storage call does not raise. *)
Lemma fallible_fault_free (I : State → Prop) e :
  (∀ st, I st → fault_free st) →
  (∀ st x rest, I st → w_fault (world st) = x :: rest →
                I (with_world (with_w_fault rest (world st)) st)) →
  triple I (fallible e) (λ _, I) (λ _ _, False).
Proof.
  intros Hff Hframe. unfold fallible.
  eapply triple_bind with (Q := λ fault st, fault = false ∧ I st).
  - apply triple_ask.
    + intros st Hst _. split; [reflexivity|exact Hst].
    + intros st x rest Hst Hw. split; [|exact (Hframe st x rest Hst Hw)].
      exact (proj1 (fault_free_pop _ _ _ (Hff st Hst) Hw)).
  - intros fault. destruct fault.
    + apply triple_raise. intros st [Hf _]. discriminate.
    + apply triple_ret. intros st [_ Hst]. exact Hst.
Qed.

Lemma ensure_open_tree_ok name header :
  CStr <$> header = header_row name →
  triple tree_ok (_ensure_open name header)
         (λ f st, tree_ok st ∧ files st !! name = Some f) (λ _, tree_ok).
Proof.
  intros Hheader. unfold _ensure_open.
  eapply triple_bind with (Q := λ _, tree_ok).
  { preserves_with idtac. all: frame_side. }
  intros hour_dir.
  eapply triple_bind with (Q := λ _, tree_ok); [apply preserves_get|].
  intros cur.
  eapply triple_bind with (Q := λ _, tree_ok).
  { preserves_with idtac. all: frame_side. }
  intros _.
  eapply triple_bind with (Q := λ _, tree_ok); [apply preserves_get|].
  intros opened.
  eapply triple_bind with (Q := λ _, tree_ok).
  - case_decide; [|apply preserves_ret].
    set (f := (hour_dir, name)).
    eapply triple_bind with
      (Q := λ g st, g = f ∧ tree_ok st ∧ is_Some (tree st !! f)).
    { unfold open_append.
      eapply triple_bind with (Q := λ _, tree_ok); [apply fallible_tree_ok|].
      intros _.
      eapply triple_bind with (Q := λ _ st, tree_ok st ∧ is_Some (tree st !! f)).
      - apply triple_modify. intros st [Hfiles Hhandles]. cbv beta.
        destruct (tree st !! f) as [rows|] eqn:Hf.
        + split; [split; [exact Hfiles|exact Hhandles]|]. simpl. rewrite Hf. eauto.
        + split; [|simpl; rewrite lookup_insert_eq; eauto]. split.
          * intros p rows Hp. simpl in Hp.
            destruct (decide (f = p)) as [<-|Hne].
            -- rewrite lookup_insert_eq in Hp. injection Hp as <-. left. reflexivity.
            -- rewrite lookup_insert_ne in Hp by exact Hne. apply Hfiles, Hp.
          * intros n g Hn. destruct (Hhandles n g Hn) as (Hg & rows & Hrows & Hne).
            split; [exact Hg|]. exists rows. split; [|exact Hne]. simpl.
            rewrite lookup_insert_ne; [exact Hrows|]. intros <-. congruence.
      - intros _. apply triple_ret. intros st [? ?]. auto. }
    intros g.
    eapply triple_bind with
      (Q := λ empty st, g = f ∧ tree_ok st ∧
                        if empty : bool then tree st !! f = Some []
                        else ∃ rows, tree st !! f = Some rows ∧ rows ≠ []).
    { apply triple_get. intros st (-> & Hok & [rows Hrows]).
      split; [reflexivity|]. split; [exact Hok|]. rewrite Hrows. simpl.
      case_bool_decide as Hempty; [congruence|]. eauto. }
    intros empty.
    eapply triple_bind with
      (Q := λ _ st, g = f ∧ tree_ok st ∧ ∃ rows, tree st !! f = Some rows ∧ rows ≠ []).
    { destruct empty.
      - unfold writerow.
        eapply triple_bind with
          (Q := λ _ st, g = f ∧ tree_ok st ∧ tree st !! f = Some []).
        { unfold fallible.
          eapply triple_bind with
            (Q := λ _ st, g = f ∧ tree_ok st ∧ tree st !! f = Some []).
          - apply triple_ask; intros; assumption.
          - intros [|]; [apply triple_raise|apply triple_ret]; intros st Hst; tauto. }
        intros _. apply triple_modify. intros st (-> & [Hfiles Hhandles] & Hf).
        split; [reflexivity|]. rewrite Hf. simpl.
        split; [|rewrite lookup_insert_eq; eexists; split; [reflexivity|discriminate]].
        split.
        + intros p rows Hp. simpl in Hp.
          destruct (decide (f = p)) as [<-|Hne].
          * rewrite lookup_insert_eq in Hp. injection Hp as <-.
            right. exists []. rewrite Hheader. split; [reflexivity|constructor].
          * rewrite lookup_insert_ne in Hp by exact Hne. apply Hfiles, Hp.
        + intros n h Hn. destruct (Hhandles n h Hn) as (Hh & rows & Hrows & Hne).
          split; [exact Hh|]. exists rows. split; [|exact Hne]. simpl.
          rewrite lookup_insert_ne; [exact Hrows|]. intros <-. congruence.
      - apply triple_ret. intros st Hst. exact Hst. }
    intros _. apply triple_modify. intros st (-> & [Hfiles Hhandles] & rows & Hrows & Hne).
    split; [exact Hfiles|]. intros n h Hn. simpl in Hn.
    destruct (decide (name = n)) as [<-|Hnn].
    + rewrite lookup_insert_eq in Hn. injection Hn as <-.
      split; [reflexivity|]. exists rows. split; assumption.
    + rewrite lookup_insert_ne in Hn by exact Hnn. apply Hhandles, Hn.
  - intros _.
    eapply triple_bind with (Q := λ opened' st, tree_ok st ∧ opened' = files st).
    { apply triple_get. auto. }
    intros opened'. destruct (opened' !! name) as [f|] eqn:Hf.
    + apply triple_ret. intros st [Hok ->]. split; assumption.
    + apply triple_raise. intros st [Hok _]. exact Hok.
Qed.


Lemma writerow_data_tree_ok name f row :
  is_data_row row →
  triple (λ st, tree_ok st ∧ files st !! name = Some f) (writerow f row)
         (λ _, tree_ok) (λ _, tree_ok).
Proof.
  intros Hrow. unfold writerow.
  eapply triple_bind with (Q := λ _ st, tree_ok st ∧ files st !! name = Some f).
  - unfold fallible.
    eapply triple_bind with (Q := λ _ st, tree_ok st ∧ files st !! name = Some f).
    + apply triple_ask; intros; assumption.
    + intros [|]; [apply triple_raise|apply triple_ret]; intros st Hst; tauto.
  - intros _. apply triple_modify. intros st [[Hfiles Hhandles] Hf].
    destruct (Hhandles name f Hf) as (Hname & rows & Hrows & Hne).
    split.
    + intros p rows' Hp. simpl in Hp.
      destruct (decide (f = p)) as [<-|Hfp].
      * rewrite lookup_insert_eq, Hrows in Hp. simpl in Hp. injection Hp as <-.
        destruct (Hfiles f rows Hrows) as [->|(data & -> & Hdata)]; [congruence|].
        right. exists (data ++ [row]). split; [reflexivity|].
        apply Forall_app. split; [exact Hdata|]. constructor; [exact Hrow|constructor].
      * rewrite lookup_insert_ne in Hp by exact Hfp. apply Hfiles, Hp.
    + intros n h Hn. destruct (Hhandles n h Hn) as (Hh & rows' & Hrows' & Hne').
      split; [exact Hh|]. simpl.
      destruct (decide (f = h)) as [<-|Hfh].
      * rewrite lookup_insert_eq. eexists. split; [reflexivity|].
        rewrite Hrows. simpl. destruct rows; discriminate.
      * rewrite lookup_insert_ne by exact Hfh. eauto.
Qed.

Lemma write_ping_tree_ok ts_ms target tag rtt_ms success :
  preserves tree_ok (write_ping ts_ms target tag rtt_ms success).
Proof.
  unfold write_ping. eapply triple_bind.
  - apply ensure_open_tree_ok. reflexivity.
  - intros f. eapply writerow_data_tree_ok. eexists _, _. reflexivity.
Qed.

Lemma write_trace_tree_ok ts_ms dest hop ip :
  preserves tree_ok (write_trace ts_ms dest hop ip).
Proof.
  unfold write_trace. eapply triple_bind.
  - apply ensure_open_tree_ok. reflexivity.
  - intros f. eapply writerow_data_tree_ok. eexists _, _. reflexivity.
Qed.

Lemma write_speedtest_tree_ok ts_ms tool server_id server_name p d u j :
  preserves tree_ok (write_speedtest ts_ms tool server_id server_name p d u j).
Proof.
  unfold write_speedtest. eapply triple_bind.
  - apply ensure_open_tree_ok. reflexivity.
  - intros f. eapply writerow_data_tree_ok. eexists _, _. reflexivity.
Qed.

(** *** Without storage faults no file stays empty *)

Lemma fallible_full_files e : preserves full_files (fallible e).
Proof. preserves_with idtac. all: frame_side. Qed.

Lemma writerow_full_files f row : preserves full_files (writerow f row).
Proof.
  unfold writerow. apply preserves_bind; [apply fallible_full_files|].
  intros _. apply preserves_modify. intros st [Hne Hff]. split; [|exact Hff].
  intros p rows Hp. simpl in Hp.
  destruct (decide (f = p)) as [<-|Hfp].
  - rewrite lookup_insert_eq in Hp. injection Hp as <-.
    destruct (default [] (tree st !! f)); discriminate.
  - rewrite lookup_insert_ne in Hp by exact Hfp. exact (Hne p rows Hp).
Qed.

Lemma ensure_open_full_files name header :
  preserves full_files (_ensure_open name header).
Proof.
  unfold _ensure_open.
  apply preserves_bind; [preserves_with idtac; frame_side|]. intros hour_dir.
  apply preserves_bind; [apply preserves_get|]. intros cur.
  apply preserves_bind; [preserves_with idtac; frame_side|]. intros _.
  apply preserves_bind; [apply preserves_get|]. intros opened.
  apply preserves_bind; [|intros _; preserves_with idtac].
  case_decide; [|apply preserves_ret].
  set (f := (hour_dir, name)).
  eapply triple_bind with (Q := λ g st, g = f ∧ full_but f st).
  { unfold open_append.
    eapply triple_bind with (Q := λ _, full_files); [apply fallible_full_files|].
    intros _. eapply triple_bind with (Q := λ _, full_but f).
    - apply triple_modify. intros st [Hne Hff]. cbv beta.
      destruct (tree st !! f) as [rows|] eqn:Hf.
      + split; [|split; [simpl; rewrite Hf; eauto|exact Hff]].
        intros p rows' Hp _. exact (Hne p rows' Hp).
      + split; [|split; [simpl; rewrite lookup_insert_eq; eauto|exact Hff]].
        intros p rows' Hp Hpf. simpl in Hp.
        rewrite lookup_insert_ne in Hp by congruence. exact (Hne p rows' Hp).
    - intros _. apply triple_ret. auto. }
  intros g.
  eapply triple_bind with
    (Q := λ empty st, g = f ∧ full_but f st ∧ (empty = false → full_files st)).
  { apply triple_get. intros st (-> & Hbut). split; [reflexivity|]. split; [exact Hbut|].
    intros Hempty. apply bool_decide_eq_false in Hempty.
    destruct Hbut as (Hne & [rows Hrows] & Hff). split; [|exact Hff].
    intros p rows' Hp. destruct (decide (p = f)) as [->|Hpf]; [|exact (Hne p rows' Hp Hpf)].
    rewrite Hrows in Hp, Hempty. simpl in Hempty. congruence. }
  intros empty.
  eapply triple_bind with (Q := λ _, full_files).
  { destruct empty.
    - unfold writerow.
      eapply triple_bind with (Q := λ _ st, g = f ∧ full_but f st).
      + eapply triple_conseq.
        * apply (fallible_fault_free (λ st, g = f ∧ full_but f st)).
          -- intros st (_ & _ & _ & Hff). exact Hff.
          -- intros st x rest (Hg & Hne & Hsome & Hff) Hw.
             split; [exact Hg|]. split; [exact Hne|]. split; [exact Hsome|].
             exact (proj2 (fault_free_pop _ _ _ Hff Hw)).
        * intros st (? & ? & _). auto.
        * auto.
        * intros e st [].
      + intros _. apply triple_modify. intros st (-> & Hne & _ & Hff).
        split; [|exact Hff]. intros p rows Hp. simpl in Hp.
        destruct (decide (f = p)) as [<-|Hfp].
        * rewrite lookup_insert_eq in Hp. injection Hp as <-.
          destruct (default [] (tree st !! f)); discriminate.
        * rewrite lookup_insert_ne in Hp by exact Hfp.
          apply (Hne p rows Hp). congruence.
    - apply triple_ret. intros st (_ & _ & Hfull). apply Hfull. reflexivity. }
  intros _. apply preserves_modify. intros st Hst. exact Hst.
Qed.

Lemma write_ping_full_files ts_ms target tag rtt_ms success :
  preserves full_files (write_ping ts_ms target tag rtt_ms success).
Proof.
  unfold write_ping. apply preserves_bind; [apply ensure_open_full_files|].
  intros f. apply writerow_full_files.
Qed.

Lemma write_trace_full_files ts_ms dest hop ip :
  preserves full_files (write_trace ts_ms dest hop ip).
Proof.
  unfold write_trace. apply preserves_bind; [apply ensure_open_full_files|].
  intros f. apply writerow_full_files.
Qed.

Lemma write_speedtest_full_files ts_ms tool server_id server_name p d u j :
  preserves full_files (write_speedtest ts_ms tool server_id server_name p d u j).
Proof.
  unfold write_speedtest. apply preserves_bind; [apply ensure_open_full_files|].
  intros f. apply writerow_full_files.
Qed.

End CsvInvariants.

Section MainInvariants.
Import Collector.
Context (cfg : Config).

Lemma main_loop_preserves (I : State → Prop) tool servers :
  preserves I (read_shutdown cfg) →
  preserves I (loop_body cfg tool servers) →
  ∀ fuel, preserves I (main_loop cfg tool servers fuel).
Proof.
  intros Hread Hbody. induction fuel as [|fuel IH]; simpl.
  - apply preserves_ret.
  - apply preserves_bind; [exact Hread|]. intros [|]; [apply preserves_ret|].
    apply preserves_bind; [exact Hbody|]. intros _. exact IH.
Qed.

Lemma main_tree_ok fuel : preserves tree_ok (main cfg fuel).
Proof.
  preserves_by
    ltac:(first [ apply write_ping_tree_ok | apply write_trace_tree_ok
                | apply write_speedtest_tree_ok | apply main_loop_preserves ])
    frame_side.
Qed.

Lemma main_full_files fuel : preserves full_files (main cfg fuel).
Proof.
  preserves_by
    ltac:(first [ apply write_ping_full_files | apply write_trace_full_files
                | apply write_speedtest_full_files | apply main_loop_preserves ])
    frame_side.
Qed.

End MainInvariants.

Section Lifetimes.
Import Collector.

Lemma lifetime_files_ok run s : files_ok s.2 → files_ok (lifetime run s).2.
Proof.
  destruct run as [[cfg w] fuel]. intros Hok. unfold lifetime. simpl.
  apply (preserves_final tree_ok (main cfg fuel) (boot w s.1 s.2) (main_tree_ok cfg fuel)).
  split; [exact Hok|]. intros n f Hn. simpl in Hn. rewrite lookup_empty in Hn. discriminate.
Qed.

Lemma lifetime_no_empty_file run s :
  Forall (λ b, b = false) (w_fault run.1.2) →
  no_empty_file s.2 → no_empty_file (lifetime run s).2.
Proof.
  destruct run as [[cfg w] fuel]. intros Hff Hne. unfold lifetime. simpl.
  apply (preserves_final full_files (main cfg fuel) (boot w s.1 s.2)
           (main_full_files cfg fuel)).
  split; [exact Hne|exact Hff].
Qed.

Lemma lifetimes_files_ok runs s : files_ok s.2 → files_ok (lifetimes runs s).2.
Proof.
  revert s. induction runs as [|run runs IH]; intros s Hok; [exact Hok|].
  simpl. apply IH, lifetime_files_ok, Hok.
Qed.

Lemma lifetimes_no_empty_file runs s :
  Forall (λ run, Forall (λ b, b = false) (w_fault run.1.2)) runs →
  no_empty_file s.2 → no_empty_file (lifetimes runs s).2.
Proof.
  revert s. induction runs as [|run runs IH]; intros s Hff Hne; [exact Hne|].
  apply Forall_cons in Hff as [Hrun Hff].
  simpl. apply IH; [exact Hff|]. apply lifetime_no_empty_file; assumption.
Qed.

(** [_ensure_open] leaves every file that holds a row as it is: it writes
    a header only to a file that is empty when it opens it. *)
Lemma ensure_open_keeps_nonempty p rows name header :
  rows ≠ [] →
  preserves (λ st, tree st !! p = Some rows) (_ensure_open name header).
Proof.
  intros Hrows. unfold _ensure_open.
  apply preserves_bind; [preserves_with assumption|]. intros hour_dir.
  apply preserves_bind; [apply preserves_get|]. intros cur.
  apply preserves_bind; [preserves_with assumption|]. intros _.
  apply preserves_bind; [apply preserves_get|]. intros opened.
  apply preserves_bind; [|intros _; preserves_with assumption].
  case_decide; [|apply preserves_ret].
  set (f := (hour_dir, name)).
  eapply triple_bind with (Q := λ g st, g = f ∧ tree st !! p = Some rows).
  { unfold open_append.
    eapply triple_bind with (Q := λ _ st, tree st !! p = Some rows);
      [preserves_with assumption|].
    intros _. eapply triple_bind with (Q := λ _ st, tree st !! p = Some rows).
    - apply triple_modify. intros st Hp. cbv beta.
      destruct (tree st !! f) as [rows'|] eqn:Hf; [exact Hp|].
      simpl. rewrite lookup_insert_ne by congruence. exact Hp.
    - intros _. apply triple_ret. auto. }
  intros g.
  eapply triple_bind with
    (Q := λ empty st, g = f ∧ tree st !! p = Some rows ∧ (empty = true → f ≠ p)).
  { apply triple_get. intros st (-> & Hp). split; [reflexivity|]. split; [exact Hp|].
    intros Hempty <-. apply bool_decide_eq_true in Hempty.
    rewrite Hp in Hempty. simpl in Hempty. congruence. }
  intros empty.
  eapply triple_bind with (Q := λ _ st, tree st !! p = Some rows).
  { destruct empty.
    - unfold writerow.
      eapply triple_bind with (Q := λ _ st, g = f ∧ tree st !! p = Some rows ∧ f ≠ p).
      + unfold fallible.
        eapply triple_bind with
          (Q := λ _ st, g = f ∧ tree st !! p = Some rows ∧ f ≠ p).
        * apply triple_ask; intros st; intros; tauto.
        * intros [|]; [apply triple_raise|apply triple_ret]; intros st Hst; tauto.
      + intros _. apply triple_modify. intros st (-> & Hp & Hfp). simpl.
        rewrite lookup_insert_ne by exact Hfp. exact Hp.
    - apply triple_ret. intros st Hst. tauto. }
  intros _. apply preserves_modify. intros st Hst. exact Hst.
Qed.

(** C6.  [_ensure_open] never changes a file that already holds a row, so
    a header is written only to a file that is empty when it is opened.
    Whatever the number of process lives (restarts between cycles, by a
    signal or by an exception), the hours read from the clock and the
    storage faults, every file of the tree holds at most one header row;
    a file that holds any row holds exactly one, as its first row, and it
    is the header of its kind.  When no storage call fails, every file of
    the tree holds exactly one header row. *)
Theorem C6_one_header_per_file
        (runs : list (Config * World * nat)) (db : option Tables) :
  (∀ p rows name header st,
      tree st !! p = Some rows → rows ≠ [] →
      tree (_ensure_open name header st).2 !! p = Some rows) ∧
  (∀ p rows,
      (lifetimes runs (db, ∅)).2 !! p = Some rows →
      (header_count rows ≤ 1)%nat ∧
      (rows ≠ [] → header_count rows = 1%nat ∧ head rows = Some (header_row p.2))) ∧
  (Forall (λ run, Forall (λ b, b = false) (w_fault run.1.2)) runs →
   ∀ p rows,
      (lifetimes runs (db, ∅)).2 !! p = Some rows →
      header_count rows = 1%nat ∧ head rows = Some (header_row p.2)).
Proof.
  assert (Hok : files_ok (lifetimes runs (db, ∅)).2).
  { apply lifetimes_files_ok. intros p rows Hp. simpl in Hp.
    rewrite lookup_empty in Hp. discriminate. }
  split; [|split].
  - intros p rows name header st Hp Hrows.
    exact (preserves_final _ _ st (ensure_open_keeps_nonempty p rows name header Hrows) Hp).
  - intros p rows Hp. apply file_ok_header_count, Hok, Hp.
  - intros Hff p rows Hp.
    apply (file_ok_header_count p rows (Hok p rows Hp)).
    refine (lifetimes_no_empty_file runs (db, ∅) Hff _ p rows Hp).
    intros q rows' Hq. simpl in Hq. rewrite lookup_empty in Hq. discriminate.
Qed.

Lemma C6_one_header_witness :
  tree (_ensure_open CSV_PINGS_NAME pings_header c6_state).2
    !! ("20250820_11", "pings.csv") = Some [CStr <$> pings_header] ∧
  ((header_count c6_traceroutes_csv ≤ 1)%nat ∧
   (c6_traceroutes_csv ≠ [] →
    header_count c6_traceroutes_csv = 1%nat ∧
    head c6_traceroutes_csv = Some (header_row "traceroutes.csv"))) ∧
  (header_count c6_traceroutes_csv = 1%nat ∧
   head c6_traceroutes_csv = Some (header_row "traceroutes.csv")).
Proof.
  destruct (C6_one_header_per_file c6_runs None) as (Hopen & Hmost & Hone).
  split; [|split].
  - apply Hopen; [reflexivity|discriminate].
  - apply (Hmost ("20250820_11", "traceroutes.csv")). vm_compute. reflexivity.
  - apply (Hone ltac:(repeat constructor) ("20250820_11", "traceroutes.csv")).
    vm_compute. reflexivity.
Defined.

End Lifetimes.

(** * Path discovery *)

Section Discovery.
Import Collector.
Context (cfg : Config).

Lemma triple_for_each_indexed {A} (I : nat → State → Prop) (l : list A)
      (body : A → M unit) (E : PyExn → State → Prop) :
  (∀ i x, l !! i = Some x → triple (I i) (body x) (λ _, I (S i)) E) →
  triple (I 0%nat) (for_each l body) (λ _, I (length l)) E.
Proof.
  revert I. induction l as [|x l IH]; intros I Hbody; simpl.
  - apply triple_ret. auto.
  - eapply triple_bind; [apply (Hbody 0%nat x); reflexivity|].
    intros ?. apply (IH (λ i, I (S i))). intros i y Hy. apply (Hbody (S i) y). exact Hy.
Qed.

Lemma enumerate_lookup {A} (l : list A) start i :
  enumerate start l !! i = (λ x, (start + Z.of_nat i, x)) <$> l !! i.
Proof.
  revert start i. induction l as [|x l IH]; intros start i; [reflexivity|].
  destruct i as [|i]; simpl.
  - f_equal. f_equal. lia.
  - rewrite IH. destruct (l !! i); simpl; [|reflexivity]. do 2 f_equal. lia.
Qed.

Lemma enumerate_length {A} (l : list A) start : length (enumerate start l) = length l.
Proof. revert start. induction l as [|x l IH]; intros start; simpl; [|rewrite IH]; reflexivity. Qed.

Lemma trace_rows_lookup ts hips i r :
  trace_rows cfg ts hips !! i = Some r →
  ∃ ip, hips !! i = Some ip ∧
        r = Traceroutes.mk ts (DEST_HOST cfg) (1 + Z.of_nat i) (Some ip).
Proof.
  unfold trace_rows. rewrite list_lookup_fmap, enumerate_lookup.
  destruct (hips !! i) as [ip|]; simpl; [|discriminate].
  intros [= <-]. exists ip. split; reflexivity.
Qed.

Lemma trace_rows_length ts hips : length (trace_rows cfg ts hips) = length hips.
Proof. unfold trace_rows. rewrite length_fmap. apply enumerate_length. Qed.

Lemma refresh_hops_rows now base hops ts :
  triple (before_discovery base hops ts) (refresh_hops cfg now)
         (λ _, added base (trace_rows cfg ts (take 3 hops)))
         (λ _ st, ∃ k, added base (take k (trace_rows cfg ts (take 3 hops))) st).
Proof.
  set (rows := trace_rows cfg ts (take 3 hops)).
  set (E := λ (_ : PyExn) st, ∃ k, added base (take k rows) st).
  assert (Hexn : ∀ k e st, added base (take k rows) st → E e st) by (unfold E; eauto).
  unfold refresh_hops.
  eapply triple_bind with
    (Q := λ h st, h = hops ∧ added base [] st ∧ hd 0 (w_epoch_ms (world st)) = ts).
  { unfold do_traceroute.
    eapply triple_bind with
      (Q := λ h st, h = hops ∧ added base [] st ∧ hd 0 (w_epoch_ms (world st)) = ts).
    - apply triple_ask.
      + intros st (Hb & Hh & Ht) Hnil. rewrite Hnil in Hh. simpl in Hh.
        unfold added. rewrite app_nil_r. auto.
      + intros st x rest (Hb & Hh & Ht) Hcons. rewrite Hcons in Hh. simpl in Hh.
        unfold added. rewrite app_nil_r. auto.
    - intros h. apply triple_pure. intros ->.
      eapply triple_bind with
        (Q := λ _ st, added base [] st ∧ hd 0 (w_epoch_ms (world st)) = ts).
      + apply triple_modify. intros st Hst. exact Hst.
      + intros _. apply triple_ret. auto. }
  intros h. apply triple_pure. intros ->.
  eapply triple_bind with (Q := λ t st, t = ts ∧ added base [] st).
  { apply triple_ask.
    - intros st (Hb & Ht) Hnil. rewrite Hnil in Ht. auto.
    - intros st x rest (Hb & Ht) Hcons. rewrite Hcons in Ht. auto. }
  intros t. apply triple_pure. intros ->.
  eapply triple_bind with
    (Q := λ _ st, hop_ips st = take 3 hops ∧ added base [] st).
  { apply triple_modify. intros st Hb. split; [reflexivity|exact Hb]. }
  intros _.
  eapply triple_bind with
    (Q := λ hips st, hips = take 3 hops ∧ added base (take 0 rows) st).
  { apply triple_get. intros st (-> & Hb). auto. }
  intros hips. apply triple_pure. intros ->.
  eapply triple_bind with (Q := λ _, added base (take 0 rows)).
  { apply preserves_triple; [preserves_with assumption|apply Hexn]. }
  intros _.
  eapply triple_bind with (Q := λ _, added base rows).
  { eapply triple_conseq with
      (P' := added base (take 0 rows))
      (Q' := λ _, added base (take (length (enumerate 1 (take 3 hops))) rows)).
    - apply (triple_for_each_indexed (λ i, added base (take i rows))).
      intros i [j ip] Hi.
      eapply triple_bind with (Q := λ _, added base (take (S i) rows)).
      + unfold insert_trace.
        eapply triple_bind with (Q := λ _, added base (take i rows)).
        * apply preserves_triple; [preserves_with assumption|apply Hexn].
        * intros _. apply triple_modify. intros st Hst.
          unfold added in *. simpl. rewrite Hst, <- app_assoc. f_equal.
          symmetry. apply take_S_r. unfold rows, trace_rows.
          rewrite list_lookup_fmap, Hi. reflexivity.
      + intros _. apply preserves_triple; [preserves_with assumption|apply Hexn].
    - auto.
    - intros _ st Hst. rewrite take_ge in Hst; [exact Hst|].
      unfold rows. rewrite trace_rows_length, enumerate_length. lia.
    - auto. }
  intros _.
  apply preserves_triple; [preserves_with assumption|].
  intros e st Hst. exists (length rows). rewrite take_ge by lia. exact Hst.
Qed.

(** *** What a cycle commits *)

Lemma triple_any {A} (P : State → Prop) (m : M A) :
  triple P m (λ _ _, True) (λ _ _, True).
Proof. intros st _. destruct (m st) as [[a|e] st']; exact I. Qed.

Lemma conn_commit_commits (P : State → Prop) :
  triple P conn_commit (λ _ st, disk st = db_view st) (λ _ _, True).
Proof.
  unfold conn_commit. eapply triple_bind; [apply triple_any|].
  intros ?. apply triple_modify. reflexivity.
Qed.

Lemma speedtest_once_commits (P : State → Prop) t server :
  triple P (speedtest_once cfg t server) (λ _ st, disk st = db_view st) (λ _ _, True).
Proof.
  unfold speedtest_once.
  eapply triple_bind; [apply triple_any|]. intros ts_ms.
  eapply triple_bind; [apply triple_any|]. intros res.
  eapply triple_bind; [apply triple_any|]. intros ?.
  apply conn_commit_commits.
Qed.

(** A cycle that ends normally has committed every row it inserted. *)
Lemma loop_body_commits tool servers :
  triple (λ _, True) (loop_body cfg tool servers)
         (λ _ st, disk st = db_view st) (λ _ _, True).
Proof.
  unfold loop_body.
  eapply triple_bind; [apply triple_any|]. intros now.
  eapply triple_bind; [apply triple_any|]. intros ?.
  eapply triple_bind with (Q := λ _ st, disk st = db_view st).
  { unfold ping_phase.
    eapply triple_bind; [apply triple_any|]. intros hips.
    eapply triple_bind; [apply triple_any|]. intros ?.
    apply conn_commit_commits. }
  intros ?.
  eapply triple_bind with (Q := λ _ st, disk st = db_view st).
  - unfold speedtest_phase. destruct tool as [t|]; [|apply triple_ret; auto].
    eapply triple_bind with (Q := λ _ st, disk st = db_view st).
    { apply triple_get. auto. }
    intros last. case_match; [|apply triple_ret; auto].
    eapply triple_bind with (Q := λ _ st, disk st = db_view st).
    + unfold speedtest_batch. destruct servers as [|s rest].
      * apply speedtest_once_commits.
      * apply triple_for_each_break. intros x _.
        eapply triple_bind with (Q := λ _ st, disk st = db_view st);
          [apply speedtest_once_commits|].
        intros ?. apply preserves_triple; [preserves_with assumption|auto].
    + intros ?. apply triple_modify. auto.
  - intros ?. apply preserves_triple; [preserves_with assumption|auto].
Qed.

End Discovery.

Section DiscoveryClaims.
Import Collector.
Context (cfg : Config).

Lemma loop_body_rows tool servers st0 :
  let now := hd 0%Q (w_time (world st0)) in
  let rows := trace_rows cfg (hd 0 (w_epoch_ms (world st0)))
                (take 3 (hd [] (w_traceroute (world st0)))) in
  triple (λ st, st = st0) (loop_body cfg tool servers)
         (λ _, added (traceroutes (db_view st0))
                     (if trace_due cfg now st0 then rows else []))
         (λ _ st, ∃ k, added (traceroutes (db_view st0)) (take k rows) st).
Proof.
  intros now rows.
  set (base := traceroutes (db_view st0)).
  set (hops := hd [] (w_traceroute (world st0))) in *.
  set (ts := hd 0 (w_epoch_ms (world st0))) in *.
  set (due := trace_due cfg now st0).
  assert (Hexn : ∀ k (e : PyExn) st, added base (take k rows) st →
                                     ∃ k', added base (take k' rows) st) by eauto.
  unfold loop_body.
  eapply triple_bind with
    (Q := λ t st, t = now ∧ (before_discovery base hops ts st ∧ trace_due cfg now st = due)).
  { apply triple_ask.
    - intros st -> Hnil. split; [unfold now; rewrite Hnil; reflexivity|].
      split; [repeat split|reflexivity].
    - intros st x rest -> Hcons. split; [unfold now; rewrite Hcons; reflexivity|].
      split; [repeat split|reflexivity]. }
  intros t. apply triple_pure. intros ->.
  eapply triple_bind with (Q := λ _, added base (if due then rows else [])).
  { unfold refresh_if_due.
    eapply triple_bind with
      (Q := λ d st, d = due ∧ before_discovery base hops ts st).
    { apply triple_get. intros st [Hb Hd]. auto. }
    intros d. apply triple_pure. intros ->. destruct due.
    - apply refresh_hops_rows.
    - apply triple_ret. intros st (Hb & _). unfold added. rewrite app_nil_r. exact Hb. }
  intros _.
  apply preserves_triple; [preserves_with assumption|].
  intros e st Hst. destruct due; [exists (length rows)|exists 0%nat].
  - rewrite take_ge by lia. exact Hst.
  - exact Hst.
Qed.

(** C5.  In every cycle, the rows that the cycle adds to the traceroutes
    table are at most 3, all carry the one timestamp read after the
    discovery, and the row at position i (from 0) has hop index i + 1 and
    the i-th address the tool resolved.  When the cycle ends normally they
    are the rows of all of the first 3 resolved addresses if a discovery
    was due, and none otherwise, and they are committed. *)
Theorem C5_discovery_rows (tool : option Tool) (servers : list Server) (st : State) :
  let now := hd 0%Q (w_time (world st)) in
  let hops := hd [] (w_traceroute (world st)) in
  let ts := hd 0 (w_epoch_ms (world st)) in
  let r := loop_body cfg tool servers st in
  ∃ new_rows,
    traceroutes (db_view r.2) = traceroutes (db_view st) ++ new_rows ∧
    (length new_rows ≤ 3)%nat ∧
    (∀ i row, new_rows !! i = Some row →
        Traceroutes.ts_ms row = ts ∧
        Traceroutes.hop row = Z.of_nat i + 1 ∧
        Traceroutes.dest row = DEST_HOST cfg ∧
        Traceroutes.ip row = hops !! i) ∧
    (r.1 = Val tt →
     new_rows = (if trace_due cfg now st then trace_rows cfg ts (take 3 hops) else []) ∧
     disk r.2 = db_view r.2).
Proof.
  intros now hops ts r.
  set (rows := trace_rows cfg ts (take 3 hops)).
  assert (Hrows : ∀ k,
    (length (take k rows) ≤ 3)%nat ∧
    ∀ i row, take k rows !! i = Some row →
        Traceroutes.ts_ms row = ts ∧
        Traceroutes.hop row = Z.of_nat i + 1 ∧
        Traceroutes.dest row = DEST_HOST cfg ∧
        Traceroutes.ip row = hops !! i).
  { intros k. split.
    - rewrite length_take. unfold rows. rewrite trace_rows_length, length_take. lia.
    - intros i row Hi. apply lookup_take_Some in Hi as [Hi _].
      apply trace_rows_lookup in Hi as (ip & Hip & ->).
      apply lookup_take_Some in Hip as [Hip _]. simpl.
      repeat split; [lia|congruence]. }
  pose proof (loop_body_rows tool servers st st eq_refl) as H. fold r in H.
  pose proof (loop_body_commits cfg tool servers st I) as Hc. fold r in Hc.
  destruct r as [[[]|e] st']; simpl in *.
  - fold now hops ts rows in H. destruct (trace_due cfg now st).
    + exists rows. split; [exact H|]. destruct (Hrows (length rows)) as [Hl Hi].
      rewrite take_ge in Hl, Hi by lia. auto.
    + exists []. split; [exact H|]. split; [simpl; lia|]. split; [|auto].
      intros i row Hi. rewrite lookup_nil in Hi. discriminate.
  - fold now hops ts rows in H. destruct H as [k Hk].
    exists (take k rows). split; [exact Hk|]. destruct (Hrows k) as [Hl Hi].
    split; [exact Hl|]. split; [exact Hi|]. discriminate.
Qed.

End DiscoveryClaims.

Section DiscoveryWitness.
Import Collector.

Lemma C5_discovery_rows_witness :
  let row := Traceroutes.mk 10 "8.8.8.8" 3 (Some "10.0.0.3") in
  Traceroutes.ts_ms row = 10 ∧ Traceroutes.hop row = Z.of_nat 2 + 1 ∧
  Traceroutes.dest row = "8.8.8.8" ∧ Traceroutes.ip row = Some "10.0.0.3".
Proof.
  destruct (C5_discovery_rows c5_config None [] c5_state) as (rows & _ & _ & Hi & Hall).
  destruct (Hall eq_refl) as [Hrows _]. apply (Hi 2%nat). rewrite Hrows. reflexivity.
Defined.

End DiscoveryWitness.

(** * The discovery schedule *)

Section Schedule.
Import Collector.
Context (cfg : Config).

Lemma discoveries_snoc cs c :
  discoveries (cs ++ [c]) =
  discoveries cs ++ match discovery_of c with Some d => [d] | None => [] end.
Proof. unfold discoveries. rewrite omap_app. simpl. destruct (discovery_of c); reflexivity. Qed.

Lemma spaced_snoc refresh ds d :
  spaced refresh ds →
  (∀ a, last ds = Some a → a.2 ≠ [] → (inject_Z refresh <= d.1 - a.1)%Q) →
  spaced refresh (ds ++ [d]).
Proof.
  intros Hds Hlast i a b Ha Hb Hne.
  destruct (decide (S i < length ds)%nat) as [Hlt|Hge].
  - rewrite lookup_app_l in Ha by lia. rewrite lookup_app_l in Hb by lia.
    exact (Hds i a b Ha Hb Hne).
  - assert (Hi : (i < length ds)%nat).
    { apply lookup_lt_Some in Hb. rewrite length_app in Hb. simpl in Hb. lia. }
    assert (S i = length ds) as Hlen by lia.
    rewrite lookup_app_l in Ha by lia.
    rewrite lookup_app_r in Hb by lia.
    replace (S i - length ds)%nat with 0%nat in Hb by lia. injection Hb as <-.
    apply Hlast; [|exact Hne]. rewrite last_lookup.
    replace (Nat.pred (length ds)) with i by lia. exact Ha.
Qed.

Lemma discovery_inv_other_call st c :
  discovery_of c = None → discovery_inv cfg st →
  discovery_inv cfg (with_calls (calls st ++ [c]) st).
Proof.
  intros Hc [Hs Hl]. unfold discovery_inv, spaced_calls, linked in *. simpl.
  rewrite discoveries_snoc, Hc, app_nil_r. split; assumption.
Qed.

Lemma spaced_calls_other_call st c :
  discovery_of c = None → spaced_calls cfg st →
  spaced_calls cfg (with_calls (calls st ++ [c]) st).
Proof.
  intros Hc Hs. unfold spaced_calls in *. simpl.
  rewrite discoveries_snoc, Hc, app_nil_r. assumption.
Qed.

End Schedule.

Ltac schedule_side :=
  first
    [ assumption
    | apply discovery_inv_other_call; [reflexivity|assumption]
    | apply spaced_calls_other_call; [reflexivity|assumption] ].

Section ScheduleInvariant.
Import Collector.
Context (cfg : Config).

Lemma refresh_hops_schedule now :
  triple (λ st, discovery_inv cfg st ∧ trace_due cfg now st = true)
         (refresh_hops cfg now)
         (λ _, discovery_inv cfg) (λ _, spaced_calls cfg).
Proof.
  unfold refresh_hops.
  eapply triple_bind with (Q := λ hops st, discovering cfg now hops st).
  { unfold do_traceroute.
    eapply triple_bind with
      (Q := λ _ st, discovery_inv cfg st ∧ trace_due cfg now st = true).
    { apply triple_ask; intros; assumption. }
    intros hops.
    eapply triple_bind with (Q := λ _ st, discovering cfg now hops st).
    - unfold record. apply triple_modify. intros st [[Hs Hl] Hdue].
      unfold discovering, spaced_calls in *. simpl.
      rewrite discoveries_snoc. simpl. split; [|apply last_snoc].
      apply spaced_snoc; [exact Hs|]. intros [t h] Hlast Hne. simpl in *.
      unfold linked in Hl. rewrite Hlast in Hl. destruct Hl as [Ht Hh].
      unfold trace_due in Hdue. rewrite Ht, Hh in Hdue.
      rewrite bool_decide_eq_false_2 in Hdue by (destruct h; [congruence|discriminate]).
      rewrite orb_false_r in Hdue. apply Qle_bool_iff. exact Hdue.
    - intros _. apply triple_ret. auto. }
  intros hops.
  assert (Hexn : ∀ (e : PyExn) st, discovering cfg now hops st → spaced_calls cfg st)
    by (intros e st [Hs _]; exact Hs).
  eapply triple_bind with (Q := λ _, discovering cfg now hops).
  { apply preserves_triple; [preserves_with assumption|exact Hexn]. }
  intros ts_ms.
  eapply triple_bind with
    (Q := λ _ st, discovering cfg now hops st ∧ hop_ips st = take 3 hops).
  { apply triple_modify. intros st Hst. split; [exact Hst|reflexivity]. }
  intros _.
  apply triple_conseq with
    (P' := λ st, discovering cfg now hops st ∧ hop_ips st = take 3 hops)
    (Q' := λ _ st, discovery_inv cfg st)
    (E' := λ _ st, discovering cfg now hops st ∧ hop_ips st = take 3 hops);
    [|auto|auto|intros e st [Hst _]; exact (Hexn e st Hst)].
  eapply triple_bind with
    (Q := λ _ st, discovering cfg now hops st ∧ hop_ips st = take 3 hops).
  { preserves_with assumption. }
  intros hips.
  eapply triple_bind with
    (Q := λ _ st, discovering cfg now hops st ∧ hop_ips st = take 3 hops).
  { preserves_with assumption. }
  intros _.
  eapply triple_bind with
    (Q := λ _ st, discovering cfg now hops st ∧ hop_ips st = take 3 hops).
  { preserves_with assumption. }
  intros _.
  eapply triple_bind with
    (Q := λ _ st, discovering cfg now hops st ∧ hop_ips st = take 3 hops).
  { preserves_with assumption. }
  intros _. apply triple_modify. intros st [[Hs Hlast] Hh].
  split; [exact Hs|]. unfold linked. simpl. rewrite Hlast. split; [reflexivity|exact Hh].
Qed.

Lemma loop_body_schedule tool servers :
  triple (discovery_inv cfg) (loop_body cfg tool servers)
         (λ _, discovery_inv cfg) (λ _, spaced_calls cfg).
Proof.
  assert (Hexn : ∀ (e : PyExn) st, discovery_inv cfg st → spaced_calls cfg st)
    by (intros e st [Hs _]; exact Hs).
  unfold loop_body.
  eapply triple_bind with (Q := λ _, discovery_inv cfg).
  { apply preserves_triple; [preserves_with schedule_side|exact Hexn]. }
  intros now.
  eapply triple_bind with (Q := λ _, discovery_inv cfg).
  { unfold refresh_if_due.
    eapply triple_bind with
      (Q := λ due st, discovery_inv cfg st ∧ trace_due cfg now st = due).
    { apply triple_get. auto. }
    intros [|]; [apply refresh_hops_schedule|].
    apply triple_ret. intros st [Hst _]. exact Hst. }
  intros _.
  apply preserves_triple; [preserves_with schedule_side|exact Hexn].
Qed.

Lemma main_loop_schedule tool servers fuel :
  triple (discovery_inv cfg) (main_loop cfg tool servers fuel)
         (λ _, discovery_inv cfg) (λ _, spaced_calls cfg).
Proof.
  assert (Hexn : ∀ (e : PyExn) st, discovery_inv cfg st → spaced_calls cfg st)
    by (intros e st [Hs _]; exact Hs).
  induction fuel as [|fuel IH]; simpl.
  - apply triple_ret. auto.
  - eapply triple_bind with (Q := λ _, discovery_inv cfg).
    { apply preserves_triple; [preserves_with schedule_side|exact Hexn]. }
    intros [|]; [apply triple_ret; auto|].
    eapply triple_bind with (Q := λ _, discovery_inv cfg);
      [apply loop_body_schedule|]. intros _. exact IH.
Qed.

Lemma main_schedule fuel :
  triple (discovery_inv cfg) (main cfg fuel)
         (λ _, spaced_calls cfg) (λ _, spaced_calls cfg).
Proof.
  assert (Hexn : ∀ (e : PyExn) st, discovery_inv cfg st → spaced_calls cfg st)
    by (intros e st [Hs _]; exact Hs).
  unfold main.
  eapply triple_bind with (Q := λ _, discovery_inv cfg).
  { apply preserves_triple; [preserves_with schedule_side|exact Hexn]. }
  intros tool.
  eapply triple_bind with (Q := λ _, discovery_inv cfg).
  { apply preserves_triple; [preserves_with schedule_side|exact Hexn]. }
  intros _.
  eapply triple_bind with (Q := λ _, discovery_inv cfg).
  { apply preserves_triple; [preserves_with schedule_side|exact Hexn]. }
  intros servers.
  eapply triple_bind with (Q := λ _, discovery_inv cfg).
  { apply preserves_triple; [preserves_with schedule_side|exact Hexn]. }
  intros _.
  eapply triple_bind with (Q := λ _, discovery_inv cfg).
  { apply preserves_triple; [preserves_with schedule_side|exact Hexn]. }
  intros _.
  eapply triple_bind with (Q := λ _, discovery_inv cfg).
  { apply preserves_triple; [preserves_with schedule_side|exact Hexn]. }
  intros _.
  eapply triple_bind with (Q := λ _, discovery_inv cfg);
    [apply main_loop_schedule|].
  intros left.
  apply triple_conseq with
    (P' := discovery_inv cfg) (Q' := λ _, discovery_inv cfg) (E' := λ _, discovery_inv cfg);
    [|auto|intros a st Hst; exact (Hexn ValueError st Hst)|exact Hexn].
  preserves_with schedule_side.
Qed.

End ScheduleInvariant.

Section ScheduleClaims.
Import Collector.

Lemma called_after_more base c st c' :
  called_after base c st → called_after base c (with_calls (calls st ++ [c']) st).
Proof.
  intros [rest Hrest]. exists (rest ++ [c']). simpl.
  rewrite Hrest, <- app_assoc. reflexivity.
Qed.

Lemma loop_body_retries cfg tool servers st0 :
  hop_ips st0 = [] →
  triple (λ st, st = st0) (loop_body cfg tool servers)
         (λ _, called_after (calls st0)
                 (CallTraceroute (hd 0%Q (w_time (world st0))) (DEST_HOST cfg)
                                 (hd [] (w_traceroute (world st0)))))
         (λ _, called_after (calls st0)
                 (CallTraceroute (hd 0%Q (w_time (world st0))) (DEST_HOST cfg)
                                 (hd [] (w_traceroute (world st0))))).
Proof.
  intros Hnone.
  set (now := hd 0%Q (w_time (world st0))).
  set (hops := hd [] (w_traceroute (world st0))).
  set (c := CallTraceroute now (DEST_HOST cfg) hops).
  unfold loop_body.
  eapply triple_bind with
    (Q := λ t st, t = now ∧ (calls st = calls st0 ∧ hop_ips st = [] ∧
                             hd [] (w_traceroute (world st)) = hops)).
  { apply triple_ask.
    - intros st -> Hnil. split; [unfold now; rewrite Hnil; reflexivity|]. auto.
    - intros st x rest -> Hcons. split; [unfold now; rewrite Hcons; reflexivity|]. auto. }
  intros t. apply triple_pure. intros ->.
  eapply triple_bind with (Q := λ _, called_after (calls st0) c).
  - unfold refresh_if_due.
    eapply triple_bind with
      (Q := λ due st, due = true ∧ (calls st = calls st0 ∧
                                    hd [] (w_traceroute (world st)) = hops)).
    { apply triple_get. intros st (Hc & Hh & Ht). split; [|auto].
      unfold trace_due. rewrite Hh, bool_decide_eq_true_2 by reflexivity.
      apply orb_true_r. }
    intros due. apply triple_pure. intros ->.
    unfold refresh_hops.
    eapply triple_bind with (Q := λ _, called_after (calls st0) c).
    + unfold do_traceroute.
      eapply triple_bind with (Q := λ h st, h = hops ∧ calls st = calls st0).
      { apply triple_ask.
        - intros st [Hc Hh] Hnil. rewrite Hnil in Hh. auto.
        - intros st x rest [Hc Hh] Hcons. rewrite Hcons in Hh. auto. }
      intros h. apply triple_pure. intros ->.
      eapply triple_bind with (Q := λ _, called_after (calls st0) c).
      * apply triple_modify. intros st Hc. exists []. simpl. rewrite Hc. reflexivity.
      * intros ?. apply triple_ret. auto.
    + intros ?.
      preserves_with ltac:(first [assumption|apply called_after_more; assumption]).
  - intros ?.
    preserves_with ltac:(first [assumption|apply called_after_more; assumption]).
Qed.

(** C1, as the code has it.  In every run of [main], of two consecutive
    discoveries the later one is made in a cycle whose clock reading is at
    least TRACEROUTE_REFRESH_SEC after that of the earlier one, provided
    the earlier one resolved at least one hop.  A cycle that starts with
    no known hop makes a discovery at once, whatever time has gone by. *)
Theorem C1_refresh_spacing_after_resolved (cfg : Config) :
  (∀ (w : World) (db : option Tables) (tr : gmap fpath (list csv_row)) (fuel : nat)
     i a b,
      let ds := discoveries (calls (main cfg fuel (boot w db tr)).2) in
      ds !! i = Some a → ds !! S i = Some b → a.2 ≠ [] →
      (inject_Z (TRACEROUTE_REFRESH_SEC cfg) <= b.1 - a.1)%Q) ∧
  (∀ tool servers st,
      hop_ips st = [] →
      ∃ rest,
        calls (loop_body cfg tool servers st).2 =
        calls st ++ CallTraceroute (hd 0%Q (w_time (world st))) (DEST_HOST cfg)
                                   (hd [] (w_traceroute (world st))) :: rest).
Proof.
  split.
  - intros w db tr fuel.
    assert (H : spaced_calls cfg (main cfg fuel (boot w db tr)).2).
    { pose proof (main_schedule cfg fuel (boot w db tr)) as Hm.
      destruct (main cfg fuel (boot w db tr)) as [[left|e] st']; apply Hm.
      all: split; [intros i a b Ha; cbn in Ha; discriminate|exact I]. }
    exact H.
  - intros tool servers st Hnone.
    pose proof (loop_body_retries cfg tool servers st Hnone st eq_refl) as H.
    destruct (loop_body cfg tool servers st) as [[u|e] st']; exact H.
Qed.

Lemma C1_refresh_spacing_witness :
  (inject_Z (TRACEROUTE_REFRESH_SEC c1_config) <= 1300 - 1000)%Q ∧
  ∃ rest,
    calls (loop_body c1_config None [] (boot c1_world None ∅)).2 =
    [] ++ CallTraceroute 1000 "8.8.8.8" [] :: rest.
Proof.
  split.
  - apply (proj1 (C1_refresh_spacing_after_resolved c1_config)
                 c1_world_resolved None ∅ 2%nat 0%nat
                 (1000%Q, ["10.0.0.1"]) (1300%Q, ["10.0.0.1"])).
    + vm_compute. reflexivity.
    + vm_compute. reflexivity.
    + discriminate.
  - apply (proj2 (C1_refresh_spacing_after_resolved c1_config)
                 None [] (boot c1_world None ∅)).
    reflexivity.
Defined.

(** C1 as stated fails: the tool resolves nothing in the first cycle, and
    the second cycle, three seconds later, calls it again although
    TRACEROUTE_REFRESH_SEC is 300. *)
Lemma C1_counterexample :
  discoveries (calls (main c1_config 2 (boot c1_world None ∅)).2)
  = [(1000%Q, []); (1003%Q, [])] ∧
  ¬ (inject_Z (TRACEROUTE_REFRESH_SEC c1_config) <= 1003 - 1000)%Q.
Proof.
  split; [vm_compute; reflexivity|].
  intros H. apply H. reflexivity.
Qed.

End ScheduleClaims.

(** * Failing storage calls *)

Section StorageFailure.
Import Collector.
Context (cfg : Config).

Lemma triple_bind_raises {A B} (P : State → Prop) (m : M A) (f : A → M B)
      (Q : B → State → Prop) (E : PyExn → State → Prop) :
  triple P m (λ _ _, False) E → triple P (m ≫= f) Q E.
Proof.
  intros Hm. eapply triple_bind; [exact Hm|]. intros a st [].
Qed.

(** A storage call raises when the next fault flag is set. *)
Lemma fallible_raises (P : State → Prop) e (E : PyExn → State → Prop) :
  (∀ st, P st → hd false (w_fault (world st)) = true) →
  (∀ st rest, P st → E e (with_world (with_w_fault rest (world st)) st)) →
  triple P (fallible e) (λ _ _, False) E.
Proof.
  intros Hflag HE. unfold fallible.
  eapply triple_bind with (Q := λ fault st, fault = true ∧ E e st).
  - apply triple_ask.
    + intros st Hst Hnil. specialize (Hflag st Hst). rewrite Hnil in Hflag. discriminate.
    + intros st x rest Hst Hcons. specialize (Hflag st Hst). rewrite Hcons in Hflag.
      simpl in Hflag. split; [exact Hflag|]. apply HE, Hst.
  - intros fault. apply triple_pure. intros ->. apply triple_raise. auto.
Qed.

Lemma ping_loop_insert_fails ip tag rest st0 :
  hd false (w_fault (world st0)) = true →
  triple (λ st, st = st0) (ping_loop cfg ((ip, tag) :: rest))
         (λ _ _, False) (insert_failed st0 ip).
Proof.
  intros Hfault. unfold ping_loop. simpl. apply triple_bind_raises.
  unfold ping_target.
  eapply triple_bind with
    (Q := λ _ st, hd false (w_fault (world st)) = true ∧ storage_as st0 st ∧
                  db_view st = db_view st0 ∧ calls st = calls st0).
  { apply triple_ask.
    - intros st -> _. repeat split. exact Hfault.
    - intros st x rs -> _. repeat split. exact Hfault. }
  intros ts_ms.
  eapply triple_bind with
    (Q := λ _ st, hd false (w_fault (world st)) = true ∧ storage_as st0 st ∧
                  db_view st = db_view st0 ∧ calls st = calls st0 ++ [CallPing ip]).
  { unfold do_ping.
    eapply triple_bind with
      (Q := λ _ st, hd false (w_fault (world st)) = true ∧ storage_as st0 st ∧
                    db_view st = db_view st0 ∧ calls st = calls st0).
    { apply triple_ask; intros; assumption. }
    intros r.
    eapply triple_bind with
      (Q := λ _ st, hd false (w_fault (world st)) = true ∧ storage_as st0 st ∧
                    db_view st = db_view st0 ∧ calls st = calls st0 ++ [CallPing ip]).
    - apply triple_modify. intros st (Hf & Hs & Hd & Hc). simpl. rewrite Hc. auto.
    - intros ?. apply triple_ret. auto. }
  intros r. destruct r as [rtt|]; simpl.
  all: apply triple_bind_raises; unfold insert_ping; apply triple_bind_raises.
  all: apply fallible_raises; [intros st Hst; apply Hst|].
  all: intros st fs (_ & Hs & Hd & Hc); split; [reflexivity|]; auto.
Qed.

Lemma csv_pending_raises st0 ip tag :
  triple (csv_pending st0 ip tag) (fallible OSError) (λ _ _, False) (csv_failed st0 ip tag).
Proof.
  apply fallible_raises; [intros st Hst; apply Hst|].
  intros st fs (_ & Hs & Hd & Hc). split; [reflexivity|]. auto.
Qed.

Lemma write_ping_fails st0 ip tag ts_ms target tg rtt_ms success :
  triple (csv_pending st0 ip tag) (write_ping ts_ms target tg rtt_ms success)
         (λ _ _, False) (csv_failed st0 ip tag).
Proof.
  unfold write_ping.
  eapply triple_bind with (Q := λ _, csv_pending st0 ip tag);
    [|intros f; unfold writerow; apply triple_bind_raises, csv_pending_raises].
  unfold _ensure_open.
  eapply triple_bind with (Q := λ _, csv_pending st0 ip tag).
  { apply triple_ask; intros; assumption. }
  intros hour_dir.
  eapply triple_bind with (Q := λ _, csv_pending st0 ip tag).
  { apply triple_get. auto. }
  intros cur.
  eapply triple_bind with (Q := λ _, csv_pending st0 ip tag).
  { case_decide; [|apply triple_ret; auto].
    eapply triple_bind with (Q := λ _, csv_pending st0 ip tag).
    { apply triple_modify. auto. }
    intros ?. unfold mkdir. apply triple_bind_raises, csv_pending_raises. }
  intros ?.
  eapply triple_bind with (Q := λ opened st, csv_pending st0 ip tag st ∧ opened = files st).
  { apply triple_get. auto. }
  intros opened.
  eapply triple_bind with
    (Q := λ _ st, csv_pending st0 ip tag st ∧ is_Some (files st !! CSV_PINGS_NAME)).
  { case_decide as Hopen.
    - unfold open_append. do 2 apply triple_bind_raises.
      eapply triple_conseq;
        [apply csv_pending_raises|intros st [Hst _]; exact Hst|intros ? st []|auto].
    - apply triple_ret. intros st [Hst ->]. split; [exact Hst|].
      destruct (files st !! CSV_PINGS_NAME); [eauto|congruence]. }
  intros ?.
  eapply triple_bind with
    (Q := λ opened st, csv_pending st0 ip tag st ∧ is_Some (opened !! CSV_PINGS_NAME)).
  { apply triple_get. auto. }
  intros opened'. destruct (opened' !! CSV_PINGS_NAME) as [f|] eqn:Hf.
  - apply triple_ret. tauto.
  - apply triple_raise. intros st [_ [f Hsome]]. discriminate.
Qed.

Lemma ping_loop_csv_fails ip tag rest st0 fs :
  w_fault (world st0) = false :: true :: fs →
  triple (λ st, st = st0) (ping_loop cfg ((ip, tag) :: rest))
         (λ _ _, False) (csv_failed st0 ip tag).
Proof.
  intros Hfault. unfold ping_loop. simpl. apply triple_bind_raises.
  unfold ping_target.
  eapply triple_bind with
    (Q := λ _ st, w_fault (world st) = false :: true :: fs ∧ storage_as st0 st ∧
                  db_view st = db_view st0 ∧ calls st = calls st0).
  { apply triple_ask.
    - intros st -> _. repeat split. exact Hfault.
    - intros st x rs -> _. repeat split. exact Hfault. }
  intros ts_ms.
  eapply triple_bind with
    (Q := λ _ st, w_fault (world st) = false :: true :: fs ∧ storage_as st0 st ∧
                  db_view st = db_view st0 ∧ calls st = calls st0 ++ [CallPing ip]).
  { unfold do_ping.
    eapply triple_bind with
      (Q := λ _ st, w_fault (world st) = false :: true :: fs ∧ storage_as st0 st ∧
                    db_view st = db_view st0 ∧ calls st = calls st0).
    { apply triple_ask; intros; assumption. }
    intros r.
    eapply triple_bind with
      (Q := λ _ st, w_fault (world st) = false :: true :: fs ∧ storage_as st0 st ∧
                    db_view st = db_view st0 ∧ calls st = calls st0 ++ [CallPing ip]).
    - apply triple_modify. intros st (Hf & Hs & Hd & Hc). simpl. rewrite Hc. auto.
    - intros ?. apply triple_ret. auto. }
  intros r. destruct r as [rtt|]; simpl.
  all: eapply triple_bind with (Q := λ _, csv_pending st0 ip tag);
    [|intros ?; apply triple_bind_raises, write_ping_fails].
  all: unfold insert_ping.
  all: eapply triple_bind with
         (Q := λ _ st, hd false (w_fault (world st)) = true ∧ storage_as st0 st ∧
                       db_view st = db_view st0 ∧ calls st = calls st0 ++ [CallPing ip]).
  all: try (intros ?; rewrite decide_True by (unfold Pings.check; simpl; auto);
            apply triple_modify; intros st (Hf & Hs & Hd & Hc);
            split; [exact Hf|]; split; [exact Hs|]; split; [|exact Hc];
            eexists; simpl; rewrite Hd; split; [reflexivity|]; split; reflexivity).
  all: unfold fallible.
  all: eapply triple_bind with
         (Q := λ fault st, fault = false ∧
                           (hd false (w_fault (world st)) = true ∧ storage_as st0 st ∧
                            db_view st = db_view st0 ∧ calls st = calls st0 ++ [CallPing ip])).
  all: try (apply triple_ask;
            [intros st (Hf & _) Hnil; rewrite Hnil in Hf; discriminate
            |intros st x rs (Hf & Hs & Hd & Hc) Hcons; rewrite Hcons in Hf;
             injection Hf as -> ->; split; [reflexivity|]; simpl; auto]).
  all: intros fault; apply triple_pure; intros ->; apply triple_ret; auto.
Qed.

End StorageFailure.

(** * A batch of speedtests *)

Section Throughput.
Import Collector.
Context (cfg : Config).

Lemma fallible_quiet (I : State → Prop) e :
  (∀ st, I st → w_fault (world st) = []) →
  triple I (fallible e) (λ _, I) (λ _ _, False).
Proof.
  intros Hquiet. unfold fallible.
  eapply triple_bind with (Q := λ fault st, fault = false ∧ I st).
  - apply triple_ask.
    + intros st Hst _. auto.
    + intros st x rest Hst Hcons. rewrite (Hquiet st Hst) in Hcons. discriminate.
  - intros fault. apply triple_pure. intros ->. apply triple_ret. auto.
Qed.

Lemma log_returns (I : State → Prop) line :
  (∀ st v, I st → I (with_stdout v st)) →
  triple I (_log cfg line) (λ _, I) (λ _ _, False).
Proof.
  intros Hframe. unfold _log. destruct (VERBOSE cfg).
  - apply triple_modify. intros st Hst. apply Hframe, Hst.
  - apply triple_ret. auto.
Qed.

Lemma read_shutdown_quiet (I : State → Prop) :
  (∀ st, I st → quiet st) →
  triple I (read_shutdown cfg) (λ stop st, stop = false ∧ I st) (λ _ _, False).
Proof.
  intros Hquiet. unfold read_shutdown.
  eapply triple_bind with (Q := λ arrived st, arrived = false ∧ I st).
  - apply triple_ask.
    + intros st Hst _. auto.
    + intros st x rest Hst Hcons. destruct (Hquiet st Hst) as (_ & Hs & _).
      rewrite Hs in Hcons. discriminate.
  - intros arrived. apply triple_pure. intros ->.
    eapply triple_bind with (Q := λ _, I); [apply triple_ret; auto|].
    intros ?. apply triple_get. intros st Hst. split; [|exact Hst].
    apply (Hquiet st Hst).
Qed.

Lemma conn_commit_quiet (I : State → Prop) :
  (∀ st, I st → w_fault (world st) = []) →
  (∀ st v, I st → I (with_disk v st)) →
  triple I conn_commit (λ _ st, I st ∧ disk st = db_view st) (λ _ _, False).
Proof.
  intros Hquiet Hframe. unfold conn_commit.
  eapply triple_bind; [apply (fallible_quiet I), Hquiet|].
  intros ?. apply triple_modify. intros st Hst. split; [apply Hframe, Hst|reflexivity].
Qed.

(** Without storage faults a CSV write returns; it changes only the tree,
    the handles, the current hour and the hours left to read. *)
Lemma write_speedtest_quiet (I : State → Prop) ts_ms tool sid sname p d u j :
  (∀ st, I st → w_fault (world st) = []) →
  (∀ st v, I st → I (with_tree v st)) →
  (∀ st v, I st → I (with_files v st)) →
  (∀ st v, I st → I (with_current_hour_dir v st)) →
  (∀ st v, I st → I (with_world (with_w_hour v (world st)) st)) →
  triple I (write_speedtest ts_ms tool sid sname p d u j) (λ _, I) (λ _ _, False).
Proof.
  intros Hquiet Htree Hfiles Hcur Hhour.
  assert (Hwrite : ∀ f r, triple I (writerow f r) (λ _, I) (λ _ _, False)).
  { intros f r. unfold writerow.
    eapply triple_bind; [apply (fallible_quiet I), Hquiet|].
    intros ?. apply triple_modify. intros st Hst. apply Htree, Hst. }
  unfold write_speedtest.
  eapply triple_bind with (Q := λ _, I); [|intros f; apply Hwrite].
  unfold _ensure_open.
  eapply triple_bind with (Q := λ _, I).
  { apply triple_ask; [auto|]. intros st x rest Hst _. apply Hhour, Hst. }
  intros hour_dir.
  eapply triple_bind with (Q := λ _, I); [apply triple_get; auto|].
  intros cur.
  eapply triple_bind with (Q := λ _, I).
  { case_decide; [|apply triple_ret; auto].
    eapply triple_bind with (Q := λ _, I).
    { apply triple_modify. intros st Hst. apply Hfiles, Hst. }
    intros ?. eapply triple_bind with (Q := λ _, I).
    { apply (fallible_quiet I), Hquiet. }
    intros ?. eapply triple_bind with (Q := λ _, I).
    { apply triple_modify. intros st Hst. apply Hcur, Hst. }
    intros ?. apply triple_modify. intros st Hst. apply Hfiles, Hst. }
  intros ?.
  eapply triple_bind with (Q := λ opened st, I st ∧ opened = files st).
  { apply triple_get. auto. }
  intros opened.
  eapply triple_bind with
    (Q := λ _ st, I st ∧ is_Some (files st !! CSV_SPEEDTESTS_NAME)).
  { case_decide as Hopen.
    - eapply triple_bind with (Q := λ _, I).
      { unfold open_append.
        eapply triple_bind with (Q := λ _, I).
        { eapply triple_conseq;
            [apply (fallible_quiet I), Hquiet|intros st [Hst _]; exact Hst|auto|auto]. }
        intros ?. eapply triple_bind with (Q := λ _, I).
        { apply triple_modify. intros st Hst. apply Htree, Hst. }
        intros ?. apply triple_ret. auto. }
      intros f. eapply triple_bind with (Q := λ _, I); [apply triple_get; auto|].
      intros empty. eapply triple_bind with (Q := λ _, I).
      { destruct empty; [apply Hwrite|apply triple_ret; auto]. }
      intros ?. apply triple_modify. intros st Hst. split; [apply Hfiles, Hst|].
      simpl. rewrite lookup_insert_eq. eauto.
    - apply triple_ret. intros st [Hst ->]. split; [exact Hst|].
      destruct (files st !! CSV_SPEEDTESTS_NAME); [eauto|congruence]. }
  intros ?.
  eapply triple_bind with
    (Q := λ opened st, I st ∧ is_Some (opened !! CSV_SPEEDTESTS_NAME)).
  { apply triple_get. auto. }
  intros opened'. destruct (opened' !! CSV_SPEEDTESTS_NAME) as [f|] eqn:Hf.
  - apply triple_ret. tauto.
  - apply triple_raise. intros st [_ [f Hsome]]. discriminate.
Qed.

Lemma batch_view_quiet answers epochs rows cs st :
  batch_view answers epochs rows cs st → quiet st.
Proof. intros (_ & _ & _ & _ & Hq). exact Hq. Qed.

Lemma batch_view_no_fault answers epochs rows cs st :
  batch_view answers epochs rows cs st → w_fault (world st) = [].
Proof. intros H. apply (batch_view_quiet _ _ _ _ _ H). Qed.

(** One speedtest of the batch, seen through [batch_view]. *)
Lemma speedtest_once_error t server err answers epochs rows cs :
  triple (batch_view (StError err :: answers) epochs rows cs)
         (speedtest_once cfg t server)
         (λ _ st, batch_view answers (tail epochs) rows
                    (cs ++ [CallSpeedtest t (id <$> server)]) st ∧
                  disk st = db_view st)
         (λ _ _, False).
Proof.
  unfold speedtest_once.
  eapply triple_bind with
    (Q := λ _, batch_view (StError err :: answers) (tail epochs) rows cs).
  { apply triple_ask.
    - intros st (Ha & He & Hr & Hc & Hq) Hnil. rewrite Hnil in He. subst epochs.
      repeat split; try assumption; apply Hq.
    - intros st x rest (Ha & He & Hr & Hc & Hq) Hcons. rewrite Hcons in He. subst epochs.
      repeat split; try assumption; apply Hq. }
  intros ts_ms.
  eapply triple_bind with
    (Q := λ res st, res = StError err ∧
                    batch_view answers (tail epochs) rows
                      (cs ++ [CallSpeedtest t (id <$> server)]) st).
  { unfold run_speedtest.
    eapply triple_bind with
      (Q := λ res st, res = StError err ∧ batch_view answers (tail epochs) rows cs st).
    - apply triple_ask.
      + intros st (Ha & _) Hnil. rewrite Hnil in Ha. discriminate.
      + intros st x rest (Ha & He & Hr & Hc & Hq) Hcons. rewrite Hcons in Ha.
        injection Ha as -> ->. repeat split; try assumption; apply Hq.
    - intros res. apply triple_pure. intros ->.
      eapply triple_bind with
        (Q := λ _, batch_view answers (tail epochs) rows
                     (cs ++ [CallSpeedtest t (id <$> server)])).
      + apply triple_modify. intros st (Ha & He & Hr & Hc & Hq).
        repeat split; try assumption; try apply Hq. simpl. rewrite Hc. reflexivity.
      + intros ?. apply triple_ret. auto. }
  intros res. apply triple_pure. intros ->.
  eapply triple_bind with
    (Q := λ _, batch_view answers (tail epochs) rows
                 (cs ++ [CallSpeedtest t (id <$> server)])).
  { apply log_returns. intros st v Hst. exact Hst. }
  intros ?. apply conn_commit_quiet; [apply batch_view_no_fault|].
  intros st v Hst. exact Hst.
Qed.

Lemma speedtest_once_data t server d down up ping answers epochs rows cs :
  r_download_mbps d = Some down → r_upload_mbps d = Some up → r_ping_ms d = Some ping →
  triple (batch_view (StData d :: answers) epochs rows cs)
         (speedtest_once cfg t server)
         (λ _ st, batch_view answers (tail epochs) (rows ++ [speedtest_row (hd 0 epochs) d])
                    (cs ++ [CallSpeedtest t (id <$> server)]) st ∧
                  disk st = db_view st)
         (λ _ _, False).
Proof.
  intros Hdown Hup Hping. unfold speedtest_once.
  eapply triple_bind with
    (Q := λ ts st, ts = hd 0 epochs ∧
                   batch_view (StData d :: answers) (tail epochs) rows cs st).
  { apply triple_ask.
    - intros st (Ha & He & Hr & Hc & Hq) Hnil. rewrite Hnil in He. subst epochs.
      repeat split; try assumption; apply Hq.
    - intros st x rest (Ha & He & Hr & Hc & Hq) Hcons. rewrite Hcons in He. subst epochs.
      repeat split; try assumption; apply Hq. }
  intros ts_ms. apply triple_pure. intros ->.
  eapply triple_bind with
    (Q := λ res st, res = StData d ∧
                    batch_view answers (tail epochs) rows
                      (cs ++ [CallSpeedtest t (id <$> server)]) st).
  { unfold run_speedtest.
    eapply triple_bind with
      (Q := λ res st, res = StData d ∧ batch_view answers (tail epochs) rows cs st).
    - apply triple_ask.
      + intros st (Ha & _) Hnil. rewrite Hnil in Ha. discriminate.
      + intros st x rest (Ha & He & Hr & Hc & Hq) Hcons. rewrite Hcons in Ha.
        injection Ha as -> ->. repeat split; try assumption; apply Hq.
    - intros res. apply triple_pure. intros ->.
      eapply triple_bind with
        (Q := λ _, batch_view answers (tail epochs) rows
                     (cs ++ [CallSpeedtest t (id <$> server)])).
      + apply triple_modify. intros st (Ha & He & Hr & Hc & Hq).
        repeat split; try assumption; try apply Hq. simpl. rewrite Hc. reflexivity.
      + intros ?. apply triple_ret. auto. }
  intros res. apply triple_pure. intros ->.
  set (cs' := cs ++ [CallSpeedtest t (id <$> server)]).
  set (row := speedtest_row (hd 0 epochs) d).
  eapply triple_bind with (Q := λ _, batch_view answers (tail epochs) (rows ++ [row]) cs').
  { rewrite Hdown, Hup, Hping. simpl.
    eapply triple_bind with (Q := λ _, batch_view answers (tail epochs) rows cs');
      [apply triple_ret; auto|]. intros ?.
    eapply triple_bind with (Q := λ _, batch_view answers (tail epochs) rows cs');
      [apply triple_ret; auto|]. intros ?.
    eapply triple_bind with (Q := λ _, batch_view answers (tail epochs) rows cs');
      [apply triple_ret; auto|]. intros ?.
    eapply triple_bind with (Q := λ _, batch_view answers (tail epochs) rows cs').
    { apply log_returns. intros st v Hst. exact Hst. }
    intros ?.
    eapply triple_bind with (Q := λ _, batch_view answers (tail epochs) (rows ++ [row]) cs').
    { unfold insert_speedtest.
      eapply triple_bind with (Q := λ _, batch_view answers (tail epochs) rows cs').
      { apply fallible_quiet, batch_view_no_fault. }
      intros ?. apply triple_modify. intros st (Ha & He & Hr & Hc & Hq).
      repeat split; try assumption; try apply Hq. simpl. rewrite Hr.
      unfold row, speedtest_row. rewrite Hdown, Hup, Hping. reflexivity. }
    intros ?. apply write_speedtest_quiet.
    - apply batch_view_no_fault.
    - intros st v Hst. exact Hst.
    - intros st v Hst. exact Hst.
    - intros st v Hst. exact Hst.
    - intros st v Hst. exact Hst. }
  intros ?. apply conn_commit_quiet; [apply batch_view_no_fault|].
  intros st v Hst. exact Hst.
Qed.

(** When the probe of the first of two servers returns an error and the
    probe of the second returns a result that carries the three rates the
    log line formats, and no storage call fails and no signal arrives, the
    batch probes both servers in order, inserts and commits exactly one
    row, the second server's, and returns. *)
Lemma speedtest_batch_isolates t a b st err d down up ping answers :
  w_speedtest (world st) = StError err :: StData d :: answers →
  r_download_mbps d = Some down → r_upload_mbps d = Some up → r_ping_ms d = Some ping →
  quiet st →
  ∃ st',
    speedtest_batch cfg t [a; b] st = (Val tt, st') ∧
    speedtests (db_view st') =
      speedtests (db_view st) ++ [speedtest_row (hd 0 (tail (w_epoch_ms (world st)))) d] ∧
    disk st' = db_view st' ∧
    calls st' = calls st ++ [CallSpeedtest t (Some (id a)); CallSpeedtest t (Some (id b))].
Proof.
  intros Hanswers Hdown Hup Hping Hquiet.
  set (epochs := w_epoch_ms (world st)).
  set (rows := speedtests (db_view st)).
  set (row := speedtest_row (hd 0 (tail epochs)) d).
  assert (Hbatch :
    triple (batch_view (StError err :: StData d :: answers) epochs rows (calls st))
           (speedtest_batch cfg t [a; b])
           (λ _ st', batch_view answers (tail (tail epochs)) (rows ++ [row])
                       ((calls st ++ [CallSpeedtest t (Some (id a))])
                          ++ [CallSpeedtest t (Some (id b))]) st' ∧
                     disk st' = db_view st')
           (λ _ _, False)).
  { unfold speedtest_batch. simpl.
    eapply triple_bind with
      (Q := λ stop st', stop = false ∧
                        batch_view (StData d :: answers) (tail epochs) rows
                          (calls st ++ [CallSpeedtest t (Some (id a))]) st').
    { eapply triple_bind with
        (Q := λ _, batch_view (StData d :: answers) (tail epochs) rows
                     (calls st ++ [CallSpeedtest t (Some (id a))])).
      - eapply triple_conseq;
          [apply (speedtest_once_error t (Some a) err (StData d :: answers) epochs rows
                                       (calls st))
          |auto| |auto].
        intros ? st' [Hv _]. exact Hv.
      - intros ?. apply read_shutdown_quiet, batch_view_quiet. }
    intros stop. apply triple_pure. intros ->.
    eapply triple_bind with
      (Q := λ stop st', batch_view answers (tail (tail epochs)) (rows ++ [row])
                          ((calls st ++ [CallSpeedtest t (Some (id a))])
                             ++ [CallSpeedtest t (Some (id b))]) st' ∧
                        disk st' = db_view st').
    { eapply triple_bind with
        (Q := λ _ st', batch_view answers (tail (tail epochs)) (rows ++ [row])
                         ((calls st ++ [CallSpeedtest t (Some (id a))])
                            ++ [CallSpeedtest t (Some (id b))]) st' ∧
                       disk st' = db_view st').
      - apply (speedtest_once_data t (Some b) d down up ping answers (tail epochs) rows
                                   (calls st ++ [CallSpeedtest t (Some (id a))]));
          assumption.
      - intros ?. eapply triple_conseq.
        + apply (read_shutdown_quiet
                   (λ st', batch_view answers (tail (tail epochs)) (rows ++ [row])
                             ((calls st ++ [CallSpeedtest t (Some (id a))])
                                ++ [CallSpeedtest t (Some (id b))]) st' ∧
                           disk st' = db_view st')).
          intros st' [Hv _]. exact (batch_view_quiet _ _ _ _ _ Hv).
        + auto.
        + intros stop st' [_ Hst']. exact Hst'.
        + auto. }
    intros stop. destruct stop; apply triple_ret; auto. }
  specialize (Hbatch st). destruct (speedtest_batch cfg t [a; b] st) as [[[]|e] st'].
  - destruct Hbatch as [(_ & _ & Hr & Hc & _) Hd].
    { repeat split; try assumption; apply Hquiet. }
    exists st'. split; [reflexivity|]. split; [exact Hr|]. split; [exact Hd|].
    rewrite Hc, <- app_assoc. reflexivity.
  - destruct Hbatch. repeat split; try assumption; apply Hquiet.
Qed.

End Throughput.

Section StorageFailureClaims.
Import Collector.

Lemma loop_body_raises_with_pings cfg tool servers st now st1 e st2 :
  time_time st = (Val now, st1) →
  trace_due cfg now st1 = false →
  ping_loop cfg (targets cfg (hop_ips st1)) st1 = (Exn e, st2) →
  loop_body cfg tool servers st = (Exn e, st2).
Proof.
  intros Htime Hdue Hping.
  unfold loop_body, mbind, M_bind at 1. rewrite Htime.
  unfold mbind, M_bind at 1. unfold refresh_if_due, mbind, M_bind at 1, get.
  rewrite Hdue. unfold mret, M_ret at 1.
  unfold ping_phase, mbind, M_bind at 1. unfold M_bind at 1, get, M_bind at 1.
  rewrite Hping. reflexivity.
Qed.

Lemma main_loop_raises_with_body cfg tool servers fuel st st1 e st2 :
  read_shutdown cfg st = (Val false, st1) →
  loop_body cfg tool servers st1 = (Exn e, st2) →
  main_loop cfg tool servers (S fuel) st = (Exn e, st2).
Proof.
  intros Hread Hbody. simpl. unfold mbind, M_bind at 1. rewrite Hread.
  unfold M_bind at 1. rewrite Hbody. reflexivity.
Qed.




End StorageFailureClaims.

Section ThroughputClaims.
Import Collector.

(** C7 at an input where the code departs from it.  Server A's probe
    returns an error and server B's probe returns a result whose download
    rate is missing.  Server B is attempted after A's failure, but the log
    line of its result formats the missing rate: TypeError ends [main],
    and no row at all is inserted or committed. *)
Theorem C7_partial_result_not_persisted :
  let r := main c7_config 1 (boot (c7_world c7_partial) None ∅) in
  r.1 = Exn TypeError ∧
  calls r.2 = [CallTraceroute 2000 "8.8.8.8" []; CallPing "8.8.8.8";
               CallSpeedtest ookla (Some "A"); CallSpeedtest ookla (Some "B")] ∧
  speedtests (db_view r.2) = [] ∧
  speedtests (disk r.2) = [].
Proof. vm_compute. repeat split. Qed.

(** The same cycle when server B's result carries the three rates the
    log line formats: exactly one row, server B's, is committed, and it
    is also in speedtests.csv. *)
Lemma c7_complete_result_persisted :
  let r := main c7_config 1 (boot (c7_world c7_complete) None ∅) in
  r.1 = Val false ∧
  calls r.2 = [CallTraceroute 2000 "8.8.8.8" []; CallPing "8.8.8.8";
               CallSpeedtest ookla (Some "A"); CallSpeedtest ookla (Some "B")] ∧
  speedtests (disk r.2) =
    [Speedtests.mk 13 "ookla" (Some "B") (Some "Server B") (Some (23 # 2)%Q)
                   (Some (93 # 1)%Q) (Some (17 # 1)%Q) (Some (1 # 2)%Q)] ∧
  tree r.2 !! ("20250820_11", "speedtests.csv") =
    Some [CStr <$> speedtests_header;
          [CInt 13; CStr "ookla"; CStr "B"; CStr "Server B"; CReal (23 # 2);
           CReal (93 # 1); CReal (17 # 1); CReal (1 # 2)]].
Proof. vm_compute. repeat split. Qed.

End ThroughputClaims.

(** * The stored ping rows *)

Section StoredRows.
Import Collector.

(** Every row of the pings table was written by [main]. *)
Lemma main_pings_written cfg fuel : preserves pings_written (main cfg fuel).
Proof.
  preserves_by
    ltac:(apply main_loop_preserves)
    ltac:(first
            [ assumption
            | match goal with
              | H : pings_written ?st |- pings_written _ =>
                  destruct H as [Hview Hdisk]; split; simpl;
                  [|solve [assumption]]
              end;
              first [ assumption
                    | apply Forall_app; split; [assumption|];
                      constructor; [|constructor];
                      unfold written_row, Pings.check; simpl;
                      split; [auto|congruence] ] ]).
Qed.

(** Whatever the lives of the process, on a database file that was new at
    the first one: every committed ping row has success 0 or 1, and its
    round-trip time when success is 1. *)
Lemma lifetimes_pings_written runs t :
  (lifetimes runs (None, ∅)).1 = Some t → Forall written_row (pings t).
Proof.
  assert (H : ∀ s, Forall written_row (pings (default empty_tables s.1)) →
                   Forall written_row (pings (default empty_tables (lifetimes runs s).1))).
  { induction runs as [|[[cfg w] fuel] runs IH]; intros s Hs; [exact Hs|].
    simpl. apply IH. simpl.
    apply (preserves_final pings_written (main cfg fuel) (boot w s.1 s.2)
             (main_pings_written cfg fuel)).
    split; exact Hs. }
  intros Ht. specialize (H (None, ∅)). rewrite Ht in H. apply H. constructor.
Qed.

End StoredRows.

(** * More on the query service *)

Section AggregateFacts.
Import WebUI.

Lemma sum_of_perm (l1 l2 : list Z) : l1 ≡ₚ l2 → Sql.sum_of l1 = Sql.sum_of l2.
Proof.
  unfold Sql.sum_of. induction 1 as [|x l1 l2 _ IH|x y l|l1 l2 l3 _ IH1 _ IH2]; simpl; lia.
Qed.

Lemma sum_of_ones {A} (l : list A) : Sql.sum_of ((λ _, 1) <$> l) = Z.of_nat (length l).
Proof. unfold Sql.sum_of. induction l as [|x l IH]; csimpl in *; lia. Qed.

(** Exactly one key of a duplicate-free list is the key of [x]. *)
Lemma sum_pick {K} `{EqDecision K} (ks : list K) (k0 : K) (v : Z) (h : K → Z) :
  NoDup ks →
  Sql.sum_of ((λ k, (if decide (k0 = k) then v else 0) + h k) <$> ks)
  = (if decide (k0 ∈ ks) then v else 0) + Sql.sum_of (h <$> ks).
Proof.
  unfold Sql.sum_of. induction 1 as [|k ks Hk _ IH]; csimpl.
  - destruct (decide (k0 ∈ [])) as [Hin|_]; [by apply elem_of_nil in Hin|lia].
  - rewrite IH.
    repeat case_decide; subst; try lia; exfalso;
      match goal with
      | H : ?x ∉ ?x :: _ |- _ => apply H; left
      | H : _ ∉ _ :: ?l, H' : _ ∈ ?l |- _ => apply H; right; exact H'
      | H : _ ∈ _ :: _ |- _ => apply elem_of_cons in H as [?|?]; contradiction
      | _ => contradiction
      end.
Qed.

(** Summing group by group is summing over the whole list. *)
Lemma sum_by_key {A K} `{EqDecision K} (f : A → K) (g : A → Z) (l : list A) (ks : list K) :
  NoDup ks → (∀ x, x ∈ l → f x ∈ ks) →
  Sql.sum_of ((λ k, Sql.sum_of (g <$> filter (λ x, f x = k) l)) <$> ks)
  = Sql.sum_of (g <$> l).
Proof.
  intros Hnd. induction l as [|x l IH]; intros Hks.
  - clear. induction ks as [|k ks IHk]; [reflexivity|].
    rewrite fmap_cons. unfold Sql.sum_of in *. csimpl in *. rewrite IHk. reflexivity.
  - transitivity
      (Sql.sum_of ((λ k, (if decide (f x = k) then g x else 0)
                         + Sql.sum_of (g <$> filter (λ y, f y = k) l)) <$> ks)).
    + f_equal. apply list_fmap_ext. intros _ k _.
      destruct (decide (f x = k)) as [Hk|Hk].
      * rewrite filter_cons_True by exact Hk. unfold Sql.sum_of. simpl. reflexivity.
      * rewrite filter_cons_False by exact Hk. lia.
    + rewrite (sum_pick ks (f x) (g x)) by exact Hnd.
      rewrite decide_True by (apply Hks; left).
      rewrite IH by (intros y Hy; apply Hks; right; exact Hy).
      unfold Sql.sum_of. simpl. reflexivity.
Qed.

#[local] Instance null_le_trans : Transitive Sql.null_le.
Proof. intros [x|] [y|] [z|]; simpl; try tauto; lia. Qed.

#[local] Instance null_le_total : Total Sql.null_le.
Proof. intros [x|] [y|]; simpl; try tauto; lia. Qed.

Lemma order_by_nullable_sorted {A} (key : A → option Z) (l : list A) :
  StronglySorted (Sql.nullable_key_le key) (Sql.order_by_nullable key l).
Proof.
  apply StronglySorted_merge_sort.
  - intros x y z. unfold Sql.nullable_key_le. apply null_le_trans.
  - intros x y. unfold Sql.nullable_key_le. apply null_le_total.
Qed.

Lemma query_speedtests_val disk start_ms end_ms rows :
  query_speedtests disk start_ms end_ms = Val rows →
  rows = Sql.order_by Speedtests.ts_ms
           (filter (λ r, Sql.between start_ms end_ms (Speedtests.ts_ms r))
                   (from_option speedtests [] disk)).
Proof.
  unfold query_speedtests, get_conn. destruct disk as [t|]; simpl.
  - destruct (Sql.bind_int start_ms) as [lo|] eqn:Hlo;
      [|destruct (Sql.bind_int end_ms); discriminate].
    destruct (Sql.bind_int end_ms) as [hi|] eqn:Hhi; [|discriminate].
    apply bind_int_val in Hlo, Hhi. subst. congruence.
  - intros [= <-]. reflexivity.
Qed.

Lemma bind_int_overflow z : Sql.fits_int64 z = false → Sql.bind_int z = Exn OverflowError.
Proof. unfold Sql.bind_int. intros ->. reflexivity. Qed.

(** The bucket of a timestamp: SQLite's integer division truncates
    toward zero. *)
Lemma bucket_of_window w ts k :
  0 < w → bucket_of w ts = Some k →
  (0 ≤ ts → k ≤ ts < k + w) ∧ (ts ≤ 0 → ts ≤ k < ts + w).
Proof.
  intros Hw. unfold bucket_of, Sql.int_div. case_decide; [lia|]. simpl.
  intros [= <-]. split; intros Hts.
  - rewrite Z.quot_div_nonneg by lia. rewrite (Z.mul_comm (ts / w) w).
    pose proof (Z.mod_pos_bound ts w Hw). pose proof (Z.div_mod ts w ltac:(lia)). lia.
  - pose proof (Z.quot_rem ts w ltac:(lia)) as Hqr.
    pose proof (Z.rem_bound_pos_neg ts w Hw Hts) as Hb.
    rewrite (Z.mul_comm (ts ÷ w) w). lia.
Qed.

End AggregateFacts.

(** * Decimal parameters *)

Section DecimalFacts.

Lemma digit_not_space c d : PyInt.digit_of c = Some d → PyInt.is_space c = false.
Proof.
  unfold PyInt.digit_of, PyInt.is_space. intros H.
  destruct ((48 <=? N_of_ascii c) && (N_of_ascii c <=? 57))%N eqn:Hd; [|discriminate].
  apply andb_true_iff in Hd as [H1 H2]. apply N.leb_le in H1, H2.
  apply orb_false_iff. split; apply andb_false_iff.
  - right. apply N.leb_gt. lia.
  - right. apply N.leb_gt. lia.
Qed.

Lemma lstrip_keeps c l : PyInt.is_space c = false → PyInt.lstrip (c :: l) = c :: l.
Proof. intros H. simpl. rewrite H. reflexivity. Qed.

(** [strip] leaves a text alone that neither starts nor ends with white
    space. *)
Lemma strip_keeps c l c' :
  PyInt.is_space c = false → last (c :: l) = Some c' → PyInt.is_space c' = false →
  PyInt.strip (c :: l) = c :: l.
Proof.
  intros Hc Hlast Hc'. unfold PyInt.strip. rewrite (lstrip_keeps _ _ Hc).
  assert (Hrev : c :: l = rev (rev (c :: l))) by (symmetry; apply rev_involutive).
  destruct (rev (c :: l)) as [|x r]; [discriminate|].
  simpl in Hrev. rewrite Hrev, last_snoc in Hlast. injection Hlast as ->.
  rewrite (lstrip_keeps _ _ Hc'). simpl. congruence.
Qed.

Lemma digits_prefix (d rest : list ascii) (acc : Z) (b : bool) :
  Forall (λ c, is_Some (PyInt.digit_of c)) d → d ≠ [] →
  PyInt.digits acc b (d ++ rest)
  = PyInt.digits (foldl (λ a c, 10 * a + default 0 (PyInt.digit_of c)) acc d) true rest.
Proof.
  intros Hd. revert acc b. induction Hd as [|c d [v Hc] Hd IH]; intros acc b Hne;
    [congruence|].
  simpl. rewrite Hc. simpl. destruct d as [|c' d'].
  - reflexivity.
  - apply IH. discriminate.
Qed.

Lemma pretty_N_char_digit x :
  (x < 10)%N → PyInt.digit_of (pretty_N_char x) = Some (Z.of_N x).
Proof.
  intros Hx.
  assert (x = 0 ∨ x = 1 ∨ x = 2 ∨ x = 3 ∨ x = 4 ∨ x = 5 ∨ x = 6 ∨ x = 7 ∨ x = 8 ∨ x = 9)%N
    as Hcases by lia.
  repeat destruct Hcases as [->|Hcases]; try subst x; reflexivity.
Qed.

(** The digits [pretty] writes for [x], read from the left, give [x]. *)
Lemma pretty_N_go_digits (x : N) (s : string) :
  ∃ d, list_ascii_of_string (pretty_N_go x s) = d ++ list_ascii_of_string s ∧
       Forall (λ c, is_Some (PyInt.digit_of c)) d ∧
       foldl (λ a c, 10 * a + default 0 (PyInt.digit_of c)) 0 d = Z.of_N x ∧
       ((0 < x)%N → d ≠ []).
Proof.
  revert s. induction (N.lt_wf_0 x) as [x _ IH]. intros s.
  destruct (decide (x = 0)%N) as [->|Hx].
  - exists []. rewrite pretty_N_go_0. repeat split; [constructor|lia].
  - rewrite pretty_N_go_step by lia.
    destruct (IH (x `div` 10)%N ltac:(apply N.div_lt; lia)
                 (String (pretty_N_char (x `mod` 10)) s)) as (d & Hd & Hall & Hval & _).
    exists (d ++ [pretty_N_char (x `mod` 10)]).
    assert (Hdig := pretty_N_char_digit (x `mod` 10)%N ltac:(apply N.mod_lt; lia)).
    split; [rewrite Hd, <- app_assoc; reflexivity|]. split; [|split].
    + apply Forall_app. split; [exact Hall|]. constructor; [eauto|constructor].
    + rewrite foldl_app. simpl. rewrite Hval, Hdig. simpl.
      pose proof (N.div_mod x 10 ltac:(lia)). lia.
    + intros _. destruct d; discriminate.
Qed.

Lemma int_unsigned s c l :
  PyInt.strip (list_ascii_of_string s) = c :: l → c ≠ "-"%char → c ≠ "+"%char →
  PyInt.int s = match PyInt.digits 0 false (c :: l) with
                | Some z => Val z
                | None => Exn ValueError
                end.
Proof.
  intros Hs Hm Hp. unfold PyInt.int. rewrite Hs.
  destruct c as [[] [] [] [] [] [] [] []]; try reflexivity; congruence.
Qed.

Lemma int_pretty_N (x : N) : (0 < x)%N → PyInt.int (pretty_N_go x "") = Val (Z.of_N x).
Proof.
  intros Hx. destruct (pretty_N_go_digits x "") as (d & Hd & Hall & Hval & Hne).
  simpl in Hd. rewrite app_nil_r in Hd. specialize (Hne Hx).
  destruct d as [|c l]; [congruence|].
  assert (Hc : is_Some (PyInt.digit_of c)) by (apply Forall_cons in Hall; tauto).
  destruct (last (c :: l)) as [c'|] eqn:Hlast; [|by apply last_None in Hlast].
  assert (Hc' : is_Some (PyInt.digit_of c')).
  { rewrite Forall_forall in Hall. apply Hall, last_Some_elem_of, Hlast. }
  destruct Hc as [v Hv], Hc' as [v' Hv'].
  rewrite (int_unsigned _ c l).
  - rewrite <- (app_nil_r (c :: l)), digits_prefix by (auto; discriminate).
    rewrite Hval. reflexivity.
  - rewrite Hd. eapply strip_keeps; eauto using digit_not_space.
  - intros ->. discriminate.
  - intros ->. discriminate.
Qed.

(** [int] reads back the decimal text of an integer. *)
Lemma int_pretty (z : Z) : PyInt.int (pretty z) = Val z.
Proof.
  destruct z as [|p|p].
  - reflexivity.
  - change (pretty (Z.pos p)) with (pretty_N_go (N.pos p) "").
    rewrite int_pretty_N by lia. reflexivity.
  - change (pretty (Z.neg p)) with ("-" +:+ pretty_N_go (N.pos p) "").
    destruct (pretty_N_go_digits (N.pos p) "") as (d & Hd & Hall & Hval & Hne).
    simpl in Hd. rewrite app_nil_r in Hd. specialize (Hne ltac:(lia)).
    destruct (last d) as [c'|] eqn:Hlast; [|apply last_None in Hlast; congruence].
    assert (Hc' : is_Some (PyInt.digit_of c')).
    { rewrite Forall_forall in Hall. apply Hall, last_Some_elem_of, Hlast. }
    destruct Hc' as [v' Hv'].
    assert (Hneg : list_ascii_of_string ("-" +:+ pretty_N_go (N.pos p) "")
                   = "-"%char :: d) by (rewrite <- Hd; reflexivity).
    unfold PyInt.int. rewrite Hneg.
    rewrite (strip_keeps "-"%char d c'); [| reflexivity | | eauto using digit_not_space].
    + rewrite <- (app_nil_r d), digits_prefix by auto. rewrite Hval. reflexivity.
    + destruct d; [congruence|]. exact Hlast.
Qed.

End DecimalFacts.

Section QueryProperties.
Import WebUI.

(** X1.  The speedtest query answers whenever both bounds fit a 64-bit
    integer; what it answers is sorted by ascending timestamp and is, up
    to the order of rows with equal timestamps, the stored rows with a
    timestamp in [start, end], so it is empty when end < start.  On an
    existing store a bound outside 64 bits makes the query raise
    OverflowError. *)
Theorem X1_speedtests_sorted_in_range (disk : option Tables) (start_ms end_ms : Z) :
  (Sql.fits_int64 start_ms = true → Sql.fits_int64 end_ms = true →
   ∃ rows, query_speedtests disk start_ms end_ms = Val rows) ∧
  (∀ rows, query_speedtests disk start_ms end_ms = Val rows →
     StronglySorted (λ a b, Speedtests.ts_ms a ≤ Speedtests.ts_ms b) rows ∧
     rows ≡ₚ filter (λ r, Sql.between start_ms end_ms (Speedtests.ts_ms r))
               (from_option speedtests [] disk) ∧
     (end_ms < start_ms → rows = [])) ∧
  (∀ t, disk = Some t →
        Sql.fits_int64 start_ms = false ∨ Sql.fits_int64 end_ms = false →
        query_speedtests disk start_ms end_ms = Exn OverflowError).
Proof.
  split; [|split].
  - intros Hs He. unfold query_speedtests, get_conn.
    destruct disk as [t|]; [|eexists; reflexivity].
    rewrite (bind_int_fits _ Hs), (bind_int_fits _ He). eexists; reflexivity.
  - intros rows Hq. apply query_speedtests_val in Hq. subst rows.
    split; [apply order_by_sorted|]. split; [apply order_by_perm|].
    intros Hlt.
    destruct (Sql.order_by _ _) as [|r rows] eqn:Hrows; [reflexivity|exfalso].
    assert (Hr : r ∈ Sql.order_by Speedtests.ts_ms
                   (filter (λ r, Sql.between start_ms end_ms (Speedtests.ts_ms r))
                           (from_option speedtests [] disk))) by (rewrite Hrows; left).
    rewrite order_by_perm in Hr. apply list_elem_of_filter in Hr as [[? ?] _]. lia.
  - intros t -> Hbad. unfold query_speedtests, get_conn.
    destruct Hbad as [Hbad|Hbad]; rewrite (bind_int_overflow _ Hbad).
    + destruct (Sql.bind_int end_ms); reflexivity.
    + destruct (Sql.bind_int start_ms); reflexivity.
Qed.

Lemma X1_speedtests_witness :
  (∃ rows, query_speedtests (Some speedtests_table) 1000 8000 = Val rows) ∧
  StronglySorted (λ a b, Speedtests.ts_ms a ≤ Speedtests.ts_ms b)
    [Speedtests.mk 1000 "ookla" (Some "42") (Some "ISP - City") None
                   (Some (90 # 1)%Q) (Some (18 # 1)%Q) None;
     Speedtests.mk 7000 "ookla" (Some "42") (Some "ISP - City") (Some (12 # 1)%Q)
                   (Some (93 # 1)%Q) (Some (17 # 1)%Q) (Some (1 # 2)%Q)] ∧
  (∀ rows, query_speedtests (Some speedtests_table) 8000 1000 = Val rows → rows = []) ∧
  query_speedtests (Some speedtests_table) 0 (2 ^ 63) = Exn OverflowError.
Proof.
  destruct (X1_speedtests_sorted_in_range (Some speedtests_table) 1000 8000)
    as (Htotal & Hrows & _).
  split; [apply Htotal; reflexivity|].
  split; [refine (proj1 (Hrows _ _)); vm_compute; reflexivity|].
  split.
  - intros rows Hq.
    apply (proj2 (proj2 (proj1 (proj2
             (X1_speedtests_sorted_in_range (Some speedtests_table) 8000 1000))
             rows Hq))).
    lia.
  - apply (proj2 (proj2 (X1_speedtests_sorted_in_range (Some speedtests_table) 0 (2 ^ 63)))
             speedtests_table eq_refl).
    right. reflexivity.
Defined.

Lemma bucket_totals_by_tag
        (t : Tables) (start_ms end_ms bucket_ms : Z)
        (rows : list bucket_row) (raw : list Pings.row) :
  query_pings_bucketed (Some t) start_ms end_ms bucket_ms = Val rows →
  query_pings_raw (Some t) start_ms end_ms = Val raw →
  ∀ tag,
    Sql.sum_of (total_count <$> with_tag tag rows)
    = Z.of_nat (length (filter (λ r, Pings.tag r = tag) raw)) ∧
    Sql.sum_of (success_count <$> with_tag tag rows)
    = Sql.sum_of (Pings.success <$> filter (λ r, Pings.tag r = tag) raw).
Proof.
  intros Hq Hraw. apply query_pings_bucketed_val in Hq. apply query_pings_raw_val in Hraw.
  simpl in Hq, Hraw.
  set (sel := filter (λ r, Sql.between start_ms end_ms (Pings.ts_ms r)) (pings t)) in *.
  set (keys := remove_dups (group_key bucket_ms <$> sel)) in *.
  assert (Hperm : rows ≡ₚ (λ k, aggregate k (group_rows bucket_ms k sel)) <$> keys).
  { subst rows. apply order_by_nullable_perm. }
  assert (Hrawp : raw ≡ₚ sel) by (subst raw; apply order_by_perm).
  assert (Hnd : NoDup keys) by apply NoDup_remove_dups.
  assert (Hin : ∀ x, x ∈ sel → group_key bucket_ms x ∈ keys).
  { intros x Hx. apply elem_of_remove_dups, list_elem_of_fmap. eauto. }
  clear Hq Hraw.
  intros tag. unfold with_tag.
  set (selt := filter (λ r, Pings.tag r = tag) sel).
  set (keyst := filter (λ k : option Z * string, k.2 = tag) keys).
  assert (Hpermt : filter (λ b, b_tag b = tag) rows
                   ≡ₚ (λ k, aggregate k (group_rows bucket_ms k selt)) <$> keyst).
  { rewrite Hperm. unfold keyst. clear. induction keys as [|k keys IH]; [reflexivity|].
    rewrite fmap_cons. destruct (decide (k.2 = tag)) as [Hk|Hk].
    - rewrite !filter_cons_True by exact Hk. rewrite fmap_cons, IH.
      apply Permutation_cons; [|reflexivity]. f_equal.
      unfold group_rows, selt. rewrite list_filter_filter.
      apply list_filter_iff. intros r. unfold group_key. split; [|tauto].
      intros Hr. split; [exact Hr|]. rewrite <- Hk, <- Hr. reflexivity.
    - rewrite !filter_cons_False by exact Hk. exact IH. }
  assert (Hrawt : filter (λ r, Pings.tag r = tag) raw ≡ₚ selt).
  { unfold selt. rewrite Hrawp. reflexivity. }
  assert (Hndt : NoDup keyst) by (apply NoDup_filter, Hnd).
  assert (Hint : ∀ x, x ∈ selt → group_key bucket_ms x ∈ keyst).
  { intros x Hx. apply list_elem_of_filter in Hx as [Htag Hx].
    apply list_elem_of_filter. split; [exact Htag|apply Hin, Hx]. }
  split.
  - rewrite (sum_of_perm _ _ (fmap_Permutation total_count _ _ Hpermt)).
    rewrite <- list_fmap_compose, Hrawt, <- sum_of_ones.
    rewrite <- (sum_by_key (group_key bucket_ms) (λ _, 1) selt keyst Hndt Hint).
    f_equal. apply list_fmap_ext. intros _ k _. simpl.
    unfold group_rows. symmetry. apply sum_of_ones.
  - rewrite (sum_of_perm _ _ (fmap_Permutation success_count _ _ Hpermt)).
    rewrite <- list_fmap_compose.
    rewrite (sum_of_perm _ _ (fmap_Permutation Pings.success _ _ Hrawt)).
    rewrite <- (sum_by_key (group_key bucket_ms) Pings.success selt keyst Hndt Hint).
    reflexivity.
Qed.

(** X2.  The aggregated query puts every selected row in exactly one
    output row: the output rows have distinct (bucket, tag) keys, their
    total_count values add up to the number of rows the raw query returns
    for the same range and their success_count values to the sum of the
    success column of those rows; and, tag by tag, the same holds for the
    rows of one tag.  This needs no condition on the bucket width. *)
Theorem X2_buckets_partition_the_rows
        (t : Tables) (start_ms end_ms bucket_ms : Z)
        (rows : list bucket_row) (raw : list Pings.row) :
  query_pings_bucketed (Some t) start_ms end_ms bucket_ms = Val rows →
  query_pings_raw (Some t) start_ms end_ms = Val raw →
  NoDup ((λ b, (bucket_ts b, b_tag b)) <$> rows) ∧
  Sql.sum_of (total_count <$> rows) = Z.of_nat (length raw) ∧
  Sql.sum_of (success_count <$> rows) = Sql.sum_of (Pings.success <$> raw) ∧
  ∀ tag,
    Sql.sum_of (total_count <$> with_tag tag rows)
    = Z.of_nat (length (filter (λ r, Pings.tag r = tag) raw)) ∧
    Sql.sum_of (success_count <$> with_tag tag rows)
    = Sql.sum_of (Pings.success <$> filter (λ r, Pings.tag r = tag) raw).
Proof.
  intros Hq Hraw.
  pose proof (bucket_totals_by_tag _ _ _ _ _ _ Hq Hraw) as Htag.
  apply query_pings_bucketed_val in Hq. apply query_pings_raw_val in Hraw.
  simpl in Hq, Hraw.
  set (sel := filter (λ r, Sql.between start_ms end_ms (Pings.ts_ms r)) (pings t)) in *.
  set (keys := remove_dups (group_key bucket_ms <$> sel)) in *.
  assert (Hperm : rows ≡ₚ (λ k, aggregate k (group_rows bucket_ms k sel)) <$> keys).
  { subst rows. apply order_by_nullable_perm. }
  assert (Hrawp : raw ≡ₚ sel) by (subst raw; apply order_by_perm).
  assert (Hnd : NoDup keys) by apply NoDup_remove_dups.
  assert (Hin : ∀ x, x ∈ sel → group_key bucket_ms x ∈ keys).
  { intros x Hx. apply elem_of_remove_dups, list_elem_of_fmap. eauto. }
  clear Hq Hraw. split; [|split; [|split]].
  - rewrite Hperm, <- list_fmap_compose.
    rewrite (list_fmap_ext _ id keys); [rewrite list_fmap_id; exact Hnd|].
    intros _ [b g] _. reflexivity.
  - rewrite (sum_of_perm _ _ (fmap_Permutation total_count _ _ Hperm)).
    rewrite <- list_fmap_compose, Hrawp, <- sum_of_ones.
    rewrite <- (sum_by_key (group_key bucket_ms) (λ _, 1) sel keys Hnd Hin).
    f_equal. apply list_fmap_ext. intros _ k _. simpl.
    unfold group_rows. symmetry. apply sum_of_ones.
  - rewrite (sum_of_perm _ _ (fmap_Permutation success_count _ _ Hperm)).
    rewrite <- list_fmap_compose.
    rewrite (sum_of_perm _ _ (fmap_Permutation Pings.success _ _ Hrawp)).
    rewrite <- (sum_by_key (group_key bucket_ms) Pings.success sel keys Hnd Hin).
    reflexivity.
  - exact Htag.
Qed.

Lemma X2_buckets_partition_witness :
  ∃ rows raw,
    query_pings_bucketed (Some mixed_table) 0 3000 1000 = Val rows ∧
    query_pings_raw (Some mixed_table) 0 3000 = Val raw ∧
    Sql.sum_of (total_count <$> rows) = Z.of_nat (length raw) ∧
    Sql.sum_of (success_count <$> with_tag "dest" rows)
    = Sql.sum_of (Pings.success <$> filter (λ r, Pings.tag r = "dest") raw).
Proof.
  eexists _, _. split; [vm_compute; reflexivity|]. split; [vm_compute; reflexivity|].
  edestruct (X2_buckets_partition_the_rows mixed_table 0 3000 1000)
    as (_ & Htotal & _ & Htag); [vm_compute; reflexivity..|].
  split; [exact Htotal|exact (proj2 (Htag "dest"))].
Defined.

(** X3.  For a bucket width > 0 the aggregated query returns its rows in
    ascending order of the bucket timestamp, and every stored row of the
    range is counted in an output row of its tag whose bucket starts at
    most one width away: at k with k ≤ ts < k + width for a timestamp
    ts ≥ 0, and, the division of SQLite truncating toward zero, at k with
    ts ≤ k < ts + width for a timestamp ts ≤ 0. *)
Theorem X3_bucket_windows (t : Tables) (start_ms end_ms bucket_ms : Z)
        (rows : list bucket_row) :
  0 < bucket_ms →
  query_pings_bucketed (Some t) start_ms end_ms bucket_ms = Val rows →
  StronglySorted (Sql.nullable_key_le bucket_ts) rows ∧
  ∀ r, r ∈ pings t → Sql.between start_ms end_ms (Pings.ts_ms r) →
       ∃ b k, b ∈ rows ∧ b_tag b = Pings.tag r ∧ bucket_ts b = Some k ∧
              (0 ≤ Pings.ts_ms r → k ≤ Pings.ts_ms r < k + bucket_ms) ∧
              (Pings.ts_ms r ≤ 0 → Pings.ts_ms r ≤ k < Pings.ts_ms r + bucket_ms).
Proof.
  intros Hw Hq. apply query_pings_bucketed_val in Hq. simpl in Hq. subst rows.
  split; [apply order_by_nullable_sorted|].
  intros r Hr Hrange.
  set (sel := filter (λ r, Sql.between start_ms end_ms (Pings.ts_ms r)) (pings t)).
  assert (Hsel : r ∈ sel) by (apply list_elem_of_filter; split; assumption).
  destruct (bucket_of bucket_ms (Pings.ts_ms r)) as [k|] eqn:Hk.
  - exists (aggregate (group_key bucket_ms r) (group_rows bucket_ms (group_key bucket_ms r) sel)), k.
    split; [|split; [reflexivity|split; [exact Hk|exact (bucket_of_window _ _ _ Hw Hk)]]].
    rewrite order_by_nullable_perm. apply list_elem_of_fmap.
    exists (group_key bucket_ms r). split; [reflexivity|].
    apply elem_of_remove_dups, list_elem_of_fmap. eauto.
  - unfold bucket_of, Sql.int_div in Hk. case_decide; [lia|discriminate].
Qed.

Lemma X3_bucket_windows_witness :
  ∃ b k, b ∈ [mkBucket (Some 0) "hop1" (Some (2 # 1)%Q) 1 1;
              mkBucket (Some 0) "dest" (Some (10 # 1)%Q) 1 1;
              mkBucket (Some 1000) "dest" None 0 1;
              mkBucket (Some 2000) "dest" (Some (20 # 1)%Q) 1 1] ∧
         b_tag b = "dest" ∧ bucket_ts b = Some k ∧
         (0 ≤ 1500 → k ≤ 1500 < k + 1000) ∧ (1500 ≤ 0 → 1500 ≤ k < 1500 + 1000).
Proof.
  refine (proj2 (X3_bucket_windows mixed_table 0 3000 1000 _ ltac:(lia) _)
            (Pings.mk 1500 "8.8.8.8" "dest" None 0) _ _).
  - vm_compute. reflexivity.
  - right. right. left.
  - unfold Sql.between. simpl. lia.
Defined.



(** X5.  Parameters written in decimal, each within 64 bits, reach the
    queries unchanged, and the defaults are start = 0 and end = the
    current time.  /api/pings runs the aggregated query exactly when
    bucket_ms is given and > 0; a bucket_ms of 0, a negative one and a
    missing one all give the raw rows. *)
Theorem X5_decimal_parameters (disk : option Tables) (now_ms s e w : Z) :
  Sql.fits_int64 s = true → Sql.fits_int64 e = true → Sql.fits_int64 w = true →
  do_GET disk now_ms (decimal_request "/api/speedtests" [("start", s); ("end", e)])
  = (rows ← query_speedtests disk s e;
     Val (_send_json (JArr (json_of_speedtest <$> rows)))) ∧
  do_GET disk now_ms (decimal_request "/api/speedtests" [])
  = (rows ← query_speedtests disk 0 now_ms;
     Val (_send_json (JArr (json_of_speedtest <$> rows)))) ∧
  do_GET disk now_ms
         (decimal_request "/api/pings" [("start", s); ("end", e); ("bucket_ms", w)])
  = (if decide (0 < w)
     then rows ← query_pings_bucketed disk s e w;
          Val (_send_json (JArr (json_of_bucket <$> rows)))
     else rows ← query_pings_raw disk s e;
          Val (_send_json (JArr (json_of_ping <$> rows)))) ∧
  do_GET disk now_ms (decimal_request "/api/pings" [("start", s)])
  = (rows ← query_pings_raw disk s now_ms;
     Val (_send_json (JArr (json_of_ping <$> rows)))).
Proof.
  intros _ _ _. unfold do_GET, decimal_request, int_param. simpl.
  split; [|split; [|split]].
  - rewrite lookup_insert_eq, lookup_insert_ne, lookup_insert_eq by discriminate.
    rewrite !int_pretty. reflexivity.
  - reflexivity.
  - rewrite lookup_insert_eq.
    rewrite (lookup_insert_ne _ "start" "end"), lookup_insert_eq by discriminate.
    rewrite !(lookup_insert_ne _ _ "bucket_ms"), lookup_insert_eq by discriminate.
    rewrite !int_pretty. simpl.
    destruct (decide (0 < w)); [rewrite decide_True by lia|rewrite decide_False by lia];
      reflexivity.
  - rewrite lookup_insert_eq, !lookup_insert_ne, !lookup_empty by discriminate.
    rewrite !int_pretty. reflexivity.
Qed.

Lemma X5_decimal_parameters_witness :
  do_GET (Some mixed_table) 5000
         (decimal_request "/api/pings" [("start", 0); ("end", 3000); ("bucket_ms", -1)])
  = (rows ← query_pings_raw (Some mixed_table) 0 3000;
     Val (_send_json (JArr (json_of_ping <$> rows)))).
Proof.
  exact (proj1 (proj2 (proj2 (X5_decimal_parameters (Some mixed_table) 5000 0 3000 (-1)
                                eq_refl eq_refl eq_refl)))).
Defined.

End QueryProperties.

(** * More on the collector *)

Section StoredRowShapes.
Import Collector.
Context (cfg : Config).

Lemma targets_tags hips ip tag :
  (length hips ≤ 3)%nat → (ip, tag) ∈ targets cfg hips → tag ∈ ping_tags.
Proof.
  intros Hlen Hin. unfold targets, ping_tags in *.
  destruct hips as [|h1 [|h2 [|h3 [|h4 rest]]]]; simpl in Hlen; try lia;
    simpl in Hin;
    repeat (apply elem_of_cons in Hin as [Hin|Hin];
            [injection Hin as -> ->; vm_compute;
             first [ left | right; left | right; right; left | right; right; right; left ]|]);
    by apply elem_of_nil in Hin.
Qed.

Lemma rows_tagged_insert st ts ip tag (r : PingResult) :
  tag ∈ ping_tags → rows_tagged st →
  rows_tagged
    (with_db_view
       (add_ping (Pings.mk ts ip tag (if (unpack r).1 then (unpack r).2 else None)
                           (if (unpack r).1 then 1 else 0))
                 (db_view st)) st).
Proof.
  intros Htag (Hview & Hdisk & Hlen). split; [|split; assumption]. simpl.
  apply Forall_app. split; [exact Hview|]. constructor; [|constructor].
  unfold collector_row, Pings.check. simpl. split; [exact Htag|].
  destruct r; simpl; split; auto; split; congruence.
Qed.

End StoredRowShapes.

Ltac tagged_side :=
  first
    [ assumption
    | match goal with
      | H : rows_tagged ?st |- rows_tagged _ =>
          destruct H as (? & ? & ?); split; [|split]; simpl;
          first [ assumption | rewrite length_take; lia ]
      end ].

Section StoredRowShapesMain.
Import Collector.
Context (cfg : Config).

Lemma ping_target_tagged ip tag :
  tag ∈ ping_tags → preserves rows_tagged (ping_target cfg ip tag).
Proof.
  intros Htag. unfold ping_target.
  apply preserves_bind; [preserves_with tagged_side|]. intros ts_ms.
  apply preserves_bind; [preserves_with tagged_side|]. intros r.
  destruct r as [t|]; simpl.
  - apply preserves_bind.
    { unfold insert_ping. apply preserves_bind; [preserves_with tagged_side|].
      intros _. case_decide; [|apply preserves_raise].
      apply preserves_modify. intros st Hst.
      exact (rows_tagged_insert st ts_ms ip tag (Reply t) Htag Hst). }
    intros _. preserves_with tagged_side.
  - apply preserves_bind.
    { unfold insert_ping. apply preserves_bind; [preserves_with tagged_side|].
      intros _. case_decide; [|apply preserves_raise].
      apply preserves_modify. intros st Hst.
      exact (rows_tagged_insert st ts_ms ip tag Lost Htag Hst). }
    intros _. preserves_with tagged_side.
Qed.

Lemma ping_phase_tagged : preserves rows_tagged (ping_phase cfg).
Proof.
  unfold ping_phase.
  eapply triple_bind with (Q := λ hips st, (length hips ≤ 3)%nat ∧ rows_tagged st).
  { apply triple_get. intros st Hst. split; [apply Hst|exact Hst]. }
  intros hips. apply triple_pure. intros Hlen.
  apply preserves_bind; [|intros _; preserves_with tagged_side].
  unfold ping_loop. apply triple_for_each_break. intros [ip tag] Hin.
  apply ping_target_tagged. exact (targets_tags cfg hips ip tag Hlen Hin).
Qed.

Lemma main_rows_tagged fuel : preserves rows_tagged (main cfg fuel).
Proof.
  preserves_by
    ltac:(first [ apply ping_phase_tagged | apply main_loop_preserves ])
    tagged_side.
Qed.

End StoredRowShapesMain.

Section AppendOnlyFacts.
Import Collector.

Lemma tables_prefix_refl t : tables_prefix t t.
Proof. repeat split; reflexivity. Qed.

Lemma tables_prefix_trans t1 t2 t3 :
  tables_prefix t1 t2 → tables_prefix t2 t3 → tables_prefix t1 t3.
Proof. intros (? & ? & ?) (? & ? & ?). repeat split; etransitivity; eassumption. Qed.

Lemma tables_prefix_add_ping t r : tables_prefix t (add_ping r t).
Proof. repeat split; simpl; try reflexivity. apply prefix_app_r. reflexivity. Qed.

Lemma tables_prefix_add_trace t r : tables_prefix t (add_trace r t).
Proof. repeat split; simpl; try reflexivity. apply prefix_app_r. reflexivity. Qed.

Lemma tables_prefix_add_speedtest t r : tables_prefix t (add_speedtest r t).
Proof. repeat split; simpl; try reflexivity. apply prefix_app_r. reflexivity. Qed.

Lemma tree_extends_refl tr : tree_extends tr tr.
Proof. intros p rows Hp. exists []. rewrite app_nil_r. exact Hp. Qed.

Lemma tree_extends_trans tr1 tr2 tr3 :
  tree_extends tr1 tr2 → tree_extends tr2 tr3 → tree_extends tr1 tr3.
Proof.
  intros H12 H23 p rows Hp. destruct (H12 p rows Hp) as (more & Hp2).
  destruct (H23 p _ Hp2) as (more' & Hp3). exists (more ++ more').
  rewrite Hp3, app_assoc. reflexivity.
Qed.

Lemma tree_extends_create tr (p : fpath) : tr !! p = None → tree_extends tr (<[p := []]> tr).
Proof.
  intros Hnone q rows Hq. exists []. rewrite app_nil_r.
  rewrite lookup_insert_ne; [exact Hq|]. intros <-. congruence.
Qed.

Lemma tree_extends_append tr (f : fpath) (r : csv_row) :
  tree_extends tr (<[f := default [] (tr !! f) ++ [r]]> tr).
Proof.
  intros q rows Hq. destruct (decide (f = q)) as [<-|Hne].
  - exists [r]. rewrite lookup_insert_eq, Hq. reflexivity.
  - exists []. rewrite app_nil_r, lookup_insert_ne by exact Hne. exact Hq.
Qed.

End AppendOnlyFacts.

Ltac grows_side :=
  first
    [ assumption
    | match goal with
      | H : db_grows _ ?st |- db_grows _ _ =>
          destruct H as [? ?]; split; simpl;
          first [ assumption
                | apply tables_prefix_refl
                | eapply tables_prefix_trans; [eassumption|];
                  first [ apply tables_prefix_add_ping | apply tables_prefix_add_trace
                        | apply tables_prefix_add_speedtest ]
                | eapply tables_prefix_trans; eassumption ]
      end ].

Section AppendOnly.
Import Collector.
Context (cfg : Config).

Lemma main_db_grows t0 fuel : preserves (db_grows t0) (main cfg fuel).
Proof. preserves_by ltac:(apply main_loop_preserves) grows_side. Qed.

Lemma open_append_extends tr0 p :
  preserves (λ st, tree_extends tr0 (tree st)) (open_append p).
Proof.
  unfold open_append.
  apply preserves_bind; [preserves_with assumption|]. intros _.
  apply preserves_bind; [|intros _; apply preserves_ret].
  apply preserves_modify. intros st Hst. cbv beta. simpl.
  destruct (tree st !! p) as [rows|] eqn:Hp; [exact Hst|].
  eapply tree_extends_trans; [exact Hst|]. apply tree_extends_create, Hp.
Qed.

Lemma writerow_extends tr0 f r :
  preserves (λ st, tree_extends tr0 (tree st)) (writerow f r).
Proof.
  unfold writerow.
  apply preserves_bind; [preserves_with assumption|]. intros _.
  apply preserves_modify. intros st Hst. simpl.
  eapply tree_extends_trans; [exact Hst|]. apply tree_extends_append.
Qed.

Lemma main_tree_extends tr0 fuel :
  preserves (λ st, tree_extends tr0 (tree st)) (main cfg fuel).
Proof.
  preserves_by
    ltac:(first [ apply open_append_extends | apply writerow_extends
                | apply main_loop_preserves ])
    assumption.
Qed.

End AppendOnly.

Section AppendOnly.
Import Collector.

(** X6.  Whatever the lives of the process (restarts, clocks, tool answers,
    storage faults), on a pings table whose rows have this shape at the
    start: every committed pings row has a tag among hop1, hop2, hop3 and
    dest, success 0 or 1, and a round-trip time exactly when success
    is 1. *)
Theorem X6_stored_ping_rows (runs : list (Config * World * nat))
        (db : option Tables) (tr : gmap fpath (list csv_row)) (t : Tables) :
  Forall collector_row (pings (default empty_tables db)) →
  (lifetimes runs (db, tr)).1 = Some t →
  Forall collector_row (pings t).
Proof.
  assert (H : ∀ s, Forall collector_row (pings (default empty_tables s.1)) →
                   Forall collector_row (pings (default empty_tables (lifetimes runs s).1))).
  { induction runs as [|[[cfg w] fuel] runs IH]; intros s Hs; [exact Hs|].
    simpl. apply IH. simpl.
    apply (preserves_final rows_tagged (main cfg fuel) (boot w s.1 s.2)
             (main_rows_tagged cfg fuel)).
    split; [exact Hs|]. split; [exact Hs|]. simpl. lia. }
  intros Hdb Ht. specialize (H (db, tr) Hdb). rewrite Ht in H. exact H.
Qed.

Lemma X6_stored_ping_rows_witness :
  ∃ t, (lifetimes c6_runs (None, ∅)).1 = Some t ∧ Forall collector_row (pings t).
Proof.
  eexists. split; [vm_compute; reflexivity|].
  apply (X6_stored_ping_rows c6_runs None ∅); [constructor|vm_compute; reflexivity].
Defined.

(** X7.  The collector only appends to the database.  At the end of a run
    of [main], however it ends, each committed table starts with the rows
    the file held at the start, in their order, and each table as the
    connection sees it starts with the committed rows; so over any number
    of lives the committed tables start with those of the first start. *)
Theorem X7_database_append_only :
  (∀ cfg w db tr fuel,
      db_grows (default empty_tables db) (main cfg fuel (boot w db tr)).2) ∧
  (∀ runs db tr,
      tables_prefix (default empty_tables db)
                    (default empty_tables (lifetimes runs (db, tr)).1)).
Proof.
  assert (Hmain : ∀ cfg w db tr fuel,
             db_grows (default empty_tables db) (main cfg fuel (boot w db tr)).2).
  { intros. apply (preserves_final _ _ _ (main_db_grows cfg _ fuel)).
    split; apply tables_prefix_refl. }
  split; [exact Hmain|].
  intros runs. induction runs as [|[[cfg w] fuel] runs IH]; intros db tr.
  - apply tables_prefix_refl.
  - simpl. eapply tables_prefix_trans; [|apply IH]. simpl. apply Hmain.
Qed.

(** X8.  The collector only appends to the CSV files.  Over any number of
    lives of the process, every file that existed at the start still
    exists at the end and starts with the rows it held, in their order:
    no row is removed or changed, and no file is deleted or truncated. *)
Theorem X8_files_append_only (runs : list (Config * World * nat))
        (db : option Tables) (tr : gmap fpath (list csv_row))
        (p : fpath) (rows : list csv_row) :
  tr !! p = Some rows →
  ∃ more, (lifetimes runs (db, tr)).2 !! p = Some (rows ++ more).
Proof.
  revert db tr rows. induction runs as [|[[cfg w] fuel] runs IH]; intros db tr rows Hp.
  - exists []. rewrite app_nil_r. exact Hp.
  - simpl.
    destruct (preserves_final _ _ (boot w db tr) (main_tree_extends cfg tr fuel)
                (tree_extends_refl tr) p rows Hp) as (more & Hmore).
    destruct (IH (Some (disk (main cfg fuel (boot w db tr)).2)) _ _ Hmore) as (more' & Hmore').
    exists (more ++ more'). rewrite app_assoc. exact Hmore'.
Qed.

Lemma X8_files_append_only_witness :
  ∃ more,
    (lifetimes c6_runs (None, {[ ("20250820_11", "pings.csv") := [CStr <$> pings_header] ]})).2
      !! ("20250820_11", "pings.csv") = Some ([CStr <$> pings_header] ++ more).
Proof.
  apply (X8_files_append_only c6_runs None). apply lookup_singleton_eq.
Defined.

End AppendOnly.

Section SpeedtestScheduleFacts.
Import Collector.
Context (cfg : Config).

Lemma speedtest_calls_other cs c :
  is_speedtest_call c = false → speedtest_calls (cs ++ [c]) = speedtest_calls cs.
Proof.
  intros Hc. unfold speedtest_calls. rewrite filter_app.
  rewrite (filter_cons_False _ c) by (rewrite Hc; discriminate).
  rewrite filter_nil. apply app_nil_r.
Qed.

End SpeedtestScheduleFacts.

Ltac no_speedtest_side :=
  first
    [ assumption
    | match goal with
      | H : no_speedtest _ ?st |- no_speedtest _ _ =>
          destruct H as (? & ? & ?); split; [|split]; simpl;
          first [ assumption
                | rewrite speedtest_calls_other by reflexivity; assumption ]
      | H : speedtests_at _ _ ?st |- speedtests_at _ _ _ =>
          destruct H as (? & ?); split; simpl;
          first [ assumption
                | rewrite speedtest_calls_other by reflexivity; assumption ]
      end ].

Section SpeedtestSchedule.
Import Collector.
Context (cfg : Config).

Lemma speedtest_phase_no_tool (I : State → Prop) servers now :
  preserves I (speedtest_phase cfg None servers now).
Proof. apply preserves_ret. Qed.

Lemma main_loop_no_speedtest rows servers fuel :
  preserves (no_speedtest rows) (main_loop cfg None servers fuel).
Proof.
  apply main_loop_preserves.
  - preserves_with no_speedtest_side.
  - preserves_by
      ltac:(idtac; lazymatch goal with
            | |- triple _ (speedtest_phase _ None _ _) _ _ => apply speedtest_phase_no_tool
            | |- preserves _ (speedtest_phase _ None _ _) => apply speedtest_phase_no_tool
            end)
      no_speedtest_side.
Qed.

Lemma main_no_speedtest rows fuel :
  triple (λ st, w_which_tool (world st) = None ∧ no_speedtest rows st)
         (main cfg fuel) (λ _, no_speedtest rows) (λ _, no_speedtest rows).
Proof.
  unfold main.
  eapply triple_bind with (Q := λ tool st, tool = None ∧ no_speedtest rows st).
  { apply triple_get. intros st [Hw Hst]. split; assumption. }
  intros tool. apply triple_pure. intros ->. simpl.
  preserves_by
    ltac:(idtac; lazymatch goal with
          | |- triple _ (main_loop _ None _ _) _ _ => apply main_loop_no_speedtest
          | |- preserves _ (main_loop _ None _ _) => apply main_loop_no_speedtest
          end)
    no_speedtest_side.
Qed.

Lemma phases_keep_speedtests cs last now :
  preserves (speedtests_at cs last) (refresh_if_due cfg now;; ping_phase cfg).
Proof. preserves_with no_speedtest_side. Qed.

End SpeedtestSchedule.

Section SpeedtestDue.
Import Collector.

(** X9.  When no speedtest tool is found at the start, a run of [main]
    makes no speedtest probe and leaves the speedtests table as it was,
    in the connection's view and on disk, however long it runs and
    whatever else happens. *)
Theorem X9_no_tool_no_speedtest (cfg : Config) (w : World) (db : option Tables)
        (tr : gmap fpath (list csv_row)) (fuel : nat) :
  w_which_tool w = None →
  no_speedtest (speedtests (default empty_tables db)) (main cfg fuel (boot w db tr)).2.
Proof.
  intros Hw.
  pose proof (main_no_speedtest cfg (speedtests (default empty_tables db)) fuel
                (boot w db tr)) as H.
  destruct (main cfg fuel (boot w db tr)) as [[left|e] st']; apply H;
    (split; [exact Hw|split; [reflexivity|split; reflexivity]]).
Qed.

Lemma X9_no_tool_witness :
  no_speedtest [] (main c1_config 2 (boot c1_world_resolved None ∅)).2.
Proof. apply (X9_no_tool_no_speedtest c1_config c1_world_resolved None ∅ 2). reflexivity. Defined.

(** X10.  A cycle whose clock reading is less than SPEEDTEST_INTERVAL_SEC
    after the reading kept from the last batch makes no speedtest probe
    and keeps that reading, whatever tool and servers are configured and
    however the cycle ends. *)
Theorem X10_speedtest_not_due (cfg : Config) (tool : option Tool)
        (servers : list Server) (st : State) :
  (hd 0 (w_time (world st)) - last_speedtest_ts st
   < inject_Z (SPEEDTEST_INTERVAL_SEC cfg))%Q →
  speedtest_calls (calls (loop_body cfg tool servers st).2) = speedtest_calls (calls st) ∧
  last_speedtest_ts (loop_body cfg tool servers st).2 = last_speedtest_ts st.
Proof.
  intros Hdue.
  set (cs := speedtest_calls (calls st)). set (last := last_speedtest_ts st).
  set (now := hd 0%Q (w_time (world st))) in *.
  assert (H : triple (λ s, hd 0%Q (w_time (world s)) = now ∧ speedtests_at cs last s)
                     (loop_body cfg tool servers)
                     (λ _, speedtests_at cs last) (λ _, speedtests_at cs last)).
  { unfold loop_body.
    eapply triple_bind with (Q := λ t s, t = now ∧ speedtests_at cs last s).
    { unfold time_time. apply triple_ask.
      - intros s [Hnow Hs] Hnil. rewrite Hnil in Hnow. split; [exact Hnow|exact Hs].
      - intros s x rest [Hnow Hs] Hcons. rewrite Hcons in Hnow.
        split; [exact Hnow|]. no_speedtest_side. }
    intros t. apply triple_pure. intros ->.
    apply preserves_bind; [preserves_with no_speedtest_side|]. intros _.
    apply preserves_bind; [preserves_with no_speedtest_side|]. intros _.
    apply preserves_bind; [|intros _; preserves_with no_speedtest_side].
    unfold speedtest_phase. destruct tool as [t|]; [|apply preserves_ret].
    eapply triple_bind with (Q := λ l s, l = last ∧ speedtests_at cs last s).
    { apply triple_get. intros s Hs. split; [apply Hs|exact Hs]. }
    intros l. apply triple_pure. intros ->.
    destruct (Qle_bool _ _) eqn:Hle; [|apply preserves_ret].
    apply Qle_bool_iff in Hle. exfalso. exact (Qlt_not_le _ _ Hdue Hle). }
  specialize (H st ltac:(split; [reflexivity|split; reflexivity])).
  destruct (loop_body cfg tool servers st) as [[u|e] st']; exact H.
Qed.

Lemma X10_speedtest_not_due_witness :
  speedtest_calls (calls (loop_body x_config (Some ookla) [mkServer "7" ""] x_not_due_state).2)
  = speedtest_calls (calls x_not_due_state) ∧
  last_speedtest_ts (loop_body x_config (Some ookla) [mkServer "7" ""] x_not_due_state).2
  = last_speedtest_ts x_not_due_state.
Proof.
  apply (X10_speedtest_not_due x_config (Some ookla) [mkServer "7" ""] x_not_due_state).
  reflexivity.
Defined.

End SpeedtestDue.

Section ShutdownFacts.
Import Collector.
Context (cfg : Config).

(** Once [_shutdown] is set, reading it gives [True]; the read changes
    only the signals left, the flag and the log. *)
Lemma read_shutdown_set (I : State → Prop) :
  (∀ st v, I st → I (with_world (with_w_signal v (world st)) st)) →
  (∀ st v, I st → I (with_stdout v st)) →
  (∀ st, I st → I (with_shutdown true st)) →
  triple (λ st, _shutdown st = true ∧ I st) (read_shutdown cfg)
         (λ stop st, stop = true ∧ _shutdown st = true ∧ I st) (λ _ _, False).
Proof.
  intros Hw Hout Hflag. unfold read_shutdown.
  eapply triple_bind with (Q := λ _ st, _shutdown st = true ∧ I st).
  { apply triple_ask.
    - intros st Hst _. exact Hst.
    - intros st x rest [Hs Hst] _. split; [exact Hs|apply Hw, Hst]. }
  intros arrived.
  eapply triple_bind with (Q := λ _ st, _shutdown st = true ∧ I st).
  { destruct arrived; [|apply triple_ret; auto].
    unfold _sig_handler.
    eapply triple_bind with (Q := λ _ st, _shutdown st = true ∧ I st).
    - unfold _log. destruct (VERBOSE cfg); [|apply triple_ret; auto].
      apply triple_modify. intros st [Hs Hst]. split; [exact Hs|apply Hout, Hst].
    - intros ?. apply triple_modify. intros st [Hs Hst].
      split; [reflexivity|apply Hflag, Hst]. }
  intros ?. apply triple_get. intros st [Hs Hst]. auto.
Qed.

Lemma idle_as_frame st0 :
  (∀ st v, idle_as st0 st → idle_as st0 (with_world (with_w_signal v (world st)) st)) ∧
  (∀ st v, idle_as st0 st → idle_as st0 (with_stdout v st)) ∧
  (∀ st, idle_as st0 st → idle_as st0 (with_shutdown true st)).
Proof. split; [|split]; intros; assumption. Qed.

Lemma read_shutdown_idle st0 :
  triple (λ st, _shutdown st = true ∧ idle_as st0 st) (read_shutdown cfg)
         (λ stop st, stop = true ∧ _shutdown st = true ∧ idle_as st0 st) (λ _ _, False).
Proof.
  destruct (idle_as_frame st0) as (H1 & H2 & H3).
  apply read_shutdown_set; assumption.
Qed.

(** A probe is one call of the tool, however it ends. *)
Lemma speedtest_once_one_call cs t server :
  triple (stopping cs) (speedtest_once cfg t server)
         (λ _, stopping (cs ++ [CallSpeedtest t (id <$> server)]))
         (λ _, stopping (cs ++ [CallSpeedtest t (id <$> server)])).
Proof.
  unfold speedtest_once.
  eapply triple_bind with (Q := λ _, stopping cs).
  { unfold _epoch_ms. apply triple_ask; intros; assumption. }
  intros ts_ms.
  eapply triple_bind with
    (Q := λ _, stopping (cs ++ [CallSpeedtest t (id <$> server)])).
  { unfold run_speedtest.
    eapply triple_bind with (Q := λ _, stopping cs).
    { apply triple_ask; intros; assumption. }
    intros r.
    eapply triple_bind with
      (Q := λ _, stopping (cs ++ [CallSpeedtest t (id <$> server)])).
    - unfold record. apply triple_modify. intros st [Hs Hc].
      split; [exact Hs|]. simpl. rewrite Hc. reflexivity.
    - intros ?. apply triple_ret. auto. }
  intros res. preserves_with assumption.
Qed.

Lemma read_shutdown_stopping cs :
  triple (stopping cs) (read_shutdown cfg)
         (λ stop st, stop = true ∧ stopping cs st) (λ _, stopping cs).
Proof.
  eapply triple_conseq.
  - apply (read_shutdown_set (λ st, calls st = cs)); intros; assumption.
  - intros st Hst. exact Hst.
  - intros stop st (Hstop & Hs & Hc). split; [exact Hstop|]. split; assumption.
  - intros e st [].
Qed.

Lemma speedtest_batch_stopping cs t servers :
  triple (stopping cs) (speedtest_batch cfg t servers)
         (λ _, stopping (cs ++ [CallSpeedtest t (id <$> head servers)]))
         (λ _, stopping (cs ++ [CallSpeedtest t (id <$> head servers)])).
Proof.
  unfold speedtest_batch. destruct servers as [|s rest].
  - apply speedtest_once_one_call.
  - simpl.
    eapply triple_bind with
      (Q := λ stop st, stop = true ∧ stopping (cs ++ [CallSpeedtest t (Some (id s))]) st).
    + eapply triple_bind; [apply (speedtest_once_one_call cs t (Some s))|].
      intros ?. apply read_shutdown_stopping.
    + intros stop. apply triple_pure. intros ->. apply triple_ret. auto.
Qed.

End ShutdownFacts.

Section AfterShutdown.
Import Collector.

(** X11.  What a process does once [_shutdown] is set.  The main loop
    ends at its next test of the flag, and the wait between two cycles
    ends at once: no tool is called and nothing is stored.  But the
    speedtest phase does not look at the flag before it starts: when a
    batch is due it still makes one probe, of the first server of the
    list (of the default server when the list is empty), and no more. *)
Theorem X11_after_shutdown_request (cfg : Config) (tool : option Tool)
        (servers : list Server) (st : State) :
  _shutdown st = true →
  (∀ fuel, ∃ st', main_loop cfg tool servers (S fuel) st = (Val true, st') ∧
                  idle_as st st') ∧
  (∃ st', idle_wait cfg st = (Val tt, st') ∧ idle_as st st') ∧
  (∀ t now,
      (inject_Z (SPEEDTEST_INTERVAL_SEC cfg) <= now - last_speedtest_ts st)%Q →
      calls (speedtest_phase cfg (Some t) servers now st).2
      = calls st ++ [CallSpeedtest t (id <$> head servers)]).
Proof.
  intros Hset.
  assert (Hidle : idle_as st st) by (repeat split).
  pose proof (read_shutdown_idle cfg st st (conj Hset Hidle)) as Hread.
  split; [|split].
  - intros fuel. simpl. unfold mbind, M_bind.
    destruct (read_shutdown cfg st) as [[stop|e] st1]; [|contradiction].
    destruct Hread as (-> & _ & Hst1). exists st1. split; [reflexivity|exact Hst1].
  - unfold idle_wait.
    destruct (seq 0 (Z.to_nat (PING_INTERVAL_SEC cfg * 10))) as [|x rest].
    + exists st. split; [reflexivity|exact Hidle].
    + simpl. unfold mbind, M_bind.
      destruct (read_shutdown cfg st) as [[stop|e] st1]; [|contradiction].
      destruct Hread as (-> & _ & Hst1). exists st1. split; [reflexivity|exact Hst1].
  - intros t now Hdue.
    assert (H : triple (λ s, s = st) (speedtest_phase cfg (Some t) servers now)
                  (λ _, stopping (calls st ++ [CallSpeedtest t (id <$> head servers)]))
                  (λ _, stopping (calls st ++ [CallSpeedtest t (id <$> head servers)]))).
    { unfold speedtest_phase.
      eapply triple_bind with
        (Q := λ l s, l = last_speedtest_ts st ∧ stopping (calls st) s).
      { apply triple_get. intros s ->. split; [reflexivity|split; [exact Hset|reflexivity]]. }
      intros l. apply triple_pure. intros ->.
      apply Qle_bool_iff in Hdue. rewrite Hdue.
      eapply triple_bind; [apply speedtest_batch_stopping|].
      intros ?. apply triple_modify. intros s Hs. exact Hs. }
    specialize (H st eq_refl).
    destruct (speedtest_phase cfg (Some t) servers now st) as [[u|e] st']; apply H.
Qed.

Lemma X11_after_shutdown_witness :
  (∃ st', main_loop x_config (Some ookla) [mkServer "7" ""; mkServer "9" ""] 1
                    x_stopping_state = (Val true, st') ∧
          idle_as x_stopping_state st') ∧
  calls (speedtest_phase x_config (Some ookla) [mkServer "7" ""; mkServer "9" ""] 2000
                         x_stopping_state).2
  = [CallSpeedtest ookla (Some "7")].
Proof.
  destruct (X11_after_shutdown_request x_config (Some ookla)
              [mkServer "7" ""; mkServer "9" ""] x_stopping_state eq_refl)
    as (Hloop & _ & Hphase).
  split; [exact (Hloop 0%nat)|].
  apply (Hphase ookla 2000%Q). vm_compute. discriminate.
Defined.

End AfterShutdown.

Section GracefulExitFacts.
Import Collector.
Context (cfg : Config).

Lemma read_shutdown_result :
  triple (λ _, True) (read_shutdown cfg) (λ stop st, stop = _shutdown st) (λ _ _, True).
Proof.
  unfold read_shutdown.
  eapply triple_bind; [apply triple_any|]. intros arrived.
  eapply triple_bind; [apply triple_any|]. intros ?.
  apply triple_get. reflexivity.
Qed.

(** The loop is left with [True] only after [_shutdown] was read as set. *)
Lemma main_loop_left tool servers fuel :
  triple (λ _, True) (main_loop cfg tool servers fuel)
         (λ left st, left = true → _shutdown st = true) (λ _ _, True).
Proof.
  induction fuel as [|fuel IH]; simpl.
  - apply triple_ret. discriminate.
  - eapply triple_bind; [apply read_shutdown_result|].
    intros [|].
    + apply triple_ret. intros st Hst _. symmetry. exact Hst.
    + eapply triple_bind with (Q := λ _ _, True).
      * apply triple_any.
      * intros ?. exact IH.
Qed.

Lemma shut_down_closes :
  triple (λ st, _shutdown st = true) (shut_down cfg)
         (λ _ st, files st = ∅ ∧ _shutdown st = true ∧
                  (VERBOSE cfg = true → last (stdout st) = Some LogExit))
         (λ _ _, True).
Proof.
  unfold shut_down.
  eapply triple_bind with (Q := λ _ st, _shutdown st = true).
  { apply preserves_triple; [preserves_with assumption|auto]. }
  intros ?.
  eapply triple_bind with (Q := λ _ st, files st = ∅ ∧ _shutdown st = true).
  { unfold close, _rotate. apply triple_modify. intros st Hst. split; [reflexivity|exact Hst]. }
  intros ?. unfold _log. destruct (VERBOSE cfg) eqn:Hv.
  - apply triple_modify. intros st [Hf Hs]. split; [exact Hf|]. split; [exact Hs|].
    intros _. simpl. apply last_snoc.
  - apply triple_ret. intros st [Hf Hs]. split; [exact Hf|]. split; [exact Hs|discriminate].
Qed.

Lemma shut_down_commits :
  triple fault_free (shut_down cfg) (λ _ st, disk st = db_view st) (λ _ _, True).
Proof.
  unfold shut_down.
  eapply triple_bind with (Q := λ _ st, disk st = db_view st).
  { apply triple_try_pass. unfold conn_commit.
    eapply triple_bind with (Q := λ _, fault_free).
    - eapply triple_conseq.
      + apply (fallible_fault_free fault_free); [auto|].
        intros st x rest Hst Hw. exact (proj2 (fault_free_pop _ _ _ Hst Hw)).
      + auto.
      + auto.
      + intros e st [].
    - intros ?. apply triple_modify. reflexivity. }
  intros ?. apply preserves_triple; [preserves_with assumption|auto].
Qed.

End GracefulExitFacts.

Section GracefulExit.
Import Collector.

(** X12.  When [main] ends through the shutdown path, [_shutdown] is set,
    every CSV handle is closed, and with VERBOSE on the last line of the
    log is the exit line; when moreover no storage call of the run
    fails, everything the connection has inserted is committed. *)
Theorem X12_graceful_exit (cfg : Config) (fuel : nat) (st st' : State) :
  main cfg fuel st = (Val true, st') →
  files st' = ∅ ∧ _shutdown st' = true ∧
  (VERBOSE cfg = true → last (stdout st') = Some LogExit) ∧
  (fault_free st → disk st' = db_view st').
Proof.
  intros Hmain.
  assert (H1 : triple (λ _, True) (main cfg fuel)
                 (λ left s, left = true →
                            files s = ∅ ∧ _shutdown s = true ∧
                            (VERBOSE cfg = true → last (stdout s) = Some LogExit))
                 (λ _ _, True)).
  { unfold main.
    eapply triple_bind; [apply triple_any|]. intros tool.
    eapply triple_bind; [apply triple_any|]. intros ?.
    eapply triple_bind; [apply triple_any|]. intros servers.
    eapply triple_bind; [apply triple_any|]. intros ?.
    eapply triple_bind; [apply triple_any|]. intros ?.
    eapply triple_bind; [apply triple_any|]. intros ?.
    eapply triple_bind; [apply (main_loop_left cfg tool servers fuel)|].
    intros [|].
    - eapply triple_bind with
        (Q := λ _ s, files s = ∅ ∧ _shutdown s = true ∧
                     (VERBOSE cfg = true → last (stdout s) = Some LogExit)).
      + eapply triple_conseq;
          [apply shut_down_closes|intros s Hs; exact (Hs eq_refl)|auto|auto].
      + intros ?. apply triple_ret. auto.
    - apply triple_ret. discriminate. }
  assert (H2 : triple fault_free (main cfg fuel)
                 (λ left s, left = true → disk s = db_view s) (λ _ _, True)).
  { unfold main.
    eapply triple_bind with (Q := λ _, fault_free);
      [apply preserves_triple; [preserves_with frame_side|auto]|]. intros tool.
    eapply triple_bind with (Q := λ _, fault_free);
      [apply preserves_triple; [preserves_with frame_side|auto]|]. intros ?.
    eapply triple_bind with (Q := λ _, fault_free);
      [apply preserves_triple; [preserves_with frame_side|auto]|]. intros servers.
    eapply triple_bind with (Q := λ _, fault_free);
      [apply preserves_triple; [preserves_with frame_side|auto]|]. intros ?.
    eapply triple_bind with (Q := λ _, fault_free);
      [apply preserves_triple; [preserves_with frame_side|auto]|]. intros ?.
    eapply triple_bind with (Q := λ _, fault_free);
      [apply preserves_triple; [preserves_with frame_side|auto]|]. intros ?.
    eapply triple_bind with (Q := λ _, fault_free).
    { apply preserves_triple; [|auto].
      apply main_loop_preserves; preserves_with frame_side. }
    intros [|].
    - eapply triple_bind; [apply shut_down_commits|].
      intros ?. apply triple_ret. auto.
    - apply triple_ret. discriminate. }
  specialize (H1 st I). rewrite Hmain in H1. destruct (H1 eq_refl) as (Hf & Hs & Hl).
  split; [exact Hf|]. split; [exact Hs|]. split; [exact Hl|].
  intros Hff. specialize (H2 st Hff). rewrite Hmain in H2. exact (H2 eq_refl).
Qed.

Lemma X12_graceful_exit_witness :
  files (main c1_config 2 (boot x_signal_world None ∅)).2 = ∅ ∧
  _shutdown (main c1_config 2 (boot x_signal_world None ∅)).2 = true ∧
  (VERBOSE c1_config = true →
   last (stdout (main c1_config 2 (boot x_signal_world None ∅)).2) = Some LogExit) ∧
  (fault_free (boot x_signal_world None ∅) →
   disk (main c1_config 2 (boot x_signal_world None ∅)).2
   = db_view (main c1_config 2 (boot x_signal_world None ∅)).2).
Proof.
  apply (X12_graceful_exit c1_config 2 (boot x_signal_world None ∅)).
  vm_compute. reflexivity.
Defined.

End GracefulExit.

Section HourFilesFacts.
Import Collector.

Lemma handles_sound_no_files st : files st = ∅ → handles_sound st.
Proof.
  intros Hf. split; intros n f Hn; rewrite Hf, lookup_empty in Hn; discriminate.
Qed.

(** Appending to a file keeps the handles sound. *)
Lemma handles_sound_append st f r :
  handles_sound st →
  handles_sound (with_tree (<[f := default [] (tree st !! f) ++ [r]]> (tree st)) st).
Proof.
  intros [Hok Hcur]. split; [|exact Hcur].
  intros n g Hn. destruct (Hok n g Hn) as (Hg & rows & Hrows & Hne).
  split; [exact Hg|]. simpl. destruct (decide (f = g)) as [->|Hfg].
  - rewrite lookup_insert_eq, Hrows. simpl. eexists. split; [reflexivity|].
    destruct rows; discriminate.
  - rewrite lookup_insert_ne by exact Hfg. eauto.
Qed.

Lemma writerow_handles f r : preserves handles_sound (writerow f r).
Proof.
  unfold writerow. apply preserves_bind; [preserves_with assumption|]. intros ?.
  apply preserves_modify. intros st Hst. apply handles_sound_append, Hst.
Qed.

End HourFilesFacts.

Section EnsureOpen.
Import Collector.
Context (h name : string) (header : list string).
Context (tr0 : gmap fpath (list csv_row)) (dv dk : Tables).

Local Abbreviation p := (h, name).
Local Abbreviation before := (default [] (tr0 !! p)).
Local Abbreviation held := (held_rows header before).
Local Abbreviation kept := (kept tr0 dv dk).
Local Abbreviation opened_on := (holds_at p held tr0 dv dk).

Lemma held_not_empty hdr rows : held_rows hdr rows ≠ [].
Proof. unfold held_rows. case_decide; [discriminate|assumption]. Qed.

Lemma fallible_keeps (I : State → Prop) e :
  (∀ st v, I st → I (with_world (with_w_fault v (world st)) st)) →
  preserves I (fallible e).
Proof.
  intros Hframe. unfold fallible. apply preserves_bind.
  - apply preserves_ask. intros st x rest Hst _. apply Hframe, Hst.
  - intros [|]; [apply preserves_raise|apply preserves_ret].
Qed.

Lemma ensure_open_spec :
  triple (λ st, hd "" (w_hour (world st)) = h ∧ kept st ∧ handles_sound st)
         (_ensure_open name header)
         (λ f st, f = p ∧ opened_on st ∧ handles_sound st)
         (λ _, handles_sound).
Proof.
  unfold _ensure_open.
  eapply triple_bind with (Q := λ hour_dir st, hour_dir = h ∧ kept st ∧ handles_sound st).
  { unfold _hour_dir. apply triple_ask.
    - intros st (Hh & Hk & Hs) Hnil. rewrite Hnil in Hh. auto.
    - intros st x rest (Hh & Hk & Hs) Hcons. rewrite Hcons in Hh. auto. }
  intros hour_dir. apply triple_pure. intros ->.
  eapply triple_bind with
    (Q := λ cur st, cur = current_hour_dir st ∧ kept st ∧ handles_sound st).
  { apply triple_get. auto. }
  intros cur.
  eapply triple_bind with
    (Q := λ _ st, current_hour_dir st = Some h ∧ kept st ∧ handles_sound st).
  { case_decide as Hcur.
    - eapply triple_bind with (Q := λ _ st, files st = ∅ ∧ kept st).
      { unfold _rotate. apply triple_modify. intros st (_ & Hk & _). split; [reflexivity|exact Hk]. }
      intros ?.
      eapply triple_bind with (Q := λ _ st, files st = ∅ ∧ kept st).
      { unfold mkdir. eapply triple_conseq.
        - apply (fallible_keeps (λ st, files st = ∅ ∧ kept st)). intros st v Hst. exact Hst.
        - auto.
        - auto.
        - intros e st [Hf _]. apply handles_sound_no_files, Hf. }
      intros ?.
      eapply triple_bind with
        (Q := λ _ st, current_hour_dir st = Some h ∧ files st = ∅ ∧ kept st).
      { apply triple_modify. intros st [Hf Hk]. split; [reflexivity|]. split; assumption. }
      intros ?. apply triple_modify. intros st (Hc & Hf & Hk).
      split; [exact Hc|]. split; [exact Hk|]. apply handles_sound_no_files. reflexivity.
    - apply triple_ret. intros st (-> & Hk & Hs). split; [|split; assumption].
      destruct (decide (current_hour_dir st = Some h)); [assumption|contradiction]. }
  intros ?.
  eapply triple_bind with
    (Q := λ opened st, opened = files st ∧ current_hour_dir st = Some h ∧ kept st ∧
                       handles_sound st).
  { apply triple_get. auto. }
  intros opened.
  eapply triple_bind with
    (Q := λ _ st, files st !! name = Some p ∧ opened_on st ∧ handles_sound st).
  { case_decide as Hopen.
    - (* the file is opened *)
      eapply triple_bind with
        (Q := λ f st, f = p ∧ files st !! name = None ∧ current_hour_dir st = Some h ∧
                      is_Some (tree st !! p) ∧ default [] (tree st !! p) = before ∧
                      (∀ q, q ≠ p → tree st !! q = tr0 !! q) ∧
                      db_view st = dv ∧ disk st = dk ∧ handles_sound st).
      { unfold open_append.
        eapply triple_bind with
          (Q := λ _ st, files st !! name = None ∧ current_hour_dir st = Some h ∧ kept st ∧
                        handles_sound st).
        { eapply triple_conseq.
          - apply (fallible_keeps
                     (λ st, files st !! name = None ∧ current_hour_dir st = Some h ∧ kept st ∧
                            handles_sound st)).
            intros st v Hst. exact Hst.
          - intros st (-> & Hc & Hk & Hs). auto.
          - auto.
          - intros e st Hst. apply Hst. }
        intros ?.
        eapply triple_bind with
          (Q := λ _ st, files st !! name = None ∧ current_hour_dir st = Some h ∧
                        is_Some (tree st !! p) ∧ default [] (tree st !! p) = before ∧
                        (∀ q, q ≠ p → tree st !! q = tr0 !! q) ∧
                        db_view st = dv ∧ disk st = dk ∧ handles_sound st).
        - apply triple_modify. intros st (Hn & Hc & (Ht & Hv & Hd) & Hok & Hcurr).
          cbv beta. split; [exact Hn|]. split; [exact Hc|].
          destruct (tree st !! p) as [rows|] eqn:Hp.
          + simpl. rewrite Hp. split; [eauto|]. split; [rewrite <- Ht, Hp; reflexivity|].
            split; [intros q _; rewrite Ht; reflexivity|].
            split; [exact Hv|]. split; [exact Hd|]. split; assumption.
          + simpl. rewrite lookup_insert_eq. split; [eauto|].
            split; [rewrite <- Ht, Hp; reflexivity|].
            split; [intros q Hq; rewrite lookup_insert_ne by congruence; rewrite Ht; reflexivity|].
            split; [exact Hv|]. split; [exact Hd|]. split; [|exact Hcurr].
            intros n g Hg. destruct (Hok n g Hg) as (Hg2 & rows & Hrows & Hne).
            split; [exact Hg2|]. simpl. rewrite lookup_insert_ne; [eauto|].
            intros <-. rewrite Hp in Hrows. discriminate.
        - intros ?. apply triple_ret. intros st Hst. split; [reflexivity|exact Hst]. }
      intros f. apply triple_pure. intros ->.
      eapply triple_bind with
        (Q := λ empty st, empty = bool_decide (before = []) ∧
                          files st !! name = None ∧ current_hour_dir st = Some h ∧
                          is_Some (tree st !! p) ∧ default [] (tree st !! p) = before ∧
                          (∀ q, q ≠ p → tree st !! q = tr0 !! q) ∧
                          db_view st = dv ∧ disk st = dk ∧ handles_sound st).
      { unfold tell_is_zero. apply triple_get. intros st Hst. split; [|exact Hst].
        destruct Hst as (_ & _ & _ & Hb & _). rewrite Hb. reflexivity. }
      intros empty. apply triple_pure. intros ->.
      eapply triple_bind with
        (Q := λ _ st, files st !! name = None ∧ current_hour_dir st = Some h ∧
                      opened_on st ∧ handles_sound st).
      { destruct (bool_decide (before = [])) eqn:Hempty.
        - apply bool_decide_eq_true in Hempty.
          unfold writerow.
          eapply triple_bind with
            (Q := λ _ st, files st !! name = None ∧ current_hour_dir st = Some h ∧
                          is_Some (tree st !! p) ∧ default [] (tree st !! p) = before ∧
                          (∀ q, q ≠ p → tree st !! q = tr0 !! q) ∧
                          db_view st = dv ∧ disk st = dk ∧ handles_sound st).
          { eapply triple_conseq.
            - apply (fallible_keeps
                       (λ st, files st !! name = None ∧ current_hour_dir st = Some h ∧
                              is_Some (tree st !! p) ∧ default [] (tree st !! p) = before ∧
                              (∀ q, q ≠ p → tree st !! q = tr0 !! q) ∧
                              db_view st = dv ∧ disk st = dk ∧ handles_sound st)).
              intros st v Hst. exact Hst.
            - auto.
            - auto.
            - intros e st Hst. apply Hst. }
          intros ?. apply triple_modify.
          intros st (Hn & Hc & Hsome & Hb & Hoth & Hv & Hd & Hs).
          split; [exact Hn|]. split; [exact Hc|]. split; [|apply handles_sound_append, Hs].
          assert (Hheld : held = [CStr <$> header])
            by (unfold held_rows; rewrite decide_True by exact Hempty; reflexivity).
          unfold holds_at. rewrite Hheld. simpl. rewrite lookup_insert_eq, Hb, Hempty. simpl.
          split; [reflexivity|].
          split; [intros q Hq; rewrite lookup_insert_ne by congruence; apply Hoth, Hq|].
          split; assumption.
        - apply bool_decide_eq_false in Hempty.
          apply triple_ret. intros st (Hn & Hc & [rows Hrows] & Hb & Hoth & Hv & Hd & Hs).
          split; [exact Hn|]. split; [exact Hc|]. split; [|exact Hs].
          unfold holds_at. rewrite Hrows in Hb |- *. simpl in Hb. subst rows.
          split; [unfold held_rows; rewrite decide_False by exact Hempty; reflexivity|].
          split; [exact Hoth|]. split; assumption. }
      intros ?. apply triple_modify. intros st (Hn & Hc & Hon & Hok & Hcurr).
      split; [simpl; apply lookup_insert_eq|]. split; [exact Hon|].
      split.
      + intros n g Hg. simpl in Hg. destruct (decide (name = n)) as [<-|Hne].
        * rewrite lookup_insert_eq in Hg. injection Hg as <-. split; [reflexivity|].
          exists held. split; [apply Hon|apply held_not_empty].
        * rewrite lookup_insert_ne in Hg by exact Hne. apply (Hok n g Hg).
      + intros n g Hg. simpl in Hg. destruct (decide (name = n)) as [<-|Hne].
        * rewrite lookup_insert_eq in Hg. injection Hg as <-. split; [exact Hc|reflexivity].
        * rewrite lookup_insert_ne in Hg by exact Hne. apply (Hcurr n g Hg).
    - (* the handle is already there *)
      apply triple_ret. intros st (-> & Hc & (Ht & Hv & Hd) & Hok & Hcurr).
      destruct (files st !! name) as [f|] eqn:Hf; [|contradiction].
      destruct (Hok name f Hf) as (Hf2 & rows & Hrows & Hne).
      destruct (Hcurr name f Hf) as (Hf1 & _).
      assert (f = p) as ->.
      { rewrite Hc in Hf1. injection Hf1 as Hf1. destruct f as [d n]. simpl in *.
        congruence. }
      split; [reflexivity|]. split; [|split; assumption].
      unfold holds_at. rewrite Hrows.
      assert (before = rows) as Hb by (rewrite <- Ht, Hrows; reflexivity).
      split; [unfold held_rows; rewrite decide_False by congruence; congruence|].
      split; [intros q _; rewrite Ht; reflexivity|]. split; assumption. }
  intros ?.
  eapply triple_bind with
    (Q := λ opened' st, opened' !! name = Some p ∧ opened_on st ∧ handles_sound st).
  { apply triple_get. auto. }
  intros opened'. apply triple_pure. intros Hp. rewrite Hp.
  apply triple_ret. intros st Hst. split; [reflexivity|exact Hst].
Qed.

End EnsureOpen.

Section HourFiles.
Import Collector.

Lemma ensure_open_handles name header :
  preserves handles_sound (_ensure_open name header).
Proof.
  intros st Hst.
  pose proof (ensure_open_spec (hd "" (w_hour (world st))) name header
                (tree st) (db_view st) (disk st) st) as H.
  specialize (H (conj eq_refl (conj (conj eq_refl (conj eq_refl eq_refl)) Hst))).
  destruct (_ensure_open name header st) as [[f|e] st']; [apply H|exact H].
Qed.

Lemma write_row_spec name header row :
  writes_row (writer ← _ensure_open name header; writerow writer row) name header row.
Proof.
  intros st st' Hst Hrun.
  set (h := hd "" (w_hour (world st))).
  assert (H : triple (λ s, s = st)
                (writer ← _ensure_open name header; writerow writer row)
                (λ _ s, tree s !! (h, name)
                        = Some (appended header (default [] (tree st !! (h, name))) row) ∧
                        (∀ q, q ≠ (h, name) → tree s !! q = tree st !! q) ∧
                        db_view s = db_view st ∧ disk s = disk st ∧ handles_sound s)
                (λ _ _, True)).
  { eapply triple_bind.
    - eapply triple_conseq.
      + apply (ensure_open_spec h name header (tree st) (db_view st) (disk st)).
      + intros s ->. split; [reflexivity|]. split; [repeat split|exact Hst].
      + intros f s Hs. exact Hs.
      + auto.
    - intros f. apply triple_pure. intros ->. unfold writerow.
      eapply triple_bind with
        (Q := λ _ s, holds_at (h, name) (held_rows header (default [] (tree st !! (h, name))))
                              (tree st) (db_view st) (disk st) s ∧ handles_sound s).
      + eapply triple_conseq.
        * apply (fallible_keeps
                   (λ s, holds_at (h, name)
                                  (held_rows header (default [] (tree st !! (h, name))))
                                  (tree st) (db_view st) (disk st) s ∧ handles_sound s)).
          intros s v Hs. exact Hs.
        * auto.
        * auto.
        * auto.
      + intros ?. apply triple_modify. intros s [(Hp & Hoth & Hv & Hd) Hs].
        split; [|split; [|split; [|split]]].
        * simpl. rewrite lookup_insert_eq, Hp. reflexivity.
        * intros q Hq. simpl. rewrite lookup_insert_ne by congruence. apply Hoth, Hq.
        * exact Hv.
        * exact Hd.
        * apply handles_sound_append, Hs. }
  specialize (H st eq_refl). rewrite Hrun in H. exact H.
Qed.

Lemma main_handles_sound cfg fuel : preserves handles_sound (main cfg fuel).
Proof.
  preserves_by
    ltac:(first [ apply ensure_open_handles | apply writerow_handles
                | apply main_loop_preserves ])
    ltac:(first [ assumption | apply handles_sound_no_files; reflexivity ]).
Qed.

(** X13.  Started with sound handles, a CSV write that returns has
    appended its row to the file of its kind in the hour directory read
    from the clock at that write, after the header row when that file was
    missing or empty; every other file, in particular those of earlier
    hours, and the database are as before.  A measurement of a speedtest
    that is absent or 0 is written as the empty cell.  The handles are
    sound when the process starts and stay so throughout [main]. *)
Theorem X13_rows_land_in_hour_file :
  (∀ ts_ms target tag rtt_ms success,
      writes_row (write_ping ts_ms target tag rtt_ms success) CSV_PINGS_NAME pings_header
                 (csv_of_ping (Pings.mk ts_ms target tag rtt_ms success))) ∧
  (∀ ts_ms dest hop ip,
      writes_row (write_trace ts_ms dest hop ip) CSV_TRACES_NAME traces_header
                 [CInt ts_ms; CStr dest; CInt hop; CStr ip]) ∧
  (∀ ts_ms tool server_id server_name ping_ms download_mbps upload_mbps jitter_ms,
      writes_row (write_speedtest ts_ms tool server_id server_name
                                  ping_ms download_mbps upload_mbps jitter_ms)
                 CSV_SPEEDTESTS_NAME speedtests_header
                 [CInt ts_ms; CStr tool; CStr server_id; CStr server_name;
                  float_or_empty ping_ms; float_or_empty download_mbps;
                  float_or_empty upload_mbps; float_or_empty jitter_ms]) ∧
  (∀ x, float_or_empty x = CStr "" ↔ x = None ∨ ∃ q, x = Some q ∧ (q == 0)%Q) ∧
  (∀ cfg fuel w db tr st,
      handles_sound (boot w db tr) ∧
      (handles_sound st → handles_sound (main cfg fuel st).2)).
Proof.
  split; [|split; [|split; [|split]]].
  - intros. apply write_row_spec.
  - intros. apply write_row_spec.
  - intros. apply write_row_spec.
  - intros [q|]; simpl.
    + destruct (Qeq_bool q 0) eqn:Hq.
      * split; [|reflexivity]. intros _. right. exists q. split; [reflexivity|].
        apply Qeq_bool_iff, Hq.
      * split; [discriminate|]. intros [Hn|(q' & [= <-] & Hz)]; [discriminate|].
        apply Qeq_bool_iff in Hz. congruence.
    + split; [auto|reflexivity].
  - intros cfg fuel w db tr st. split; [apply handles_sound_no_files; reflexivity|].
    apply (preserves_final _ _ _ (main_handles_sound cfg fuel)).
Qed.

Lemma X13_rows_land_witness :
  let st' := (write_ping 20 "8.8.8.8" "dest" None 0 x_hour_state).2 in
  tree st' !! ("20250820_11", "pings.csv")
  = Some [CStr <$> pings_header; [CInt 20; CStr "8.8.8.8"; CStr "dest"; CStr ""; CInt 0]] ∧
  tree st' !! ("20250820_10", "pings.csv") = tree x_hour_state !! ("20250820_10", "pings.csv").
Proof.
  destruct (proj1 X13_rows_land_in_hour_file 20 "8.8.8.8" "dest" None 0
              x_hour_state (write_ping 20 "8.8.8.8" "dest" None 0 x_hour_state).2)
    as (Hp & Hoth & _).
  - apply handles_sound_no_files. reflexivity.
  - vm_compute. reflexivity.
  - split; [exact Hp|]. apply Hoth. discriminate.
Defined.

End HourFiles.

Section BothSinksFacts.
Import Collector.
Context (cfg : Config).

Lemma writes_row_triple (m : M unit) name header row h tr dv cs :
  writes_row m name header row →
  preserves (λ s, calls s = cs) m →
  triple (probe_view h tr dv cs) m
         (λ _, probe_stored (h, name) (appended header (default [] (tr !! (h, name))) row)
                            dv cs)
         (λ _ _, True).
Proof.
  intros Hm Hcalls s (Hh & Ht & Hv & Hc & Hs).
  specialize (Hcalls s Hc).
  destruct (m s) as [[[]|e] s'] eqn:Hrun; [|exact I].
  destruct (Hm s s' Hs Hrun) as (Hp & _ & Hv' & _).
  rewrite Hh, Ht in Hp. split; [exact Hp|]. split; [congruence|apply Hcalls].
Qed.

Lemma ping_target_stores ip tag ts0 r0 h tr dv cs :
  triple (λ s, hd 0 (w_epoch_ms (world s)) = ts0 ∧ hd Lost (w_ping (world s)) = r0 ∧
               probe_view h tr dv cs s)
         (ping_target cfg ip tag)
         (λ _, probe_stored (h, CSV_PINGS_NAME)
                 (appended pings_header (default [] (tr !! (h, CSV_PINGS_NAME)))
                           (csv_of_ping (ping_row ts0 ip tag r0)))
                 (add_ping (ping_row ts0 ip tag r0) dv) (cs ++ [CallPing ip]))
         (λ _ _, True).
Proof.
  unfold ping_target.
  eapply triple_bind with
    (Q := λ ts s, ts = ts0 ∧ hd Lost (w_ping (world s)) = r0 ∧ probe_view h tr dv cs s).
  { unfold _epoch_ms. apply triple_ask.
    - intros s (Hts & Hr & Hv) Hnil. rewrite Hnil in Hts. auto.
    - intros s x rest (Hts & Hr & Hv) Hcons. rewrite Hcons in Hts. auto. }
  intros ts. apply triple_pure. intros ->.
  eapply triple_bind with
    (Q := λ r s, r = r0 ∧ probe_view h tr dv (cs ++ [CallPing ip]) s).
  { unfold do_ping.
    eapply triple_bind with (Q := λ r s, r = r0 ∧ probe_view h tr dv cs s).
    { apply triple_ask.
      - intros s (Hr & Hv) Hnil. rewrite Hnil in Hr. auto.
      - intros s x rest (Hr & Hv) Hcons. rewrite Hcons in Hr. auto. }
    intros r. apply triple_pure. intros ->.
    eapply triple_bind with (Q := λ _, probe_view h tr dv (cs ++ [CallPing ip])).
    - unfold record. apply triple_modify. intros s (Hh & Ht & Hv & Hc & Hs).
      split; [exact Hh|]. split; [exact Ht|]. split; [exact Hv|].
      split; [simpl; rewrite Hc; reflexivity|exact Hs].
    - intros ?. apply triple_ret. auto. }
  intros r. apply triple_pure. intros ->.
  assert (Hrow : ∀ ok rtt, unpack r0 = (ok, rtt) →
                 Pings.mk ts0 ip tag (if ok then rtt else None) (if ok then 1 else 0)
                 = ping_row ts0 ip tag r0).
  { intros ok rtt Hu. unfold ping_row. rewrite Hu. destruct r0; injection Hu as <- <-; reflexivity. }
  destruct (unpack r0) as [ok rtt] eqn:Hu. rewrite (Hrow ok rtt eq_refl).
  eapply triple_bind with
    (Q := λ _, probe_view h tr (add_ping (ping_row ts0 ip tag r0) dv) (cs ++ [CallPing ip])).
  { unfold insert_ping.
    eapply triple_bind with (Q := λ _, probe_view h tr dv (cs ++ [CallPing ip])).
    { eapply triple_conseq.
      - apply (fallible_keeps (probe_view h tr dv (cs ++ [CallPing ip]))).
        intros s v Hs. exact Hs.
      - auto.
      - auto.
      - auto. }
    intros ?. case_decide; [|apply triple_raise; auto].
    apply triple_modify. intros s (Hh & Ht & Hv & Hc & Hs).
    split; [exact Hh|]. split; [exact Ht|].
    split; [simpl; rewrite Hv; reflexivity|]. split; [exact Hc|exact Hs]. }
  intros ?.
  eapply triple_bind.
  { replace (write_ping ts0 ip tag (if ok then rtt else None) (if ok then 1 else 0))
      with (write_ping ts0 ip tag (Pings.rtt_ms (ping_row ts0 ip tag r0))
                       (Pings.success (ping_row ts0 ip tag r0)))
      by (rewrite <- (Hrow ok rtt eq_refl); reflexivity).
    apply (writes_row_triple _ CSV_PINGS_NAME pings_header
             (csv_of_ping (ping_row ts0 ip tag r0))).
    - apply write_row_spec.
    - preserves_with assumption. }
  intros ?. apply preserves_triple; [|auto].
  preserves_with assumption.
Qed.

End BothSinksFacts.

Section BothSinks.
Import Collector.

(** X14.  A probe of a target that returns has stored one record in both
    sinks: the table has gained the row built from the clock reading, the
    target, its tag and the answer (the round-trip time and success 1 for
    a reply, no time and success 0 otherwise), and the pings file of the
    hour directory read from the clock has gained the same record as its
    last row, after the header when the file was missing or empty.  It
    has made one ping call, of that target. *)
Theorem X14_ping_in_both_sinks (cfg : Config) (ip tag : string)
        (st st' : State) (stop : bool) :
  handles_sound st →
  ping_target cfg ip tag st = (Val stop, st') →
  let row := ping_row (hd 0 (w_epoch_ms (world st))) ip tag (hd Lost (w_ping (world st))) in
  let p := (hd "" (w_hour (world st)), CSV_PINGS_NAME) in
  db_view st' = add_ping row (db_view st) ∧
  tree st' !! p = Some (appended pings_header (default [] (tree st !! p)) (csv_of_ping row)) ∧
  calls st' = calls st ++ [CallPing ip].
Proof.
  intros Hs Hrun.
  pose proof (ping_target_stores cfg ip tag _ _ _ _ _ _ st
                (conj eq_refl (conj eq_refl
                   (conj eq_refl (conj eq_refl (conj eq_refl (conj eq_refl Hs))))))) as H.
  rewrite Hrun in H. destruct H as (Hp & Hv & Hc). simpl. auto.
Qed.

Lemma X14_ping_in_both_sinks_witness :
  let st' := (ping_target c1_config "8.8.8.8" "dest" x_probe_state).2 in
  db_view st' = add_ping (Pings.mk 10 "8.8.8.8" "dest" (Some (7 # 2)%Q) 1) empty_tables ∧
  tree st' !! ("20250820_11", "pings.csv")
  = Some [CStr <$> pings_header;
          [CInt 10; CStr "8.8.8.8"; CStr "dest"; CReal (7 # 2); CInt 1]] ∧
  calls st' = [CallPing "8.8.8.8"].
Proof.
  apply (X14_ping_in_both_sinks c1_config "8.8.8.8" "dest" x_probe_state
           (ping_target c1_config "8.8.8.8" "dest" x_probe_state).2 false).
  - apply handles_sound_no_files. reflexivity.
  - vm_compute. reflexivity.
Defined.

End BothSinks.

(** * The regular expressions *)

Section ReFacts.

Lemma span_take (p : ascii → bool) bound s k :
  (k ≤ Re.span p bound s)%nat → Forall (λ c, p c = true) (take k s) ∧ length (take k s) = k.
Proof.
  revert bound k. induction s as [|c s IH]; intros bound k Hk; simpl in Hk.
  - assert (k = 0%nat) as -> by lia. split; [constructor|reflexivity].
  - destruct k as [|k]; [split; [constructor|reflexivity]|].
    destruct (p c) eqn:Hc; [|lia].
    destruct bound as [[|b]|]; try lia.
    + destruct (IH (Some b) k ltac:(lia)) as [Hall Hlen].
      simpl. split; [constructor; assumption|congruence].
    + destruct (IH None k ltac:(lia)) as [Hall Hlen].
      simpl. split; [constructor; assumption|congruence].
Qed.

Lemma span_bound (p : ascii → bool) b s : (Re.span p (Some b) s ≤ b)%nat.
Proof.
  revert b. induction s as [|c s IH]; intros b; simpl; [lia|].
  destruct (p c); [|lia]. destruct b as [|b]; [lia|]. specialize (IH b). lia.
Qed.

(** The span stops at the first character outside the class. *)
Lemma span_all (p : ascii → bool) (s rest : list ascii) :
  Forall (λ c, p c = true) s → (∀ c tl, rest = c :: tl → p c = false) →
  Re.span p None (s ++ rest) = length s.
Proof.
  intros Hs Hrest. induction Hs as [|c s Hc _ IH]; simpl.
  - destruct rest as [|c tl]; [reflexivity|]. simpl. rewrite (Hrest c tl eq_refl). reflexivity.
  - rewrite Hc, IH. reflexivity.
Qed.

Lemma backtrack_some {R} (f : nat → option R) lo n r :
  Re.backtrack f lo n = Some r → ∃ k, (lo ≤ k ≤ n)%nat ∧ f k = Some r.
Proof.
  induction n as [|n IH]; simpl.
  - destruct (0 <? lo)%nat eqn:Hlo; [discriminate|]. apply Nat.ltb_ge in Hlo.
    destruct (f 0%nat) eqn:Hf; [|discriminate]. intros [= <-]. exists 0%nat. split; [lia|exact Hf].
  - destruct (S n <? lo)%nat eqn:Hlo; [discriminate|]. apply Nat.ltb_ge in Hlo.
    destruct (f (S n)) eqn:Hf.
    + intros [= <-]. exists (S n). split; [lia|exact Hf].
    + intros H. destruct (IH H) as (k & Hk & Hfk). exists k. split; [lia|exact Hfk].
Qed.

Lemma backtrack_first {R} (f : nat → option R) lo n r :
  (lo ≤ n)%nat → f n = Some r → Re.backtrack f lo n = Some r.
Proof.
  intros Hlo Hf. destruct n; simpl.
  - destruct (0 <? lo)%nat eqn:H; [apply Nat.ltb_lt in H; lia|]. rewrite Hf. reflexivity.
  - destruct (S n <? lo)%nat eqn:H; [apply Nat.ltb_lt in H; lia|]. rewrite Hf. reflexivity.
Qed.

Lemma backtrack_none {R} (f : nat → option R) lo n :
  (∀ k, (lo ≤ k ≤ n)%nat → f k = None) → Re.backtrack f lo n = None.
Proof.
  intros Hf. destruct (Re.backtrack f lo n) as [r|] eqn:Hb; [|reflexivity].
  apply backtrack_some in Hb as (k & Hk & Hfk). rewrite (Hf k Hk) in Hfk. discriminate.
Qed.

(** What a match has taken: item by item, and in the text. *)
Lemma match_items_sound items s segs tl :
  Re.match_items items s = Some (segs, tl) →
  s = concat segs ++ tl ∧ Forall2 taken_by items segs.
Proof.
  revert s segs tl. induction items as [|it items IH]; intros s segs tl; simpl.
  - intros [= <- <-]. split; [reflexivity|constructor].
  - intros Hb. apply backtrack_some in Hb as (k & Hk & Hf).
    destruct (Re.match_items items (drop k s)) as [[segs' tl']|] eqn:Hrest; [|discriminate].
    injection Hf as <- <-. destruct (IH _ _ _ Hrest) as [Hs Hall].
    destruct (span_take (Re.cls it) (Re.rmax it) s k ltac:(lia)) as [Hcls Hlen].
    split.
    + simpl. rewrite <- app_assoc, <- Hs. symmetry. apply take_drop.
    + constructor; [|exact Hall]. split; [exact Hcls|]. split; [lia|].
      intros b Hb. rewrite Hb in Hk. pose proof (span_bound (Re.cls it) b s). lia.
Qed.

Lemma search_sound items s segs :
  Re.search items s = Some segs →
  ∃ pre tl, s = pre ++ concat segs ++ tl ∧ Forall2 taken_by items segs.
Proof.
  induction s as [|c s IH]; simpl.
  - destruct (Re.match_items items []) as [[segs' tl]|] eqn:Hm; [|discriminate].
    intros [= <-]. destruct (match_items_sound _ _ _ _ Hm) as [Hs Hall].
    exists [], tl. split; [exact Hs|exact Hall].
  - destruct (Re.match_items items (c :: s)) as [[segs' tl]|] eqn:Hm.
    + intros [= <-]. destruct (match_items_sound _ _ _ _ Hm) as [Hs Hall].
      exists [], tl. split; [exact Hs|exact Hall].
    + intros H. destruct (IH H) as (pre & tl & Hs & Hall).
      exists (c :: pre), tl. split; [rewrite Hs; reflexivity|exact Hall].
Qed.

(** A literal takes exactly its character. *)
Lemma taken_by_lit c seg : taken_by (Re.lit c) seg → seg = [c].
Proof.
  intros (Hcls & Hmin & Hmax). specialize (Hmax 1%nat eq_refl). simpl in *.
  destruct seg as [|x [|y seg]]; simpl in *; try lia.
  apply Forall_cons in Hcls as [Hx _]. apply bool_decide_eq_true in Hx. congruence.
Qed.

(** The greedy choice, when the rest matches after it. *)
Lemma match_items_greedy it items s segs tl :
  (Re.rmin it ≤ Re.span (Re.cls it) (Re.rmax it) s)%nat →
  Re.match_items items (drop (Re.span (Re.cls it) (Re.rmax it) s) s) = Some (segs, tl) →
  Re.match_items (it :: items) s
  = Some (take (Re.span (Re.cls it) (Re.rmax it) s) s :: segs, tl).
Proof.
  intros Hmin Hrest. simpl. apply backtrack_first; [exact Hmin|]. rewrite Hrest. reflexivity.
Qed.

Lemma match_lit c items s segs tl :
  Re.match_items items s = Some (segs, tl) →
  Re.match_items (Re.lit c :: items) (c :: s) = Some ([c] :: segs, tl).
Proof.
  intros Hrest.
  assert (Hspan : Re.span (Re.cls (Re.lit c)) (Re.rmax (Re.lit c)) (c :: s) = 1%nat).
  { simpl. rewrite bool_decide_eq_true_2 by reflexivity. destruct s; [reflexivity|].
    simpl. destruct (bool_decide _); reflexivity. }
  pose proof (match_items_greedy (Re.lit c) items (c :: s) segs tl) as H.
  rewrite Hspan in H. apply H; [simpl; lia|exact Hrest].
Qed.

(** Items that start with a literal match only a text that starts with
    its character. *)
Lemma match_lit_inv c items s r :
  Re.match_items (Re.lit c :: items) s = Some r → ∃ s', s = c :: s'.
Proof.
  destruct r as [segs tl]. intros Hm. apply match_items_sound in Hm as [Hs Hall].
  apply Forall2_cons_inv_l in Hall as (seg & segs' & Hseg & _ & ->).
  apply taken_by_lit in Hseg as ->. simpl in Hs. eauto.
Qed.

End ReFacts.

(** * The command helpers *)

Section TracerouteFacts.
Import Collector Tools.

Lemma taken_by_octet seg : taken_by (Re.mkItem Re.digit 1 (Some 3%nat)) seg → octet seg.
Proof.
  intros (Hcls & Hmin & Hmax). specialize (Hmax 3%nat eq_refl). simpl in *.
  split; [exact Hcls|lia].
Qed.

Lemma first_address_quad line s : first_address line = Some s → dotted_quad s.
Proof.
  unfold first_address. destruct (Re.search Re.IP_RE line) as [segs|] eqn:Hs; [|discriminate].
  intros [= <-]. apply search_sound in Hs as (pre & tl & _ & Hall).
  unfold Re.IP_RE in Hall.
  repeat match goal with
         | H : Forall2 taken_by (_ :: _) _ |- _ =>
             apply Forall2_cons_inv_l in H as (? & ? & ? & H & ->)
         | H : Forall2 taken_by [] _ |- _ => apply Forall2_nil_inv_l in H as ->
         end.
  repeat match goal with
         | H : taken_by (Re.lit _) _ |- _ => apply taken_by_lit in H as ->
         | H : taken_by (Re.mkItem Re.digit _ _) _ |- _ => apply taken_by_octet in H
         end.
  eexists _, _, _, _. split; [|split; [|split; [|split]]]; cycle 4.
  { simpl. rewrite app_nil_r. reflexivity. }
  all: assumption.
Qed.

(** The loop keeps the first three addresses found. *)
Lemma collect_hops_take hops lines :
  (length hops < 3)%nat →
  collect_hops hops lines = take 3 (hops ++ omap first_address lines).
Proof.
  revert hops. induction lines as [|line lines IH]; intros hops Hlen.
  - simpl. rewrite app_nil_r, take_ge by lia. reflexivity.
  - destruct (Re.search Re.IP_RE line) as [segs|] eqn:Hs.
    + set (g := string_of_list_ascii (concat segs)).
      assert (Hstep : collect_hops hops (line :: lines)
                      = if (3 <=? length (hops ++ [g]))%nat then hops ++ [g]
                        else collect_hops (hops ++ [g]) lines).
      { cbn [collect_hops]. rewrite Hs. reflexivity. }
      assert (Homap : omap first_address (line :: lines) = g :: omap first_address lines).
      { cbn [omap list_omap]. unfold first_address at 1. rewrite Hs. reflexivity. }
      rewrite Hstep, Homap.
      replace (hops ++ g :: omap first_address lines)
        with ((hops ++ [g]) ++ omap first_address lines)
        by (rewrite <- app_assoc; reflexivity).
      assert (Hlen' : length (hops ++ [g]) = S (length hops))
        by (rewrite length_app; simpl; lia).
      destruct (3 <=? length (hops ++ [g]))%nat eqn:Hfull.
      * apply Nat.leb_le in Hfull.
        rewrite take_app_le by lia. rewrite take_ge by lia. reflexivity.
      * apply Nat.leb_gt in Hfull. apply IH. exact Hfull.
    + assert (Hstep : collect_hops hops (line :: lines)
                      = if (3 <=? length hops)%nat then hops else collect_hops hops lines).
      { cbn [collect_hops]. rewrite Hs. reflexivity. }
      assert (Homap : omap first_address (line :: lines) = omap first_address lines).
      { cbn [omap list_omap]. unfold first_address at 1. rewrite Hs. reflexivity. }
      rewrite Hstep, Homap.
      replace (3 <=? length hops)%nat with false by (symmetry; apply Nat.leb_gt; lia).
      apply IH, Hlen.
Qed.

Lemma collect_hops_spec lines :
  collect_hops [] lines = take 3 (omap first_address lines).
Proof. apply (collect_hops_take [] lines). simpl. lia. Qed.

Lemma take_omap_quads lines (n : nat) :
  Forall dotted_quad (take n (omap first_address lines)).
Proof.
  apply Forall_take, Forall_forall. intros s Hs.
  apply list_elem_of_omap in Hs as (line & _ & Hline).
  exact (first_address_quad line s Hline).
Qed.

End TracerouteFacts.

Section Traceroute.
Import Collector Tools.

Lemma do_traceroute_result (os : Os) (dest : string) :
  (do_traceroute os dest).2
  = if which os "traceroute" then
      on_result (os_run os (traceroute_cmd dest) 30)
        (λ rc out, if bool_decide (rc = 0) && negb (bool_decide (out = []))
                   then take 3 (omap first_address (tail (Text.splitlines out)))
                   else [])
    else if which os "mtr" then
      on_result (os_run os (mtr_cmd dest) 30)
        (λ rc out, if bool_decide (rc = 0) && negb (bool_decide (out = []))
                   then take 3 (omap first_address (Text.splitlines out))
                   else [])
    else Val [].
Proof.
  unfold do_traceroute, run_cmd, traceroute_cmd, mtr_cmd, on_result.
  destruct (which os "traceroute"); [|destruct (which os "mtr")]; simpl; [| |reflexivity].
  - destruct (os_run _ _ _); simpl; rewrite ?collect_hops_spec; reflexivity.
  - destruct (os_run _ _ _); simpl; rewrite ?collect_hops_spec; reflexivity.
Qed.

Lemma hops_shape (b : bool) (lines : list (list ascii)) :
  let hops := if b then take 3 (omap first_address lines) else [] in
  (length hops ≤ 3)%nat ∧ take 3 hops = hops ∧ Forall dotted_quad hops.
Proof.
  destruct b; simpl.
  - split; [rewrite length_take; lia|].
    split; [rewrite take_take; reflexivity|apply take_omap_quads].
  - split; [lia|]. split; [reflexivity|constructor].
Qed.

Lemma nothing_to_parse_result (r : CmdResult) (f : list ascii → list string) :
  nothing_to_parse r →
  on_result r (λ rc out, if bool_decide (rc = 0) && negb (bool_decide (out = []))
                         then f out else [])
  = Val [].
Proof.
  intros [->|(rc & out & err & -> & Hbad)]; [reflexivity|]. simpl.
  destruct Hbad as [Hrc| ->].
  - rewrite bool_decide_eq_false_2 by exact Hrc. reflexivity.
  - rewrite andb_comm. reflexivity.
Qed.

(** X15.  [do_traceroute] returns at most three hops, so the slice
    [hops[:3]] of the main loop keeps them all, and each hop is four
    groups of one to three digits with dots between them.  With
    traceroute they are the first addresses of the first three lines that
    have one, the header line left out; with mtr, when traceroute is not
    found, the same over all lines.  With neither tool, or when the
    command times out, fails or prints nothing, there is no hop.  The
    only exception it raises is one that running the command raised,
    other than the timeout. *)
Theorem X15_traceroute_hops (os : Os) (dest : string) :
  (∀ hops, (do_traceroute os dest).2 = Val hops →
     (length hops ≤ 3)%nat ∧ take 3 hops = hops ∧ Forall dotted_quad hops) ∧
  (which os "traceroute" = true →
   ∀ out err, out ≠ [] → os_run os (traceroute_cmd dest) 30 = Done 0 out err →
     (do_traceroute os dest).2
     = Val (take 3 (omap first_address (tail (Text.splitlines out))))) ∧
  (which os "traceroute" = false → which os "mtr" = true →
   ∀ out err, out ≠ [] → os_run os (mtr_cmd dest) 30 = Done 0 out err →
     (do_traceroute os dest).2 = Val (take 3 (omap first_address (Text.splitlines out)))) ∧
  (which os "traceroute" = false → which os "mtr" = false →
   (do_traceroute os dest).2 = Val []) ∧
  (nothing_to_parse (os_run os (traceroute_cmd dest) 30) →
   nothing_to_parse (os_run os (mtr_cmd dest) 30) →
   (do_traceroute os dest).2 = Val []) ∧
  (∀ e, (do_traceroute os dest).2 = Exn e →
     os_run os (traceroute_cmd dest) 30 = Raised e ∨
     os_run os (mtr_cmd dest) 30 = Raised e).
Proof.
  rewrite do_traceroute_result.
  split; [|split; [|split; [|split; [|split]]]].
  - intros hops.
    destruct (which os "traceroute"); [|destruct (which os "mtr")].
    + destruct (os_run os (traceroute_cmd dest) 30); simpl; intros [= <-];
        apply hops_shape || apply (hops_shape false []).
    + destruct (os_run os (mtr_cmd dest) 30); simpl; intros [= <-];
        apply hops_shape || apply (hops_shape false []).
    + intros [= <-]. apply (hops_shape false []).
  - intros -> out err Hne ->. simpl.
    rewrite bool_decide_eq_false_2 by exact Hne. reflexivity.
  - intros -> -> out err Hne ->. simpl.
    rewrite bool_decide_eq_false_2 by exact Hne. reflexivity.
  - intros -> ->. reflexivity.
  - intros Htr Hmtr.
    destruct (which os "traceroute"); [|destruct (which os "mtr")];
      [apply nothing_to_parse_result, Htr|apply nothing_to_parse_result, Hmtr|reflexivity].
  - intros e.
    destruct (which os "traceroute"); [|destruct (which os "mtr")]; [| |discriminate].
    + destruct (os_run os (traceroute_cmd dest) 30); simpl; try discriminate.
      intros [= ->]. left. reflexivity.
    + destruct (os_run os (mtr_cmd dest) 30); simpl; try discriminate.
      intros [= ->]. right. reflexivity.
Qed.

Lemma X15_traceroute_hops_witness :
  (do_traceroute x_os "8.8.8.8").2 = Val ["192.168.1.1"; "10.0.0.1"].
Proof.
  destruct (X15_traceroute_hops x_os "8.8.8.8") as (_ & Htr & _).
  rewrite (Htr eq_refl x_traceroute_out [] ltac:(discriminate) eq_refl).
  vm_compute. reflexivity.
Defined.

End Traceroute.

Section PingFacts.
Import Collector Tools.

Lemma digit_of_nonneg c : 0 ≤ default 0 (PyInt.digit_of c).
Proof.
  unfold PyInt.digit_of.
  destruct ((48 <=? N_of_ascii c) && (N_of_ascii c <=? 57))%N eqn:Hd; simpl; [|lia].
  apply andb_true_iff in Hd as [H1 _]. apply N.leb_le in H1. lia.
Qed.

Lemma digits_value_nonneg l : 0 ≤ PyFloat.digits_value l.
Proof.
  unfold PyFloat.digits_value.
  assert (H : ∀ acc, 0 ≤ acc →
              0 ≤ foldl (λ a c, 10 * a + default 0 (PyInt.digit_of c)) acc l).
  { induction l as [|c l IH]; intros acc Hacc; simpl; [exact Hacc|].
    apply IH. pose proof (digit_of_nonneg c). lia. }
  apply H. lia.
Qed.

(** [float] of a text of digits and dots is never negative. *)
Lemma float_nonneg s q : PyFloat.float s = Val q → (0 <= q)%Q.
Proof.
  unfold PyFloat.float. destruct (PyFloat.split_dot [] s) as [whole rest].
  destruct (_ && _); [|discriminate]. intros [= <-].
  unfold Qle. simpl.
  pose proof (digits_value_nonneg whole). pose proof (digits_value_nonneg (default [] rest)).
  assert (0 ≤ 10 ^ Z.of_nat (length (default [] rest))) by (apply Z.pow_nonneg; lia).
  nia.
Qed.

Lemma contains_here sub s : sub `prefix_of` s → Text.contains sub s = true.
Proof.
  intros H. destruct s; simpl; rewrite bool_decide_eq_true_2 by exact H; reflexivity.
Qed.

Lemma contains_later sub c s : Text.contains sub s = true → Text.contains sub (c :: s) = true.
Proof. intros H. simpl. rewrite H. apply orb_true_r. Qed.

Lemma contains_app sub pre post : Text.contains sub (pre ++ sub ++ post) = true.
Proof.
  induction pre as [|c pre IH]; simpl app.
  - apply contains_here. exists post. reflexivity.
  - apply contains_later, IH.
Qed.

(** A match of TIME_RE starts with "time". *)
Lemma time_re_starts s r :
  Re.match_items Re.TIME_RE s = Some r → list_ascii_of_string "time" `prefix_of` s.
Proof.
  destruct r as [segs tl]. intros Hm. apply match_items_sound in Hm as [Hs Hall].
  unfold Re.TIME_RE in Hall.
  do 4 (apply Forall2_cons_inv_l in Hall as (? & ? & ?%taken_by_lit & Hall & ->)).
  subst. simpl. eexists. reflexivity.
Qed.

Lemma time_prefix_cut (pre rest : list ascii) :
  pre ≠ [] →
  list_ascii_of_string "time" `prefix_of` (pre ++ list_ascii_of_string "time" ++ rest) →
  list_ascii_of_string "time" `prefix_of` (pre ++ list_ascii_of_string "tim").
Proof.
  intros Hne [k Hk].
  destruct pre as [|c1 [|c2 [|c3 [|c4 pre]]]]; [congruence|..]; simpl in *;
    injection Hk; intros; subst; try discriminate; eexists; reflexivity.
Qed.

(** The search passes over a text before "time" that holds no start of a
    match. *)
Lemma search_time_skip pre rest :
  Text.contains (list_ascii_of_string "time") (pre ++ list_ascii_of_string "tim") = false →
  Re.search Re.TIME_RE (pre ++ list_ascii_of_string "time" ++ rest)
  = Re.search Re.TIME_RE (list_ascii_of_string "time" ++ rest).
Proof.
  induction pre as [|c pre IH]; intros Hno; [reflexivity|].
  change ((c :: pre) ++ list_ascii_of_string "time" ++ rest)
    with (c :: (pre ++ list_ascii_of_string "time" ++ rest)).
  cbn [Re.search].
  destruct (Re.match_items Re.TIME_RE (c :: pre ++ list_ascii_of_string "time" ++ rest))
    as [r|] eqn:Hm.
  - exfalso. apply time_re_starts in Hm.
    apply (time_prefix_cut (c :: pre) rest ltac:(discriminate)) in Hm.
    rewrite (contains_here _ _ Hm) in Hno. discriminate.
  - apply IH. simpl in Hno. apply orb_false_iff in Hno. apply Hno.
Qed.

Lemma digit_or_dot_not_space c : Re.digit_or_dot c = true → Re.space c = false.
Proof.
  unfold Re.digit_or_dot, Re.space, Text.is_digit, PyInt.is_space.
  intros H. apply orb_true_iff in H as [H|H].
  - apply andb_true_iff in H as [H1 H2]. apply N.leb_le in H1, H2.
    apply orb_false_iff. split; apply andb_false_iff; right; apply N.leb_gt; lia.
  - apply bool_decide_eq_true in H. subst c. reflexivity.
Qed.

(** The match of TIME_RE on a well-formed reply line. *)
Lemma time_re_match body post :
  body ≠ [] → Forall (λ c, Re.digit_or_dot c = true) body →
  Re.match_items Re.TIME_RE
    (list_ascii_of_string "time=" ++ body ++ list_ascii_of_string " ms" ++ post)
  = Some ([["t"%char]; ["i"%char]; ["m"%char]; ["e"%char]; ["="%char]; []; body;
           [" "%char]; ["m"%char]; ["s"%char]], post).
Proof.
  intros Hne Hbody. unfold Re.TIME_RE. simpl app.
  do 4 apply match_lit.
  (* [=<] *)
  match goal with
  | |- Re.match_items (?it :: ?items) ?s = _ =>
      pose proof (match_items_greedy it items s) as Hstep
  end.
  assert (Hspan1 : ∀ l, Re.span (λ c, bool_decide (c = "="%char) || bool_decide (c = "<"%char))
                                (Some 1%nat) ("="%char :: l) = 1%nat).
  { intros l. simpl. destruct l; [reflexivity|]. simpl. destruct (_ || _); reflexivity. }
  simpl Re.cls in Hstep. simpl Re.rmax in Hstep. simpl Re.rmin in Hstep.
  rewrite Hspan1 in Hstep. apply Hstep; [lia|]. clear Hstep. cbn [drop]. rewrite ?drop_0.
  (* \s* takes nothing *)
  destruct body as [|b body]; [congruence|]. apply Forall_cons in Hbody as [Hb Hbody].
  match goal with
  | |- Re.match_items (?it :: ?items) ?s = _ =>
      pose proof (match_items_greedy it items s) as Hstep
  end.
  simpl Re.cls in Hstep. simpl Re.rmax in Hstep. simpl Re.rmin in Hstep.
  assert (Hspan2 : ∀ l, Re.span Re.space None (b :: l) = 0%nat).
  { intros l. simpl. rewrite (digit_or_dot_not_space b Hb). reflexivity. }
  simpl app in Hstep. rewrite Hspan2 in Hstep. apply Hstep; [lia|]. clear Hstep. cbn [drop]. rewrite ?drop_0.
  (* [\d.]+ takes the number *)
  match goal with
  | |- Re.match_items (?it :: ?items) ?s = _ =>
      pose proof (match_items_greedy it items s) as Hstep
  end.
  simpl Re.cls in Hstep. simpl Re.rmax in Hstep. simpl Re.rmin in Hstep.
  assert (Hspan3 : Re.span Re.digit_or_dot None
                     ((b :: body) ++ " "%char :: "m"%char :: "s"%char :: post)
                   = length (b :: body)).
  { apply span_all; [constructor; assumption|]. intros c tl [= <- _]. reflexivity. }
  change (b :: body ++ " "%char :: "m"%char :: "s"%char :: post)
    with ((b :: body) ++ " "%char :: "m"%char :: "s"%char :: post) in *.
  rewrite Hspan3 in Hstep. rewrite take_app_length, drop_app_length in Hstep.
  apply Hstep; [simpl; lia|]. clear Hstep.
  (* \s* takes the blank *)
  match goal with
  | |- Re.match_items (?it :: ?items) ?s = _ =>
      pose proof (match_items_greedy it items s) as Hstep
  end.
  simpl Re.cls in Hstep. simpl Re.rmax in Hstep. simpl Re.rmin in Hstep.
  assert (Hspan4 : Re.span Re.space None (" "%char :: "m"%char :: "s"%char :: post) = 1%nat)
    by reflexivity.
  rewrite Hspan4 in Hstep. apply Hstep; [lia|]. clear Hstep. cbn [drop]. rewrite ?drop_0.
  do 2 apply match_lit. reflexivity.
Qed.

End PingFacts.

Section Ping.
Import Collector Tools.

Lemma split_dot_digits whole frac cur :
  Forall (λ c, Text.is_digit c = true) whole →
  PyFloat.split_dot cur (whole ++ "."%char :: frac) = (rev cur ++ whole, Some frac).
Proof.
  intros Hw. revert cur. induction Hw as [|c whole Hc _ IH]; intros cur; simpl.
  - rewrite app_nil_r. reflexivity.
  - rewrite bool_decide_eq_false_2 by (intros ->; discriminate).
    rewrite IH. simpl. rewrite <- app_assoc. reflexivity.
Qed.

Lemma forallb_digits l : Forall (λ c, Text.is_digit c = true) l → forallb Text.is_digit l = true.
Proof. intros H. apply forallb_forall. intros c Hc%list_elem_of_In. rewrite Forall_forall in H. auto. Qed.

Lemma float_decimal whole frac :
  Forall (λ c, Text.is_digit c = true) whole → Forall (λ c, Text.is_digit c = true) frac →
  whole ≠ [] ∨ frac ≠ [] →
  PyFloat.float (whole ++ "."%char :: frac) = Val (decimal whole frac).
Proof.
  intros Hw Hf Hne. unfold PyFloat.float. rewrite (split_dot_digits whole frac [] Hw). simpl.
  rewrite (forallb_digits _ Hw), (forallb_digits _ Hf). simpl.
  rewrite bool_decide_eq_false_2 by (intros [-> ->]; destruct Hne; congruence).
  reflexivity.
Qed.

Lemma float_two_dots a b c :
  Forall (λ x, Text.is_digit x = true) a →
  PyFloat.float (a ++ "."%char :: b ++ "."%char :: c) = Exn ValueError.
Proof.
  intros Ha. unfold PyFloat.float. rewrite (split_dot_digits a _ [] Ha). simpl.
  replace (forallb Text.is_digit (b ++ "."%char :: c)) with false.
  - rewrite andb_false_r. reflexivity.
  - symmetry. rewrite forallb_app. simpl. apply andb_false_r.
Qed.

(** X16.  [do_ping] reports a reply only when the command returned 0 and
    its output holds the text "time=", and the round-trip time it
    reports is never negative.  A command that times out or returns
    another code is a lost ping; so is an output without "time=", even
    one that gives the time as "time<1 ms", which the regular expression
    alone would accept.  An exception of the command other than the
    timeout is not caught. *)
Theorem X16_ping_replies (os : Os) (ip : string) :
  (∀ t, do_ping os ip = Val (Reply t) →
     (0 <= t)%Q ∧
     ∃ out err, os_run os (ping_cmd ip) 5 = Done 0 out err ∧
                Text.contains (list_ascii_of_string "time=") out = true) ∧
  (failed (os_run os (ping_cmd ip) 5) → do_ping os ip = Val Lost) ∧
  (∀ out err, os_run os (ping_cmd ip) 5 = Done 0 out err →
     Text.contains (list_ascii_of_string "time=") out = false →
     do_ping os ip = Val Lost) ∧
  (∀ e, os_run os (ping_cmd ip) 5 = Raised e → do_ping os ip = Exn e).
Proof.
  unfold do_ping, run_cmd, ping_cmd.
  destruct (os_run os ["ping"; "-n"; "-c"; "1"; "-W"; "1"; ip] 5) as [rc out err| |e0];
    [|split; [discriminate|split; [reflexivity|split; discriminate]]|].
  2:{ split; [discriminate|]. split.
      - intros [?|(? & ? & ? & ? & _)]; discriminate.
      - split; [discriminate|]. intros e [= ->]. reflexivity. }
  simpl. split; [|split; [|split; [|discriminate]]].
  - intros t. destruct (bool_decide (rc = 0)) eqn:Hrc; [|discriminate].
    apply bool_decide_eq_true in Hrc. subst rc. simpl.
    destruct (Text.contains _ out) eqn:Hc; [|discriminate].
    destruct (Re.search Re.TIME_RE out) as [segs|]; [|discriminate].
    destruct (PyFloat.float _) as [q|] eqn:Hq; [|discriminate].
    simpl. intros [= <-]. split; [exact (float_nonneg _ _ Hq)|eauto].
  - intros [?|(? & ? & ? & [= <- <- <-] & Hrc)]; [discriminate|].
    rewrite bool_decide_eq_false_2 by exact Hrc. reflexivity.
  - intros out' err' [= -> <- <-] Hc. rewrite Hc. reflexivity.
Qed.

Lemma X16_ping_replies_witness :
  ((0 <= 123 # 10)%Q ∧
   ∃ out err, os_run x_os (ping_cmd "8.8.8.8") 5 = Done 0 out err ∧
              Text.contains (list_ascii_of_string "time=") out = true) ∧
  do_ping x_os_fast "127.0.0.1" = Val Lost.
Proof.
  split.
  - apply (proj1 (X16_ping_replies x_os "8.8.8.8")). vm_compute. reflexivity.
  - eapply (proj1 (proj2 (proj2 (X16_ping_replies x_os_fast "127.0.0.1")))); [reflexivity|].
    vm_compute. reflexivity.
Defined.



End Ping.

Section Servers.
Import Collector Tools.

Lemma string_of_list_not_empty l : l ≠ [] → string_of_list_ascii l ≠ "".
Proof. destruct l; [congruence|discriminate]. Qed.

Lemma server_of_line_shape line s :
  server_of_line line = Some s → numeral (id s) ∧ name s ≠ "".
Proof.
  unfold server_of_line, Re.match_.
  destruct (Re.match_items Re.SERVER_RE (PyInt.strip line)) as [[segs tl]|] eqn:Hm;
    [|discriminate].
  simpl. intros [= <-]. apply match_items_sound in Hm as [_ Hall].
  unfold Re.SERVER_RE in Hall.
  repeat match goal with
         | H : Forall2 taken_by (_ :: _) _ |- _ =>
             apply Forall2_cons_inv_l in H as (? & ? & ? & H & ->)
         | H : Forall2 taken_by [] _ |- _ => apply Forall2_nil_inv_l in H as ->
         end.
  simpl.
  match goal with
  | Hd : taken_by (Re.mkItem Re.digit _ _) ?d, Hn : taken_by (Re.mkItem Re.not_newline _ _) ?n
    |- _ => destruct Hd as (Hdig & Hdlen & _); destruct Hn as (_ & Hnlen & _)
  end.
  simpl in *. split; [split|].
  - apply string_of_list_not_empty. intros ->. simpl in *. lia.
  - rewrite list_ascii_of_string_of_list_ascii. exact Hdig.
  - apply string_of_list_not_empty. intros ->. simpl in *. lia.
Qed.

(** The loop keeps the first servers found: [count] of them, and one
    when [count] is less than 1. *)
Lemma collect_servers_take count servers lines :
  (length servers < Z.to_nat (Z.max 1 count))%nat →
  collect_servers count servers lines
  = take (Z.to_nat (Z.max 1 count)) (servers ++ omap server_of_line lines).
Proof.
  revert servers. induction lines as [|line lines IH]; intros servers Hlen.
  - simpl. rewrite app_nil_r, take_ge by lia. reflexivity.
  - destruct (Re.match_ Re.SERVER_RE (PyInt.strip line)) as [segs|] eqn:Hs.
    + set (s := mkServer (string_of_list_ascii (default [] (segs !! 1%nat)))
                         (string_of_list_ascii (default [] (segs !! 4%nat)))).
      assert (Hstep : collect_servers count servers (line :: lines)
                      = if bool_decide (count ≤ Z.of_nat (length (servers ++ [s])))
                        then servers ++ [s]
                        else collect_servers count (servers ++ [s]) lines).
      { cbn [collect_servers]. rewrite Hs. reflexivity. }
      assert (Homap : omap server_of_line (line :: lines) = s :: omap server_of_line lines).
      { cbn [omap list_omap]. unfold server_of_line at 1. rewrite Hs. reflexivity. }
      rewrite Hstep, Homap.
      replace (servers ++ s :: omap server_of_line lines)
        with ((servers ++ [s]) ++ omap server_of_line lines)
        by (rewrite <- app_assoc; reflexivity).
      assert (Hlen' : length (servers ++ [s]) = S (length servers))
        by (rewrite length_app; simpl; lia).
      case_bool_decide as Hfull.
      * rewrite take_app_le by lia. rewrite take_ge by lia. reflexivity.
      * apply IH. lia.
    + assert (Hstep : collect_servers count servers (line :: lines)
                      = collect_servers count servers lines).
      { cbn [collect_servers]. rewrite Hs. reflexivity. }
      assert (Homap : omap server_of_line (line :: lines) = omap server_of_line lines).
      { cbn [omap list_omap]. unfold server_of_line at 1. rewrite Hs. reflexivity. }
      rewrite Hstep, Homap. apply IH, Hlen.
Qed.

Lemma collect_servers_spec count lines :
  collect_servers count [] lines
  = take (Z.to_nat (Z.max 1 count)) (omap server_of_line lines).
Proof. apply (collect_servers_take count [] lines). simpl. lia. Qed.

Lemma take_omap_servers lines (n : nat) :
  Forall (λ s, numeral (id s) ∧ name s ≠ "") (take n (omap server_of_line lines)).
Proof.
  apply Forall_take, Forall_forall. intros s Hs.
  apply list_elem_of_omap in Hs as (line & _ & Hline).
  exact (server_of_line_shape line s Hline).
Qed.

Lemma auto_select_servers_result (os : Os) (tool : string) (count : Z) :
  auto_select_servers os tool count
  = if decide (tool = "ookla") then
      on_result (os_run os ["speedtest"; "-L"] 20)
        (λ rc out, if bool_decide (rc = 0)
                   then take (Z.to_nat (Z.max 1 count))
                             (omap server_of_line (Text.splitlines out))
                   else [])
    else if decide (tool = "speedtest-cli") then
      on_result (os_run os ["speedtest-cli"; "--list"] 25)
        (λ rc out, if bool_decide (rc = 0)
                   then take (Z.to_nat (Z.max 1 count))
                             (omap server_of_line (take 200 (Text.splitlines out)))
                   else [])
    else Val [].
Proof.
  unfold auto_select_servers, run_cmd, on_result.
  destruct (decide (tool = "ookla")); [|destruct (decide (tool = "speedtest-cli"))];
    [| |reflexivity].
  - destruct (os_run _ _ _); simpl; rewrite ?collect_servers_spec; reflexivity.
  - destruct (os_run _ _ _); simpl; rewrite ?collect_servers_spec; reflexivity.
Qed.

Lemma servers_shape (b : bool) (n : nat) (lines : list (list ascii)) :
  let servers := if b then take n (omap server_of_line lines) else [] in
  (length servers ≤ n)%nat ∧ Forall (λ s, numeral (id s) ∧ name s ≠ "") servers.
Proof.
  destruct b; simpl.
  - split; [rewrite length_take; lia|apply take_omap_servers].
  - split; [lia|constructor].
Qed.

Lemma failed_result (r : CmdResult) (f : list ascii → list Server) :
  failed r → on_result r (λ rc out, if bool_decide (rc = 0) then f out else []) = Val [].
Proof.
  intros [->|(rc & out & err & -> & Hrc)]; [reflexivity|]. simpl.
  rewrite bool_decide_eq_false_2 by exact Hrc. reflexivity.
Qed.

(** X18.  [auto_select_servers] returns the servers named by the first
    lines of the list that name one: a line names a server when, once
    stripped, it is a number, a closing parenthesis and a name; the id is
    that number and the name is not empty.  It returns [count] of them at
    most, but one when [count] is less than 1, since the length is tested
    only after a server has been added.  The servers come from the whole
    output of "speedtest -L" for ookla and from the first 200 lines of
    "speedtest-cli --list" for speedtest-cli; a command that times out or
    returns another code than 0, and any other tool, give no server.  The
    only exception it raises is one that running the command raised,
    other than the timeout. *)
Theorem X18_auto_selected_servers (os : Os) (tool : string) (count : Z) :
  (∀ servers, auto_select_servers os tool count = Val servers →
     (length servers ≤ Z.to_nat (Z.max 1 count))%nat ∧
     Forall (λ s, numeral (id s) ∧ name s ≠ "") servers) ∧
  (tool = "ookla" →
   ∀ out err, os_run os ["speedtest"; "-L"] 20 = Done 0 out err →
     auto_select_servers os tool count
     = Val (take (Z.to_nat (Z.max 1 count)) (omap server_of_line (Text.splitlines out)))) ∧
  (tool = "speedtest-cli" →
   ∀ out err, os_run os ["speedtest-cli"; "--list"] 25 = Done 0 out err →
     auto_select_servers os tool count
     = Val (take (Z.to_nat (Z.max 1 count))
                 (omap server_of_line (take 200 (Text.splitlines out))))) ∧
  (tool = "ookla" → failed (os_run os ["speedtest"; "-L"] 20) →
   auto_select_servers os tool count = Val []) ∧
  (tool = "speedtest-cli" → failed (os_run os ["speedtest-cli"; "--list"] 25) →
   auto_select_servers os tool count = Val []) ∧
  (tool ≠ "ookla" → tool ≠ "speedtest-cli" → auto_select_servers os tool count = Val []) ∧
  (∀ e, auto_select_servers os tool count = Exn e →
     (tool = "ookla" ∧ os_run os ["speedtest"; "-L"] 20 = Raised e) ∨
     (tool = "speedtest-cli" ∧ os_run os ["speedtest-cli"; "--list"] 25 = Raised e)).
Proof.
  rewrite auto_select_servers_result.
  split; [|split; [|split; [|split; [|split; [|split]]]]].
  - intros servers.
    destruct (decide (tool = "ookla")); [|destruct (decide (tool = "speedtest-cli"))].
    + destruct (os_run os ["speedtest"; "-L"] 20); simpl; intros [= <-];
        apply servers_shape || apply (servers_shape false _ []).
    + destruct (os_run os ["speedtest-cli"; "--list"] 25); simpl; intros [= <-];
        apply servers_shape || apply (servers_shape false _ []).
    + intros [= <-]. apply (servers_shape false _ []).
  - intros -> out err ->. reflexivity.
  - intros -> out err ->. reflexivity.
  - intros -> Hfail. apply (failed_result _ _ Hfail).
  - intros -> Hfail. apply (failed_result _ _ Hfail).
  - intros Hook Hcli.
    destruct (decide (tool = "ookla")); [contradiction|].
    destruct (decide (tool = "speedtest-cli")); [contradiction|reflexivity].
  - intros e.
    destruct (decide (tool = "ookla")) as [Hook|Hook];
      [|destruct (decide (tool = "speedtest-cli")) as [Hcli|Hcli]]; [| |discriminate].
    + destruct (os_run os ["speedtest"; "-L"] 20); simpl; try discriminate.
      intros [= ->]. left. split; [exact Hook|reflexivity].
    + destruct (os_run os ["speedtest-cli"; "--list"] 25); simpl; try discriminate.
      intros [= ->]. right. split; [exact Hcli|reflexivity].
Qed.

Lemma X18_auto_selected_witness :
  auto_select_servers x_os "ookla" 0 = Val [mkServer "1234" "ISP One (City, Country)"] ∧
  auto_select_servers x_os "ookla" 2
  = Val [mkServer "1234" "ISP One (City, Country)";
         mkServer "5678" "ISP Two (Town, Country)"].
Proof.
  destruct (X18_auto_selected_servers x_os "ookla" 0) as (_ & H0 & _).
  destruct (X18_auto_selected_servers x_os "ookla" 2) as (_ & H2 & _).
  rewrite (H0 eq_refl x_servers_out [] eq_refl), (H2 eq_refl x_servers_out [] eq_refl).
  split; vm_compute; reflexivity.
Defined.

End Servers.

Section ToolChoice.
Import Collector Tools.

(** X19.  [which_speedtest_tool] names a tool only when [which] finds its
    command, that is when running "which" on it returns 0: ookla for the
    settings "auto" and "ookla", speedtest-cli for "speedtest-cli" and,
    when the Ookla command is not found, for "auto".  Any other setting,
    for instance one in capitals, gives no tool, and so does a system with neither
    command. *)
Theorem X19_speedtest_tool_choice (os : Os) (tool : string) :
  (∀ t, which_speedtest_tool os tool = Some t →
     (t = tool_name ookla ∧ os_which os "speedtest" = Some 0 ∧
      (tool = "auto" ∨ tool = "ookla")) ∨
     (t = tool_name speedtest_cli ∧ os_which os "speedtest-cli" = Some 0 ∧
      ((tool = "auto" ∧ os_which os "speedtest" ≠ Some 0) ∨ tool = "speedtest-cli"))) ∧
  (tool ∉ ["auto"; "ookla"; "speedtest-cli"] → which_speedtest_tool os tool = None) ∧
  (os_which os "speedtest" ≠ Some 0 → os_which os "speedtest-cli" ≠ Some 0 →
   which_speedtest_tool os tool = None).
Proof.
  assert (Hwhich : ∀ cmd, which os cmd = true ↔ os_which os cmd = Some 0).
  { intros cmd. unfold which. destruct (os_which os cmd) as [rc|]; [|split; discriminate].
    rewrite bool_decide_eq_true. split; congruence. }
  assert (Hnot : ∀ cmd, which os cmd = false ↔ os_which os cmd ≠ Some 0).
  { intros cmd. rewrite <- Hwhich. destruct (which os cmd); split; congruence. }
  unfold which_speedtest_tool. split; [|split].
  - intros t.
    destruct (decide (tool = "auto")) as [->|Hauto].
    { destruct (which os "speedtest") eqn:H1.
      - intros [= <-]. left. rewrite <- Hwhich. auto.
      - destruct (which os "speedtest-cli") eqn:H2; [|discriminate].
        intros [= <-]. right. rewrite <- Hwhich, <- Hnot. auto. }
    destruct (decide (tool = "ookla")) as [->|Hookla].
    { destruct (which os "speedtest") eqn:H1; [|discriminate].
      intros [= <-]. left. rewrite <- Hwhich. auto. }
    destruct (decide (tool = "speedtest-cli")) as [->|Hcli]; [|discriminate].
    destruct (which os "speedtest-cli") eqn:H2; [|discriminate].
    intros [= <-]. right. rewrite <- Hwhich. auto.
  - intros Hin. rewrite !decide_False; [reflexivity|..]; intros ->; apply Hin.
    + right. right. left.
    + right. left.
    + left.
  - intros H1%Hnot H2%Hnot. rewrite H1, H2. repeat case_decide; reflexivity.
Qed.

Lemma X19_speedtest_tool_witness :
  which_speedtest_tool x_os "Auto" = None ∧
  ((tool_name ookla = tool_name ookla ∧ os_which x_os "speedtest" = Some 0 ∧
    ("auto" = "auto" ∨ "auto" = "ookla")) ∨
   (tool_name ookla = tool_name speedtest_cli ∧ os_which x_os "speedtest-cli" = Some 0 ∧
    (("auto" = "auto" ∧ os_which x_os "speedtest" ≠ Some 0) ∨ "auto" = "speedtest-cli"))).
Proof.
  split.
  - apply (proj1 (proj2 (X19_speedtest_tool_choice x_os "Auto"))).
    intros Hin. repeat (apply elem_of_cons in Hin as [Hin|Hin]; [discriminate Hin|]).
    by apply elem_of_nil in Hin.
  - apply (proj1 (X19_speedtest_tool_choice x_os "auto")). reflexivity.
Defined.

End ToolChoice.

Section ServerIdFacts.
Import Collector Tools.

Lemma elem_of_rev {A} (l : list A) (x : A) : x ∈ rev l ↔ x ∈ l.
Proof. rewrite !list_elem_of_In. symmetry. apply in_rev. Qed.

Lemma split_from_no_sep sep cur l :
  sep ∉ cur → Forall (λ piece, sep ∉ piece) (Text.split_from sep cur l).
Proof.
  revert cur. induction l as [|c l IH]; intros cur Hcur; simpl.
  - constructor; [|constructor]. intros Hin. apply Hcur. rewrite <- elem_of_rev.
    exact Hin.
  - case_bool_decide as Hc.
    + constructor; [|apply IH, not_elem_of_nil].
      intros Hin. apply Hcur. rewrite <- elem_of_rev. exact Hin.
    + apply IH. intros Hin. apply elem_of_cons in Hin as [->|Hin]; [congruence|contradiction].
Qed.

Lemma lstrip_suffix l : ∃ k, l = k ++ PyInt.lstrip l.
Proof.
  induction l as [|c l [k Hk]]; simpl.
  - exists []. reflexivity.
  - destruct (PyInt.is_space c).
    + exists (c :: k). simpl. congruence.
    + exists []. reflexivity.
Qed.

Lemma lstrip_head l c : head (PyInt.lstrip l) = Some c → PyInt.is_space c = false.
Proof.
  induction l as [|x l IH]; simpl; [discriminate|].
  destruct (PyInt.is_space x) eqn:Hx; [exact IH|]. simpl. congruence.
Qed.

Lemma elem_of_lstrip l c : c ∈ PyInt.lstrip l → c ∈ l.
Proof.
  destruct (lstrip_suffix l) as [k Hk]. intros Hc. rewrite Hk. apply elem_of_app. auto.
Qed.

Lemma lstrip_last l c :
  last (PyInt.lstrip l) = Some c → last l = Some c.
Proof.
  destruct (lstrip_suffix l) as [k Hk]. intros Hc. rewrite Hk.
  destruct (PyInt.lstrip l) as [|x r] eqn:Hl; [discriminate|].
  rewrite last_app, Hc. reflexivity.
Qed.

Lemma last_rev_head {A} (l : list A) : last (rev l) = head l.
Proof.
  destruct l as [|x l]; [reflexivity|]. simpl. rewrite last_snoc. reflexivity.
Qed.

Lemma head_rev_last {A} (l : list A) : head (rev l) = last l.
Proof. rewrite <- (rev_involutive l) at 2. rewrite last_rev_head. reflexivity. Qed.

(** What [strip] leaves has no white space at either end, and holds only
    characters of the text. *)
Lemma strip_clean l :
  (∀ c, head (PyInt.strip l) = Some c → PyInt.is_space c = false) ∧
  (∀ c, last (PyInt.strip l) = Some c → PyInt.is_space c = false) ∧
  (∀ c, c ∈ PyInt.strip l → c ∈ l).
Proof.
  unfold PyInt.strip. split; [|split].
  - intros c Hc. rewrite head_rev_last in Hc.
    apply lstrip_last in Hc. rewrite last_rev_head in Hc.
    exact (lstrip_head l c Hc).
  - intros c Hc. rewrite last_rev_head in Hc. exact (lstrip_head _ c Hc).
  - intros c Hc. rewrite elem_of_rev in Hc. apply elem_of_lstrip in Hc.
    rewrite elem_of_rev in Hc. apply elem_of_lstrip, Hc.
Qed.

Lemma server_ids_clean value :
  Forall (λ sid, clean_id (string_of_list_ascii (PyInt.strip (list_ascii_of_string sid))))
         (server_ids value).
Proof.
  unfold server_ids. apply Forall_fmap, Forall_forall. intros piece Hp.
  apply list_elem_of_filter in Hp as [Hnonblank Hp]. simpl.
  rewrite list_ascii_of_string_of_list_ascii.
  pose proof (split_from_no_sep ","%char [] (list_ascii_of_string value)
                (not_elem_of_nil _)) as Hsep.
  rewrite Forall_forall in Hsep. specialize (Hsep piece Hp).
  destruct (strip_clean piece) as (Hhead & Hlast & Hsub).
  unfold clean_id. rewrite list_ascii_of_string_of_list_ascii.
  split; [apply string_of_list_not_empty, Hnonblank|].
  split; [intros Hin; apply Hsep, Hsub, Hin|]. split; assumption.
Qed.

End ServerIdFacts.

Section ServerIds.
Import Collector Tools.

(** X20.  With a tool and a value of SPEEDTEST_SERVER_IDS that names a
    server, [main] uses one server for each field of the value that is
    not blank, in their order, with the field stripped as its id and an
    empty name: each id is not empty, holds no comma and has no white
    space at either end.  Without a tool it uses no server, whatever the
    value. *)
Theorem X20_configured_server_ids (value : string) (cfg : Config) (t : Tool) (st : State) :
  SPEEDTEST_SERVER_IDS cfg = server_ids value →
  (server_ids value ≠ [] →
   ∃ servers,
     select_servers cfg (Some t) st = (Val servers, st) ∧
     id <$> servers = stripped_fields value ∧
     Forall (λ s, clean_id (id s) ∧ name s = "") servers) ∧
  select_servers cfg None st = (Val [], st).
Proof.
  intros Hcfg. split; [|reflexivity].
  intros Hne. unfold select_servers. rewrite Hcfg.
  destruct (server_ids value) as [|sid sids] eqn:Hids; [congruence|].
  eexists. split; [reflexivity|]. split.
  - rewrite <- Hids. unfold server_ids, stripped_fields.
    rewrite <- !list_fmap_compose. apply list_fmap_ext. intros _ f _. simpl.
    rewrite list_ascii_of_string_of_list_ascii. reflexivity.
  - apply Forall_fmap. pose proof (server_ids_clean value) as Hclean. rewrite Hids in Hclean.
    eapply Forall_impl; [exact Hclean|]. intros s Hs. simpl. split; [exact Hs|reflexivity].
Qed.

Lemma X20_configured_server_ids_witness :
  ∃ servers,
    select_servers x_ids_config (Some ookla) (boot c1_world None ∅)
    = (Val servers, boot c1_world None ∅) ∧
    id <$> servers = ["12"; "34"] ∧
    Forall (λ s, clean_id (id s) ∧ name s = "") servers.
Proof.
  apply (proj1 (X20_configured_server_ids " 12 , ,34," x_ids_config ookla
                  (boot c1_world None ∅) eq_refl)).
  vm_compute. discriminate.
Defined.

End ServerIds.

(** * The dashboard script *)

Section DashboardLemmas.
Import Dashboard.

Lemma ceil_div_covers n m : (1 ≤ m → n ≤ ceil_div n m * m)%nat.
Proof.
  intros Hm. unfold ceil_div.
  pose proof (Nat.div_mod_eq n m) as Hdiv.
  pose proof (Nat.mod_upper_bound n m ltac:(lia)) as Hmod.
  destruct (Nat.eqb_spec (n mod m) 0); nia.
Qed.

Lemma ceil_div_pos n m : (1 ≤ m → m < n → 1 ≤ ceil_div n m)%nat.
Proof.
  intros Hm Hn. pose proof (ceil_div_covers n m Hm).
  destruct (ceil_div n m); [simpl in *; lia|lia].
Qed.

Lemma thin_loop_acc {A} (points : list A) s fuel i out :
  thin_loop points s fuel i out = out ++ thin_loop points s fuel i [].
Proof.
  revert i out. induction fuel as [|fuel IH]; intros i out; simpl.
  - rewrite app_nil_r. reflexivity.
  - destruct (points !! i) as [p|]; [|rewrite app_nil_r; reflexivity].
    rewrite (IH _ (out ++ [p])), (IH _ [p]), app_assoc. reflexivity.
Qed.

Lemma thin_loop_lookup {A} (points : list A) s fuel i k :
  (1 ≤ s)%nat → (length points ≤ i + fuel)%nat →
  thin_loop points s fuel i [] !! k = points !! (i + k * s)%nat.
Proof.
  intros Hs. revert i k. induction fuel as [|fuel IH]; intros i k Hlen; simpl.
  - rewrite lookup_nil. symmetry. apply lookup_ge_None. lia.
  - destruct (points !! i) as [p|] eqn:Hp.
    + rewrite thin_loop_acc. destruct k as [|k]; simpl.
      * rewrite Nat.add_0_r. congruence.
      * rewrite IH by lia. f_equal. lia.
    + rewrite lookup_nil. symmetry. apply lookup_ge_None.
      apply lookup_ge_None in Hp. lia.
Qed.

Lemma thin_loop_sublist {A} (points : list A) s fuel i :
  (1 ≤ s)%nat → thin_loop points s fuel i [] `sublist_of` drop i points.
Proof.
  intros Hs. revert i. induction fuel as [|fuel IH]; intros i; simpl.
  - apply sublist_nil_l.
  - destruct (points !! i) as [p|] eqn:Hp; [|apply sublist_nil_l].
    rewrite thin_loop_acc. simpl.
    rewrite (drop_S _ _ _ Hp). apply sublist_skip.
    etrans; [apply IH|].
    replace (i + s)%nat with (S i + (s - 1))%nat by lia.
    rewrite <- drop_drop. apply sublist_drop.
Qed.

End DashboardLemmas.

Section DashboardTheorems.
Import Dashboard.

(** X21.  [thin] returns an array of at most [maxPoints] entries whenever
    [maxPoints] is at least 1: the array itself when it is already that
    short, and otherwise every stride-th entry from the first on, in
    order, with stride the ceiling of length over [maxPoints].  In every
    case the result is a subsequence of the input that starts with the
    input's first entry, and the loop stops by itself: more rounds allowed
    give the same array. *)
Theorem X21_thin_caps_a_series {A} (points : list A) (maxPoints : nat) :
  let out := thin points maxPoints in
  let stride := ceil_div (length points) maxPoints in
  ((length points ≤ maxPoints)%nat → out = points) ∧
  ((1 ≤ maxPoints)%nat → (length out ≤ maxPoints)%nat) ∧
  ((1 ≤ maxPoints < length points)%nat →
     (1 ≤ stride)%nat ∧
     (∀ k, out !! k = points !! (k * stride)%nat) ∧
     ∀ more, thin_loop points stride (length points + more) 0 [] = out) ∧
  out `sublist_of` points ∧
  head out = head points.
Proof.
  intros out stride.
  assert (Hshort : (length points ≤ maxPoints)%nat → out = points).
  { intros Hle. unfold out, thin.
    destruct (Nat.leb_spec (length points) maxPoints); [reflexivity|lia]. }
  assert (Hlong : (1 ≤ maxPoints < length points)%nat →
            (1 ≤ stride)%nat ∧
            out = thin_loop points stride (length points) 0 []).
  { intros [Hm Hlt]. split; [apply ceil_div_pos; lia|].
    unfold out, thin.
    destruct (Nat.leb_spec (length points) maxPoints); [lia|].
    destruct maxPoints; [lia|reflexivity]. }
  split; [exact Hshort|]. split; [|split; [|split]].
  - intros Hm. destruct (decide (length points ≤ maxPoints)%nat) as [Hle|Hgt].
    + rewrite (Hshort Hle). exact Hle.
    + destruct Hlong as [Hs ->]; [lia|].
      apply Nat.nlt_ge. intros Hlt.
      apply lookup_lt_is_Some_2 in Hlt as [x Hx].
      rewrite thin_loop_lookup in Hx by (simpl; lia).
      apply lookup_lt_Some in Hx.
      pose proof (ceil_div_covers (length points) maxPoints Hm).
      fold stride in H. simpl in Hx. lia.
  - intros Hm. destruct (Hlong Hm) as [Hs Hout]. split; [exact Hs|]. split.
    + intros k. rewrite Hout. rewrite thin_loop_lookup by (simpl; lia).
      reflexivity.
    + intros more. rewrite Hout. apply list_eq. intros k.
      rewrite !thin_loop_lookup by (simpl; lia). reflexivity.
  - destruct (decide (length points ≤ maxPoints)%nat) as [Hle|Hgt].
    { rewrite (Hshort Hle). reflexivity. }
    destruct maxPoints as [|m].
    + unfold out, thin.
      destruct (Nat.leb_spec (length points) 0); [lia|]. apply sublist_take.
    + destruct Hlong as [Hs ->]; [lia|].
      apply (thin_loop_sublist points stride (length points) 0 Hs).
  - destruct (decide (length points ≤ maxPoints)%nat) as [Hle|Hgt].
    { rewrite (Hshort Hle). reflexivity. }
    destruct maxPoints as [|m].
    + unfold out, thin.
      destruct (Nat.leb_spec (length points) 0); [lia|]. destruct points; reflexivity.
    + destruct Hlong as [Hs ->]; [lia|].
      rewrite !head_lookup, thin_loop_lookup by (simpl; lia). reflexivity.
Qed.

Lemma X21_thin_witness :
  let out := thin x_points 3 in
  (length out ≤ 3)%nat ∧
  (∀ k, out !! k = x_points !! (k * 3)%nat) ∧
  thin [1; 2] 3 = [1; 2].
Proof.
  pose proof (@X21_thin_caps_a_series Z x_points 3) as (_ & Hcap & Hlong & _).
  pose proof (@X21_thin_caps_a_series Z [1; 2] 3) as (Hshort & _).
  split; [apply Hcap; lia|]. split.
  - destruct Hlong as (_ & Hk & _); [simpl; lia|]. exact Hk.
  - apply Hshort. simpl. lia.
Defined.

(** X22.  [pickBucketMs] always returns one of the six widths 15 s, 30 s,
    1 min, 2 min, 5 min and 10 min, so never zero or a negative one; NaN
    gets the widest.  The width does not shrink when the window grows,
    and a window of at most 1440 hours (the input field's maximum) spans
    at most 8640 buckets of the width chosen for it. *)
Theorem X22_bucket_width (hours : number) :
  pickBucketMs hours ∈ bucket_widths ∧
  0 < pickBucketMs hours ∧
  pickBucketMs NaN = 600000 ∧
  (∀ h h', (h <= h')%Q → pickBucketMs (Fin h) ≤ pickBucketMs (Fin h')) ∧
  (∀ h, (h <= 1440)%Q →
     (window_ms h <= 8640 * inject_Z (pickBucketMs (Fin h)))%Q).
Proof.
  assert (Hin : pickBucketMs hours ∈ bucket_widths).
  { unfold pickBucketMs, bucket_widths.
    repeat (destruct (le_lit hours _); [set_solver|]). set_solver. }
  split; [exact Hin|]. split; [|split; [reflexivity|split]].
  - unfold bucket_widths in Hin. set_unfold. lia.
  - intros h h' Hle. unfold pickBucketMs, le_lit.
    repeat match goal with
    | |- context [Qle_bool ?a ?b] =>
        let H := fresh "H" in
        destruct (Qle_bool a b) eqn:H;
        [apply Qle_bool_iff in H|apply not_true_iff_false in H; rewrite Qle_bool_iff in H]
    end; try lia;
    unfold Qle in *; simpl in *; nia.
  - intros h Hle. unfold pickBucketMs, le_lit, window_ms.
    repeat match goal with
    | |- context [Qle_bool ?a ?b] =>
        let H := fresh "H" in
        destruct (Qle_bool a b) eqn:H;
        [apply Qle_bool_iff in H|clear H]
    end;
    unfold Qle, Qmult, inject_Z in *; simpl in *; lia.
Qed.

Lemma X22_bucket_width_witness :
  pickBucketMs (Fin 24) ≤ pickBucketMs (Fin 168) ∧
  (window_ms 168 <= 8640 * inject_Z (pickBucketMs (Fin 168)))%Q.
Proof.
  pose proof (X22_bucket_width (Fin 24)) as (_ & _ & _ & Hmono & _).
  pose proof (X22_bucket_width (Fin 168)) as (_ & _ & _ & _ & Hspan).
  split.
  - apply (Hmono 24%Q 168%Q). vm_compute. discriminate.
  - apply (Hspan 168%Q). vm_compute. discriminate.
Defined.

End DashboardTheorems.

(** * From a discovery to the latest path *)

Section LatestPathLemmas.
Import Collector WebUI.

Lemma strictly_sorted_unique {A} (key : A → Z) (l l' : list A) :
  StronglySorted (λ a b, key a < key b) l →
  StronglySorted (Sql.key_le key) l' →
  l' ≡ₚ l → l' = l.
Proof.
  intros Hl. revert l'. induction Hl as [|x l0 Hl0 IH Hx]; intros l' Hl' Hperm.
  - apply Permutation_nil_r in Hperm. exact Hperm.
  - destruct l' as [|y l1].
    { apply Permutation_nil_cons in Hperm. destruct Hperm. }
    apply StronglySorted_inv in Hl' as [Hl1 Hy].
    assert (Hyin : y ∈ x :: l0) by (rewrite <- Hperm; left).
    apply elem_of_cons in Hyin as [->|Hyin].
    + f_equal. apply IH; [exact Hl1|]. apply (Permutation_cons_inv Hperm).
    + exfalso. rewrite Forall_forall in Hx, Hy.
      pose proof (Hx y Hyin) as Hlt.
      assert (Hxin : x ∈ y :: l1) by (rewrite Hperm; left).
      apply elem_of_cons in Hxin as [->|Hxin]; [lia|].
      pose proof (Hy x Hxin) as Hle. unfold Sql.key_le in Hle. lia.
Qed.

Lemma filter_all {A} (P : A → Prop) `{!∀ x, Decision (P x)} (l : list A) :
  (∀ x, x ∈ l → P x) → filter P l = l.
Proof.
  induction l as [|a l IH]; intros Hall; [reflexivity|].
  rewrite filter_cons_True by (apply Hall; left).
  f_equal. apply IH. intros x Hx. apply Hall. right. exact Hx.
Qed.

Lemma filter_none {A} (P : A → Prop) `{!∀ x, Decision (P x)} (l : list A) :
  (∀ x, x ∈ l → ¬ P x) → filter P l = [].
Proof.
  induction l as [|a l IH]; intros Hall; [reflexivity|].
  rewrite filter_cons_False by (apply Hall; left).
  apply IH. intros x Hx. apply Hall. right. exact Hx.
Qed.

Lemma enumerate_hops_sorted cfg ts n hips :
  let rows := (λ '(i, ip), Traceroutes.mk ts (DEST_HOST cfg) i (Some ip))
                <$> enumerate n hips in
  StronglySorted (λ a b, Traceroutes.hop a < Traceroutes.hop b) rows ∧
  Forall (λ r, n ≤ Traceroutes.hop r ∧ Traceroutes.ts_ms r = ts) rows.
Proof.
  revert n. induction hips as [|ip hips IH]; intros n; simpl.
  - split; constructor.
  - destruct (IH (n + 1)) as [Hs Hf]. split.
    + constructor; [exact Hs|].
      eapply Forall_impl; [exact Hf|]. simpl. intros r [Hr _]. lia.
    + constructor; [simpl; split; [lia|reflexivity]|].
      eapply Forall_impl; [exact Hf|]. simpl. intros r [Hr Ht]. split; [lia|exact Ht].
Qed.

Lemma max_of_unique (l : list Z) (m : Z) :
  m ∈ l → (∀ x, x ∈ l → x ≤ m) → Sql.max_of l = Some m.
Proof.
  revert m. induction l as [|a l IH]; intros m Hin Hmax.
  - apply elem_of_nil in Hin. destruct Hin.
  - simpl. f_equal. destruct l as [|b l'].
    + apply list_elem_of_singleton in Hin. simpl. congruence.
    + destruct (max_of_spec (b :: l')) as (m' & Hm' & Hin' & Hmax'); [discriminate|].
      rewrite Hm'.
      assert (m' ≤ m) by (apply Hmax; right; exact Hin').
      apply elem_of_cons in Hin as [->|Hin]; [lia|].
      pose proof (Hmax' m Hin). pose proof (Hmax a ltac:(left)). lia.
Qed.

(** The query on a table that ends with the rows of a newer discovery. *)
Lemma query_last_traces_newest cfg (t : Tables) base ts hips :
  traceroutes t = base ++ trace_rows cfg ts hips →
  older_than ts base → hips ≠ [] →
  query_last_traces (Some t) = trace_rows cfg ts hips.
Proof.
  intros Ht Hold Hne.
  destruct (enumerate_hops_sorted cfg ts 1 hips) as [Hsorted Hall].
  fold (trace_rows cfg ts hips) in Hsorted, Hall.
  rewrite Forall_forall in Hall.
  assert (Hrows : trace_rows cfg ts hips ≠ []).
  { destruct hips; [congruence|discriminate]. }
  unfold query_last_traces, get_conn. rewrite Ht.
  rewrite (max_of_unique _ ts).
  - apply strictly_sorted_unique with (key := Traceroutes.hop);
      [exact Hsorted|apply order_by_sorted|].
    rewrite order_by_perm, filter_app.
    rewrite (filter_none _ base), (filter_all _ (trace_rows cfg ts hips));
      [reflexivity| |].
    + intros r Hr. apply (Hall r Hr).
    + intros r Hr. pose proof (Hold r Hr). lia.
  - rewrite fmap_app. apply elem_of_app. right.
    destruct (trace_rows cfg ts hips) as [|r rest] eqn:Hr; [congruence|].
    apply list_elem_of_fmap. exists r. split; [|left].
    symmetry. apply (Hall r). left.
  - intros x Hx. apply list_elem_of_fmap in Hx as (r & -> & Hr).
    apply elem_of_app in Hr as [Hr|Hr].
    + pose proof (Hold r Hr). lia.
    + destruct (Hall r Hr) as [_ ->]. lia.
Qed.

End LatestPathLemmas.

Section LatestPathTheorems.
Import Collector WebUI.

(** X23.  When a cycle in which a discovery is due ends normally and the
    discovery's timestamp is greater than every timestamp stored in the
    traceroutes table, the latest-path query on the committed database
    returns exactly the rows of that discovery, one per kept hop in hop
    order, if the tool resolved at least one address.  If it resolved
    none, the query still returns what it returned before the cycle. *)
Theorem X23_latest_path_after_discovery (cfg : Config) (tool : option Tool)
    (servers : list Server) (st : State) :
  let now := hd 0%Q (w_time (world st)) in
  let hops := take 3 (hd [] (w_traceroute (world st))) in
  let ts := hd 0 (w_epoch_ms (world st)) in
  let r := loop_body cfg tool servers st in
  trace_due cfg now st = true →
  r.1 = Val tt →
  older_than ts (traceroutes (db_view st)) →
  (hops ≠ [] → query_last_traces (Some (disk r.2)) = trace_rows cfg ts hops) ∧
  (hops = [] →
     query_last_traces (Some (disk r.2)) = query_last_traces (Some (db_view st))).
Proof.
  intros now hops ts r Hdue Hok Hold.
  pose proof (loop_body_rows cfg tool servers st st eq_refl) as H. fold r in H.
  pose proof (loop_body_commits cfg tool servers st I) as Hc. fold r in Hc.
  destruct r as [[[]|e] st']; simpl in *; [|discriminate].
  fold now in H. rewrite Hdue in H. fold hops ts in H. unfold added in H.
  rewrite Hc. split.
  - intros Hne. apply (query_last_traces_newest cfg _ _ _ _ H Hold Hne).
  - intros Hnil. rewrite Hnil in H. unfold trace_rows in H. simpl in H.
    rewrite app_nil_r in H. unfold query_last_traces, get_conn. rewrite H.
    reflexivity.
Qed.

Lemma X23_latest_path_witness :
  query_last_traces (Some (disk (loop_body c5_config None [] x_path_state).2))
  = [Traceroutes.mk 10 "8.8.8.8" 1 (Some "10.0.0.1");
     Traceroutes.mk 10 "8.8.8.8" 2 (Some "10.0.0.2");
     Traceroutes.mk 10 "8.8.8.8" 3 (Some "10.0.0.3")].
Proof.
  destruct (X23_latest_path_after_discovery c5_config None [] x_path_state)
    as [Hnew _].
  - reflexivity.
  - reflexivity.
  - intros row Hrow. simpl in Hrow.
    apply elem_of_cons in Hrow as [->|Hrow]; [simpl; lia|].
    apply list_elem_of_singleton in Hrow as ->. simpl. lia.
  - apply Hnew. discriminate.
Defined.

End LatestPathTheorems.

Section DestStatsLemmas.
Import Dashboard WebUI.

Lemma dest_rounds (l : list bucket_row) (s0 t0 : Z) (w0 : Q) :
  ∃ w, foldl dest_round (s0, t0, w0) l
       = (s0 + Sql.sum_of (success_count <$> l),
          t0 + Sql.sum_of (total_count <$> l), w).
Proof.
  revert s0 t0 w0. induction l as [|r l IH]; intros s0 t0 w0.
  - exists w0. simpl. rewrite !Z.add_0_r. reflexivity.
  - rewrite !fmap_cons. cbn [foldl].
    destruct (dest_round (s0, t0, w0) r) as [[s1 t1] w1] eqn:Hround.
    unfold dest_round in Hround. injection Hround as Hs Ht _.
    destruct (IH s1 t1 w1) as [w Hw]. exists w. rewrite Hw, <- Hs, <- Ht.
    unfold Sql.sum_of. cbn [foldr]. f_equal. f_equal; lia.
Qed.

Lemma sum_of_flags (l : list Pings.row) :
  (∀ r, r ∈ l → Pings.success r = 0 ∨ Pings.success r = 1) →
  Sql.sum_of (Pings.success <$> l)
  = Z.of_nat (length l) - Z.of_nat (length (filter (λ r, Pings.success r = 0) l)).
Proof.
  induction l as [|a l IH]; intros Hflags; [reflexivity|].
  rewrite fmap_cons. simpl Sql.sum_of. rewrite IH.
  - destruct (Hflags a ltac:(left)) as [H0|H1].
    + rewrite filter_cons_True by exact H0. simpl length. lia.
    + rewrite filter_cons_False by (simpl; lia). simpl length. lia.
  - intros r Hr. apply Hflags. right. exact Hr.
Qed.

Lemma dest_stats_totals (t : Tables) (start_ms end_ms bucket_ms : Z)
      (rows : list bucket_row) (raw : list Pings.row) :
  query_pings_bucketed (Some t) start_ms end_ms bucket_ms = Val rows →
  query_pings_raw (Some t) start_ms end_ms = Val raw →
  success_flags raw →
  let n := Z.of_nat (length (dest_pings raw)) in
  let lost := Z.of_nat (length (lost_pings raw)) in
  0 ≤ lost ≤ n ∧
  ∃ w, destStatsFromBucketed rows
       = {| avg := if bool_decide (n - lost ≠ 0)
                   then Some (w / inject_Z (n - lost))%Q else None;
            lossPct := if bool_decide (n ≠ 0)
                       then (100 * inject_Z lost / inject_Z n)%Q else 0%Q |}.
Proof.
  intros Hq Hraw Hflags n lost.
  destruct (bucket_totals_by_tag _ _ _ _ _ _ Hq Hraw "dest") as [Htot Hsucc].
  unfold with_tag in Htot, Hsucc. fold (dest_pings raw) in Htot, Hsucc.
  rewrite sum_of_flags in Hsucc.
  2:{ intros r Hr. apply Hflags. unfold dest_pings in Hr.
      apply list_elem_of_filter in Hr as [_ Hr]. exact Hr. }
  fold (lost_pings raw) in Hsucc. fold n in Htot. fold n lost in Hsucc.
  assert (Hlen : 0 ≤ lost ≤ n).
  { unfold lost, n, lost_pings. pose proof (length_filter (λ r, Pings.success r = 0) (dest_pings raw)).
    lia. }
  split; [exact Hlen|].
  unfold destStatsFromBucketed.
  destruct (dest_rounds (filter (λ r, b_tag r = "dest") rows) 0 0 0%Q) as [w Hw].
  rewrite Hw, Htot, Hsucc, !Z.add_0_l. exists w.
  replace (n - (n - lost)) with lost by lia. reflexivity.
Qed.

End DestStatsLemmas.

Section DestStatsTheorems.
Import Dashboard WebUI.

(** X24.  Fed with the rows of the aggregated query, whatever the bucket
    width, the dashboard's loss figure for the destination is the share
    of lost pings among the destination's stored pings of the range, in
    percent: 100 times the number of rows with success 0 over the number
    of rows, when the success column holds only 0 and 1.  It lies between
    0 and 100, it is 0 when the range holds no destination ping, and the
    average is absent exactly when every destination ping was lost. *)
Theorem X24_destination_loss (t : Tables) (start_ms end_ms bucket_ms : Z)
        (rows : list bucket_row) (raw : list Pings.row) :
  query_pings_bucketed (Some t) start_ms end_ms bucket_ms = Val rows →
  query_pings_raw (Some t) start_ms end_ms = Val raw →
  success_flags raw →
  let stats := destStatsFromBucketed rows in
  let n := Z.of_nat (length (dest_pings raw)) in
  let lost := Z.of_nat (length (lost_pings raw)) in
  (dest_pings raw = [] → lossPct stats = 0%Q) ∧
  (dest_pings raw ≠ [] → lossPct stats = (100 * inject_Z lost / inject_Z n)%Q) ∧
  (0 <= lossPct stats)%Q ∧ (lossPct stats <= 100)%Q ∧
  (avg stats = None ↔ lost = n).
Proof.
  intros Hq Hraw Hflags stats n lost.
  destruct (dest_stats_totals _ _ _ _ _ _ Hq Hraw Hflags) as (Hlen & w & Hstats).
  fold stats n lost in Hlen, Hstats. rewrite Hstats. clear Hstats. simpl.
  split; [|split; [|split; [|split]]].
  - intros Hnil. unfold n. rewrite Hnil. reflexivity.
  - intros Hne. rewrite bool_decide_true; [reflexivity|].
    unfold n. destruct (dest_pings raw); [congruence|simpl; lia].
  - case_bool_decide as Hn; [|apply Qle_refl].
    apply Qle_shift_div_l.
    + unfold Qlt. simpl. lia.
    + unfold Qle. simpl. lia.
  - case_bool_decide as Hn; [|unfold Qle; simpl; lia].
    apply Qle_shift_div_r.
    + unfold Qlt. simpl. lia.
    + unfold Qle. simpl. lia.
  - case_bool_decide as Hs; split; intros H; try discriminate; try reflexivity; lia.
Qed.

Lemma X24_destination_loss_witness :
  lossPct (destStatsFromBucketed
             [mkBucket (Some 0) "dest" (Some (10 # 1)) 1 2;
              mkBucket (Some 0) "hop1" None 0 1;
              mkBucket (Some 30000) "dest" (Some (26 # 2)) 2 2])
  = (100 * inject_Z 1 / inject_Z 4)%Q.
Proof.
  refine (proj1 (proj2 (X24_destination_loss x_stats_table 0 40000 30000 _
            [Pings.mk 1000 "8.8.8.8" "dest" (Some (10 # 1)) 1;
             Pings.mk 2000 "8.8.8.8" "dest" None 0;
             Pings.mk 2500 "10.0.0.1" "hop1" None 0;
             Pings.mk 31000 "8.8.8.8" "dest" (Some (12 # 1)) 1;
             Pings.mk 32000 "8.8.8.8" "dest" (Some (14 # 1)) 1] _ _ _)) _).
  - vm_compute. reflexivity.
  - vm_compute. reflexivity.
  - intros r Hr. vm_compute in Hr.
    repeat (apply elem_of_cons in Hr as [->|Hr]; [simpl; lia|]).
    apply elem_of_nil in Hr. destruct Hr.
  - discriminate.
Defined.

End DestStatsTheorems.

